(** * Legacy fact extraction for IOS devices: a shallow embedding

    This development models [plugins/module_utils/network/ios/facts/legacy/base.py]:
    the four fact extractors ([Default], [Hardware], [Config], [Interfaces]) that
    scrape the text of CLI show-commands with regular expressions.

    Modelling choices, all made from the source:
    - text is a [string] of 8-bit characters (the code points below 256 of a
      Python [str]); the character classes follow Python's Unicode tables
      restricted to that range;
    - the [re] module is embedded as a backtracking matcher over the fragment
      of the pattern language that the source uses (literals, classes, [.],
      [^], [$], groups, alternation, optional groups, greedy and lazy
      repetition of a single-character atom);
    - a Python [dict] that is only looked up and stored into is a [gmap]; the
      result of [parse_interfaces], which is iterated in insertion order, is an
      association list with dictionary updates;
    - exceptions are an error monad [result]; an exception leaves the extractor,
      so no state is carried past it;
    - [from __future__ import division] is in force in the source: [/] on two
      integers is true division and produces a binary64 float, modelled with
      [SpecFloat];
    - the collaborators of the module ([run_commands], [get_capabilities],
      [normalize_interface]) are not part of it: the answers of the command
      runner and the capabilities are arguments of [populate], and
      [normalize_interface] is a variable of the section that uses it;
    - [Interfaces.parse_ipv4] is never called in the source and is left out. *)

From Stdlib Require Import ZArith QArith Ascii String Floats.SpecFloat.
From stdpp Require Import gmap strings list fin_maps.

Local Open Scope Z_scope.
Local Open Scope nat_scope.

(** ** Characters and Python string methods *)

Module Py.

Definition chr (n : nat) : ascii := Ascii.ascii_of_nat n.
Definition ord (c : ascii) : nat := Ascii.nat_of_ascii c.

Definition LF : string := String (chr 10) EmptyString.
Definition QUOTE : string := String (chr 34) EmptyString.

Definition ascii_eqb (a b : ascii) : bool := Ascii.eqb a b.

(** [str.isspace] / the class [\s] for code points below 256:
    TAB, LF, VT, FF, CR, FS, GS, RS, US, space, NEL and NBSP. *)
Definition isspace (c : ascii) : bool :=
  let n := ord c in
  ((9 <=? n) && (n <=? 13)) || ((28 <=? n) && (n <=? 32))
  || (n =? 133) || (n =? 160).

(** The class [\d] below 256: the ten ASCII digits. *)
Definition isdigit (c : ascii) : bool :=
  let n := ord c in (48 <=? n) && (n <=? 57).

Definition isupper_ascii (c : ascii) : bool :=
  let n := ord c in (65 <=? n) && (n <=? 90).

Definition is_newline (c : ascii) : bool := ord c =? 10.

(** [str.lower] on the ASCII letters (the other code points below 256 that have
    a lower-case form do not occur in the words the source compares with). *)
Definition lower_char (c : ascii) : ascii :=
  if isupper_ascii c then chr (ord c + 32) else c.

Fixpoint lower (s : string) : string :=
  match s with
  | EmptyString => EmptyString
  | String c s' => String (lower_char c) (lower s')
  end.

Fixpoint lstrip (s : string) : string :=
  match s with
  | EmptyString => EmptyString
  | String c s' => if isspace c then lstrip s' else s
  end.

(** [rstrip] drops the trailing run of white space: a character is kept when
    something that is not white space follows it or it is itself not white
    space. *)
Fixpoint rstrip (s : string) : string :=
  match s with
  | EmptyString => EmptyString
  | String c s' =>
      match rstrip s' with
      | EmptyString => if isspace c then EmptyString else String c EmptyString
      | r => String c r
      end
  end.

Definition strip (s : string) : string := rstrip (lstrip s).

(** [starts_with p s]: on success the rest of [s] after the prefix [p]. *)
Fixpoint starts_with (p s : string) : option string :=
  match p with
  | EmptyString => Some s
  | String a p' =>
      match s with
      | EmptyString => None
      | String b s' => if ascii_eqb a b then starts_with p' s' else None
      end
  end.

(** [sub in s]. *)
Fixpoint contains (sub s : string) : bool :=
  match starts_with sub s with
  | Some _ => true
  | None =>
      match s with
      | EmptyString => false
      | String _ s' => contains sub s'
      end
  end.

Fixpoint drop (n : nat) (s : string) : string :=
  match n with
  | O => s
  | S n' => match s with EmptyString => EmptyString | String _ s' => drop n' s' end
  end.

Fixpoint take (n : nat) (s : string) : string :=
  match n with
  | O => EmptyString
  | S n' => match s with EmptyString => EmptyString | String c s' => String c (take n' s') end
  end.

(** [s.split(sep)] for a non-empty separator: the pieces between the leftmost
    non-overlapping occurrences of [sep].  [skip] counts the characters of an
    occurrence that are still to be passed over; [cur] is the piece being
    collected, reversed. *)
Fixpoint rev_string (acc s : string) : string :=
  match s with
  | EmptyString => acc
  | String c s' => rev_string (String c acc) s'
  end.

Fixpoint split_go (sep : string) (skip : nat) (cur : string) (s : string) : list string :=
  match skip with
  | S n =>
      match s with
      | EmptyString => [rev_string EmptyString cur]
      | String _ s' => split_go sep n cur s'
      end
  | O =>
      match s with
      | EmptyString => [rev_string EmptyString cur]
      | String c s' =>
          match starts_with sep s with
          | Some _ =>
              rev_string EmptyString cur
                :: split_go sep (String.length sep - 1) EmptyString s'
          | None => split_go sep 0 (String c cur) s'
          end
      end
  end.

Definition split (sep s : string) : list string := split_go sep 0 EmptyString s.

(** [s.splitlines()]: the line boundaries below 256 are LF, CR, CRLF, VT, FF,
    FS, GS, RS and NEL; no empty last line is produced after a final
    boundary. *)
Definition is_linebreak (c : ascii) : bool :=
  let n := ord c in
  ((10 <=? n) && (n <=? 13)) || ((28 <=? n) && (n <=? 30)) || (n =? 133).

Fixpoint splitlines_go (cur : string) (s : string) : list string :=
  match s with
  | EmptyString =>
      match cur with EmptyString => [] | _ => [rev_string EmptyString cur] end
  | String c s' =>
      if is_linebreak c then
        rev_string EmptyString cur ::
          (if ord c =? 13 then
             match s' with
             | String d s'' => if ord d =? 10 then splitlines_go EmptyString s''
                               else splitlines_go EmptyString s'
             | EmptyString => []
             end
           else splitlines_go EmptyString s')
      else splitlines_go (String c cur) s'
  end.

Definition splitlines (s : string) : list string := splitlines_go EmptyString s.

End Py.

(** ** The [re] module: a backtracking matcher

    The matcher follows the semantics of Python's engine on the fragment
    below: alternatives are tried left to right, an optional group is tried
    before it is skipped, a greedy repetition takes the longest run first and
    gives characters back one at a time, a lazy one takes the shortest first.
    The first way that lets the rest of the pattern succeed is the match. *)

Module Re.

Import Py.

Record flags := { MULTILINE : bool; DOTALL : bool }.

Definition NOFLAG : flags := {| MULTILINE := false; DOTALL := false |}.
Definition M : flags := {| MULTILINE := true; DOTALL := false |}.
Definition S_ : flags := {| MULTILINE := false; DOTALL := true |}.

(** A single-character atom. *)
Inductive atom :=
  | AChar (c : ascii)              (* a literal character *)
  | ADot                           (* [.] *)
  | AClass (p : ascii -> bool).    (* [\s], [\S], [\d], [[...]] *)

Inductive regex :=
  | Eps
  | One (a : atom)
  | Star (a : atom)                (* [a*], greedy *)
  | Plus (a : atom)                (* [a+], greedy *)
  | LazyStar (a : atom)            (* [a*?] *)
  | Opt (r : regex)                (* [(...)?] or [a?], greedy *)
  | Seq (r1 r2 : regex)
  | Alt (r1 r2 : regex)
  | Group (n : nat) (r : regex)    (* capturing group number [n] *)
  | Bol                            (* [^] *)
  | Eol.                           (* [$] *)

(** A run of literal characters. *)
Fixpoint lit (s : string) : regex :=
  match s with
  | EmptyString => Eps
  | String c s' => Seq (One (AChar c)) (lit s')
  end.

Definition space : atom := AClass isspace.                        (* \s *)
Definition nonspace : atom := AClass (fun c => negb (isspace c)).   (* \S *)
Definition digit : atom := AClass isdigit.                         (* \d *)

Definition atom_ok (fl : flags) (a : atom) (c : ascii) : bool :=
  match a with
  | AChar d => ascii_eqb d c
  | ADot => DOTALL fl || negb (is_newline c)
  | AClass p => p c
  end.

(** A position in the subject: the character before it ([None] at the start of
    the subject) and the text from it on. *)
Record cursor := { before : option ascii; rest : string }.

Definition at_start (s : string) : cursor := {| before := None; rest := s |}.

Definition advance (c : ascii) (s' : string) : cursor :=
  {| before := Some c; rest := s' |}.

(** Group number to captured text, newest binding first. *)
Definition caps := list (nat * string).

Fixpoint group (n : nat) (cs : caps) : option string :=
  match cs with
  | [] => None
  | (k, s) :: cs' => if Nat.eqb k n then Some s else group n cs'
  end.

Section Matcher.
Context {R : Type}.
Variable fl : flags.

Definition try_ (x y : option R) : option R :=
  match x with Some r => Some r | None => y end.

(** Greedy repetition: as many characters as the atom accepts, then fewer. *)
Fixpoint star_greedy (a : atom) (bef : option ascii) (s : string)
    (k : cursor -> option R) : option R :=
  match s with
  | String c s' =>
      if atom_ok fl a c
      then try_ (star_greedy a (Some c) s' k) (k {| before := bef; rest := s |})
      else k {| before := bef; rest := s |}
  | EmptyString => k {| before := bef; rest := s |}
  end.

(** Lazy repetition: as few characters as possible, then more. *)
Fixpoint star_lazy (a : atom) (bef : option ascii) (s : string)
    (k : cursor -> option R) : option R :=
  try_ (k {| before := bef; rest := s |})
    match s with
    | String c s' => if atom_ok fl a c then star_lazy a (Some c) s' k else None
    | EmptyString => None
    end.

Definition bol_ok (cur : cursor) : bool :=
  match before cur with
  | None => true
  | Some c => MULTILINE fl && is_newline c
  end.

(** [$]: at the end of the subject, just before a final line feed, and with
    [MULTILINE] before every line feed. *)
Definition eol_ok (cur : cursor) : bool :=
  match rest cur with
  | EmptyString => true
  | String c s' =>
      is_newline c && (MULTILINE fl || match s' with EmptyString => true | _ => false end)
  end.

Fixpoint rmatch (r : regex) (cur : cursor) (cs : caps)
    (k : cursor -> caps -> option R) {struct r} : option R :=
  match r with
  | Eps => k cur cs
  | One a =>
      match rest cur with
      | String c s' => if atom_ok fl a c then k (advance c s') cs else None
      | EmptyString => None
      end
  | Star a => star_greedy a (before cur) (rest cur) (fun cur' => k cur' cs)
  | Plus a =>
      match rest cur with
      | String c s' =>
          if atom_ok fl a c
          then star_greedy a (Some c) s' (fun cur' => k cur' cs)
          else None
      | EmptyString => None
      end
  | LazyStar a => star_lazy a (before cur) (rest cur) (fun cur' => k cur' cs)
  | Opt r1 => try_ (rmatch r1 cur cs k) (k cur cs)
  | Seq r1 r2 => rmatch r1 cur cs (fun cur' cs' => rmatch r2 cur' cs' k)
  | Alt r1 r2 => try_ (rmatch r1 cur cs k) (rmatch r2 cur cs k)
  | Group n r1 =>
      rmatch r1 cur cs (fun cur' cs' =>
        k cur' ((n, take (String.length (rest cur) - String.length (rest cur')) (rest cur)) :: cs'))
  | Bol => if bol_ok cur then k cur cs else None
  | Eol => if eol_ok cur then k cur cs else None
  end.
End Matcher.

(** The match of [r] that starts exactly at [cur]: the groups and the position
    after the match. *)
Definition match_at (fl : flags) (r : regex) (cur : cursor) : option (caps * cursor) :=
  rmatch fl r cur [] (fun cur' cs => Some (cs, cur')).

Definition match_len (cur cur' : cursor) : nat :=
  String.length (rest cur) - String.length (rest cur').

(** [re.match(r, s, fl)]: the groups of the match at the start of [s]. *)
Definition re_match (fl : flags) (r : regex) (s : string) : option caps :=
  fst <$> match_at fl r (at_start s).

(** [re.search(r, s, fl)]: the groups of the leftmost match. *)
Fixpoint search_from (fl : flags) (r : regex) (bef : option ascii) (s : string)
    : option caps :=
  match match_at fl r {| before := bef; rest := s |} with
  | Some (cs, _) => Some cs
  | None =>
      match s with
      | String c s' => search_from fl r (Some c) s'
      | EmptyString => None
      end
  end.

Definition re_search (fl : flags) (r : regex) (s : string) : option caps :=
  search_from fl r None s.

(** The text of group 1, as [findall] reports it for a pattern with one group
    (an unset group reads as the empty text). *)
Definition group1 (cs : caps) : string := default EmptyString (group 1 cs).

(** [re.findall(r, s, fl)] for a pattern with one group: the leftmost
    non-overlapping matches, scanned left to right.  [skip] counts the
    characters of the last match that are still to be passed over.  After a
    match the scan resumes at its end; the patterns of the source cannot match
    the empty text, so the engine's special treatment of empty matches is not
    involved. *)
Fixpoint findall_from (fl : flags) (r : regex) (bef : option ascii) (s : string)
    (skip : nat) : list string :=
  match skip with
  | S n =>
      match s with
      | String c s' => findall_from fl r (Some c) s' n
      | EmptyString => []
      end
  | O =>
      let cur := {| before := bef; rest := s |} in
      match match_at fl r cur with
      | Some (cs, cur') =>
          group1 cs ::
            match s with
            | String c s' => findall_from fl r (Some c) s' (match_len cur cur' - 1)
            | EmptyString => []
            end
      | None =>
          match s with
          | String c s' => findall_from fl r (Some c) s' 0
          | EmptyString => []
          end
      end
  end.

Definition re_findall (fl : flags) (r : regex) (s : string) : list string :=
  findall_from fl r None s 0.

(** [re.sub(r, repl, s, flags=fl)] for a replacement without group
    references: every leftmost non-overlapping match is replaced. *)
Fixpoint sub_from (fl : flags) (r : regex) (repl : string) (bef : option ascii)
    (s : string) (skip : nat) : string :=
  match skip with
  | S n =>
      match s with
      | String c s' => sub_from fl r repl (Some c) s' n
      | EmptyString => EmptyString
      end
  | O =>
      let cur := {| before := bef; rest := s |} in
      match match_at fl r cur with
      | Some (_, cur') =>
          repl +:+
            match s with
            | String c s' =>
                match match_len cur cur' with
                | O => String c (sub_from fl r repl (Some c) s' 0)
                | S n => sub_from fl r repl (Some c) s' n
                end
            | EmptyString => EmptyString
            end
      | None =>
          match s with
          | String c s' => String c (sub_from fl r repl (Some c) s' 0)
          | EmptyString => EmptyString
          end
      end
  end.

Definition re_sub (fl : flags) (r : regex) (repl s : string) : string :=
  sub_from fl r repl None s 0.

(** The concatenation of the parts of a pattern. *)
Definition cat (l : list regex) : regex := foldr Seq Eps l.

End Re.

(** ** Exceptions and values *)

Inductive exn := KeyError | ValueError | TypeError | AttributeError | OverflowError.

Inductive result (A : Type) :=
  | Ok (a : A)
  | Raise (e : exn).
Arguments Ok {A} a.
Arguments Raise {A} e.

#[global] Instance result_ret : MRet result := @Ok.
#[global] Instance result_bind : MBind result := fun A B f x =>
  match x with
  | Ok a => f a
  | Raise e => Raise e
  end.

(** [for x in l: body], threading the state [st] and stopping at the first
    exception. *)
Fixpoint for_each {A St} (body : A -> St -> result St) (l : list A) (st : St)
    : result St :=
  match l with
  | [] => Ok st
  | x :: l' => st' ← body x st; for_each body l' st'
  end.

(** A fact: the values the extractors store. *)
#[warnings="-register-all"]
Inductive value :=
  | VNone
  | VStr (s : string)
  | VInt (z : Z)
  | VFloat (f : spec_float)
  | VList (l : list value)
  | VDict (d : gmap string value).

Abbreviation dict := (gmap string value).

(** ** Python built-ins used by the extractors *)

Module Builtins.

Import Py.

(** The decimal value of a run of digits. *)
Fixpoint int_digits (acc : Z) (s : string) : option Z :=
  match s with
  | EmptyString => Some acc
  | String c s' =>
      if isdigit c then int_digits (10 * acc + Z.of_nat (ord c - 48))%Z s'
      else None
  end.

(** [int(x)] where [x] is what [match.group] returned: [None] is a
    [TypeError], a non-empty run of digits is its value.  The source passes
    nothing but groups of the form [\d+]; any other text is reported as the
    [ValueError] that [int] raises on text that is not a number.  The limit
    that recent interpreters put on the number of digits is a setting of the
    interpreter and is not modelled: [int] is the interpreter's on the texts
    that are [within_limit] below, and beyond them the interpreter raises
    [ValueError] where [int] returns.  A property that says that a function
    returns, or names all that it raises, therefore assumes [within_limit]
    of the figures that the function reads. *)
Definition int (x : option string) : result Z :=
  match x with
  | None => Raise TypeError
  | Some EmptyString => Raise ValueError
  | Some s => match int_digits 0 s with Some z => Ok z | None => Raise ValueError end
  end.

(** The most digits that [int] takes by default ([sys.int_info]'s
    [default_max_str_digits]). *)
Definition int_max_str_digits : nat := 4300.

(** What [match.group] returned is no text, or a text that [int] takes. *)
Definition within_limit (x : option string) : Prop :=
  match x with
  | Some s => String.length s <= int_max_str_digits
  | None => True
  end.

(** [a or b] on two optional texts: [a] when it is neither [None] nor empty. *)
Definition or_ (a b : option string) : option string :=
  match a with
  | Some (String _ _) => a
  | _ => b
  end.

(** binary64 *)
Definition prec : Z := 53.
Definition emax : Z := 1024.

(** [a / b] under [from __future__ import division], for integers [a >= 0]
    and [b > 0]: the binary64 number nearest to the quotient (ties to even),
    or [OverflowError] when the quotient is too large for a float. *)
Definition truediv (a : Z) (b : positive) : result spec_float :=
  match a with
  | Zpos m =>
      let '(mz, ez, lz) := SFdiv_core_binary prec emax (Zpos m) 0 (Zpos b) 0 in
      match binary_round_aux prec emax false mz ez lz with
      | S754_infinity _ => Raise OverflowError
      | f => Ok f
      end
  | _ => Ok (S754_zero false)
  end.

(** The rational number a finite float stands for. *)
Definition float_value (f : spec_float) : option Q :=
  match f with
  | S754_zero _ => Some 0%Q
  | S754_finite s m e =>
      let v := match e with
               | Zneg p => Qmake (Zpos m) (2 ^ p)
               | _ => inject_Z (Zpos m * 2 ^ e)
               end in
      Some (if s then Qopp v else v)
  | _ => None
  end.

(** [f] is finite and stands for the rational number [q]. *)
Definition float_is (f : spec_float) (q : Q) : Prop :=
  match float_value f with
  | Some v => (v == q)%Q
  | None => False
  end.

End Builtins.

Import Py Re Builtins.

(** [d[k]]: a missing key is a [KeyError]. *)
Definition getitem {V} (d : gmap string V) (k : string) : result V :=
  match d !! k with
  | Some v => Ok v
  | None => Raise KeyError
  end.

(** Truth value of a text: [if data:]. *)
Definition truthy (s : string) : bool :=
  match s with EmptyString => false | _ => true end.

Definition one_of (cs : string) : atom := AClass (fun c => contains (String c EmptyString) cs).

(** ** class Default *)

Module Default.

(** What the capability discovery collaborator ([get_capabilities]) returns. *)
Record capabilities := {
  device_info : gmap string string;
  network_api : string
}.

(** [r"\sIOS-XE\s"] *)
Definition iostype_re : regex := cat [One space; lit "IOS-XE"; One space].

Definition parse_iostype (data : string) : string :=
  match re_search NOFLAG iostype_re data with
  | Some _ => "IOS-XE"
  | None => "IOS"
  end.

(** [r"Router\soperating\smode: (\S+)"] *)
Definition operatingmode_re : regex :=
  cat [lit "Router"; One space; lit "operating"; One space; lit "mode: ";
       Group 1 (Plus nonspace)].

Definition parse_operatingmode (data iostype : string) : string :=
  let match_ := re_search NOFLAG operatingmode_re data in
  if match match_ with
     | Some m => contains "autonomous" (lower (group1 m))
     | None => false
     end
     || bool_decide (iostype = "IOS")
  then "autonomous"
  else "controller".

(** [r"board ID (\S+)"] *)
Definition serialnum_re : regex := cat [lit "board ID "; Group 1 (Plus nonspace)].

Definition parse_serialnum (data : string) : value :=
  match re_search NOFLAG serialnum_re data with
  | Some m => VStr (group1 m)
  | None => VNone
  end.

(** [r"^Model [Nn]umber\s+: (\S+)"] *)
Definition stacked_models_re : regex :=
  cat [Bol; lit "Model "; One (one_of "Nn"); lit "umber"; Plus space; lit ": ";
       Group 1 (Plus nonspace)].

(** [r"^System [Ss]erial [Nn]umber\s+: (\S+)"] *)
Definition stacked_serialnums_re : regex :=
  cat [Bol; lit "System "; One (one_of "Ss"); lit "erial "; One (one_of "Nn");
       lit "umber"; Plus space; lit ": "; Group 1 (Plus nonspace)].

Definition strs (l : list string) : value := VList (VStr <$> l).

Definition parse_stacks (data : string) (facts : dict) : dict :=
  let facts :=
    match re_findall M stacked_models_re data with
    | [] => facts
    | match_ => <["stacked_models" := strs match_]> facts
    end in
  let facts :=
    match re_findall M stacked_serialnums_re data with
    | [] => facts
    | match_ => <["stacked_serialnums" := strs match_]> facts
    end in
  if bool_decide (is_Some (facts !! "stacked_models"))
  then <["virtual_switch" := VStr "STACK"]> facts
  else facts.

(** [r"^Virtual switch domain number : ([0-9]+)"] *)
Definition vss_domain_re : regex :=
  cat [Bol; lit "Virtual switch domain number : "; Group 1 (Plus digit)].

(** The pattern [System\Q.*?SN:\s*([^\s]+)] with [re.S], where [\Q] stands
    for an escaped double quote. *)
Definition vss_serial_re : regex :=
  cat [lit "System"; lit QUOTE; LazyStar ADot; lit "SN:"; Star space;
       Group 1 (Plus nonspace)].

Definition parse_virtual_switch (data : string) (facts : dict) : dict :=
  let facts :=
    match re_search M vss_domain_re data with
    | Some m =>
        <["virtual_switch_domain" := VStr (group1 m)]>
          (<["virtual_switch" := VStr "VSS"]> facts)
    | None => facts
    end in
  match re_findall S_ vss_serial_re data with
  | [] => facts
  | match_ => <["virtual_switch_serialnums" := strs match_]> facts
  end.

(** The model, image, version, platform and hostname entries are copied when
    the device reports them with a non-empty value. *)
Definition platform_items : list string :=
  ["model"; "image"; "version"; "platform"; "hostname"].

Definition platform_facts (resp : capabilities) (python_version : string)
    : result dict :=
  network_os ← getitem (device_info resp) "network_os";
  let platform_facts : dict := <["system" := VStr network_os]> ∅ in
  let platform_facts :=
    foldl (fun (acc : dict) item =>
             match device_info resp !! ("network_os_" +:+ item) with
             | Some val => if truthy val then <[item := VStr val]> acc else acc
             | None => acc
             end) platform_facts platform_items in
  let platform_facts := <["api" := VStr (network_api resp)]> platform_facts in
  Ok (<["python_version" := VStr python_version]> platform_facts).

Definition vss_errs : list string := ["Invalid input"; "Switch Mode : Standalone"].

(** [responses] holds the answers to [show version], [show switch virtual]
    and [show inventory], in this order. *)
Definition populate (resp : capabilities) (python_version : string)
    (show_version show_switch_virtual show_inventory : string)
    (facts : dict) : result dict :=
  pf ← platform_facts resp python_version;
  let facts := pf ∪ facts in                     (* facts.update(pf) *)
  let data := show_version in
  let facts :=
    if truthy data then
      let iostype := parse_iostype data in
      let facts := <["iostype" := VStr iostype]> facts in
      let facts := <["operatingmode" := VStr (parse_operatingmode data iostype)]> facts in
      let facts := <["serialnum" := parse_serialnum data]> facts in
      parse_stacks data facts
    else facts in
  let data := show_switch_virtual +:+ show_inventory in
  Ok (if truthy data && negb (existsb (fun err => contains err data) vss_errs)
      then parse_virtual_switch data facts
      else facts).

End Default.

(** ** class Hardware *)

Module Hardware.

(** [r"^Directory of (\S+)/"] *)
Definition directory_re : regex :=
  cat [Bol; lit "Directory of "; Group 1 (Plus nonspace); lit "/"].

(** [r"^(\d+) bytes total \((\d+) bytes free\)"] *)
Definition space_re : regex :=
  cat [Bol; Group 1 (Plus digit); lit " bytes total ("; Group 2 (Plus digit);
       lit " bytes free)"].

Definition parse_filesystems (data : string) : list string :=
  re_findall M directory_re data.

(** The loop state of [parse_filesystems_info]: the open file system [fs] and
    the records collected so far. *)
Definition fs_state : Type := string * gmap string dict.

Definition filesystems_info_line (line : string) (st : fs_state) : result fs_state :=
  let '(fs, facts) := st in
  match re_match NOFLAG directory_re line with
  | Some m =>
      let fs := group1 m in
      Ok (fs, <[fs := (∅ : dict)]> facts)
  | None =>
      match re_match NOFLAG space_re line with
      | Some m =>
          total ← int (group 1 m);
          spacetotal_kb ← truediv total 1024;
          rec ← getitem facts fs;
          let facts := <[fs := <["spacetotal_kb" := VFloat spacetotal_kb]> rec]> facts in
          free ← int (group 2 m);
          spacefree_kb ← truediv free 1024;
          rec ← getitem facts fs;
          Ok (fs, <[fs := <["spacefree_kb" := VFloat spacefree_kb]> rec]> facts)
      | None => Ok st
      end
  end.

Definition parse_filesystems_info (data : string) : result (gmap string dict) :=
  st ← for_each filesystems_info_line (split LF data) (EmptyString, ∅);
  Ok (snd st).

(** Group numbers of the CPU utilization pattern, counted by opening
    parenthesis as [re] does. *)
Definition g_core := 2.
Definition g_f_sec := 5.
Definition g_f_se_nom := 7.
Definition g_f_s_denom := 8.
Definition g_a_min := 9.
Definition g_f_min := 10.

(** The pattern is compiled with [re.VERBOSE]: the line breaks and blanks of
    its text are not part of it.
<<
    (^Core\s(?P<core>\d+)?:)?
    (^|\s)CPU\sutilization\sfor\sfive\sseconds:
    (\s(?P<f_sec>\d+)?%)?
    (\s(?P<f_se_nom>\d+)%/(?P<f_s_denom>\d+)%\)?)?
    ;\sone\sminute:\s(?P<a_min>\d+)?%
    ;\sfive\sminutes:\s(?P<f_min>\d+)?%
>> *)
Definition regex_cpu_utilization : regex :=
  cat [Opt (Group 1 (cat [Bol; lit "Core"; One space;
                          Opt (Group g_core (Plus digit)); lit ":"]));
       Group 3 (Alt Bol (One space));
       lit "CPU"; One space; lit "utilization"; One space; lit "for"; One space;
       lit "five"; One space; lit "seconds:";
       Opt (Group 4 (cat [One space; Opt (Group g_f_sec (Plus digit)); lit "%"]));
       Opt (Group 6 (cat [One space; Group g_f_se_nom (Plus digit); lit "%/";
                          Group g_f_s_denom (Plus digit); lit "%";
                          Opt (lit ")")]));
       lit ";"; One space; lit "one"; One space; lit "minute:"; One space;
       Opt (Group g_a_min (Plus digit)); lit "%";
       lit ";"; One space; lit "five"; One space; lit "minutes:"; One space;
       Opt (Group g_f_min (Plus digit)); lit "%"].

Definition cpu_utilization_line (line : string) (facts : gmap string dict)
    : result (gmap string dict) :=
  match re_match NOFLAG regex_cpu_utilization line with
  | Some m =>
      let _core :=
        match group g_core m with
        | Some (String c s) => "core_" +:+ String c s
        | _ => "core"
        end in
      five_seconds ← int (or_ (group g_f_se_nom m) (group g_f_sec m));
      one_minute ← int (group g_a_min m);
      five_minutes ← int (group g_f_min m);
      let rec : dict :=
        <["five_minutes" := VInt five_minutes]>
          (<["one_minute" := VInt one_minute]>
             (<["five_seconds" := VInt five_seconds]> ∅)) in
      match group g_f_s_denom m with
      | Some (String c s) =>
          interrupt ← int (Some (String c s));
          Ok (<[_core := <["five_seconds_interrupt" := VInt interrupt]> rec]> facts)
      | _ => Ok (<[_core := rec]> facts)
      end
  | None => Ok facts
  end.

Definition parse_cpu_utilization (data : string) : result (gmap string dict) :=
  for_each cpu_utilization_line (split LF data) ∅.

(** [r"Processor\s+(\S+|\d+)\s+(?P<total>\d+)\s+\d+\s+(?P<free>\d+)"] *)
Definition g_total := 2.
Definition g_free := 3.

Definition memory_re : regex :=
  cat [lit "Processor"; Plus space; Group 1 (Alt (Plus nonspace) (Plus digit));
       Plus space; Group g_total (Plus digit); Plus space; Plus digit;
       Plus space; Group g_free (Plus digit)].

Definition memory_line (line : string) (facts : dict) : result dict :=
  match re_match NOFLAG memory_re line with
  | Some m =>
      total ← int (group g_total m);
      memtotal_mb ← truediv total 1048576;
      let facts := <["memtotal_mb" := VFloat memtotal_mb]> facts in
      free ← int (group g_free m);
      memfree_mb ← truediv free 1048576;
      Ok (<["memfree_mb" := VFloat memfree_mb]> facts)
  | None => Ok facts
  end.

Definition dicts (d : gmap string dict) : value := VDict (VDict <$> d).

(** [responses] holds the answers to [dir], [show memory statistics] and
    [show processes cpu | include CPU utilization], in this order.  The
    warning about memory statistics goes to a list that is local to
    [populate]; it leaves no trace in the facts. *)
Definition populate (dir show_memory show_cpu : string) (facts : dict) : result dict :=
  facts ←
    (if truthy dir then
       let facts := <["filesystems" := Default.strs (parse_filesystems dir)]> facts in
       info ← parse_filesystems_info dir;
       Ok (<["filesystems_info" := dicts info]> facts)
     else Ok facts);
  cpu ← parse_cpu_utilization show_cpu;
  let facts := <["cpu_utilization" := dicts cpu]> facts in
  let data := show_memory in
  if truthy data then
    if contains "Invalid input detected" data then Ok facts
    else for_each memory_line (splitlines data) facts
  else Ok facts.

End Hardware.

(** ** class Config *)

Module Config.

(** The pattern is a triple-quoted raw literal that spans two source lines and
    is compiled without [re.VERBOSE]: the line break after [configuration] and
    the sixteen blanks that indent the second source line are part of the
    pattern, and the three dots are three [.] atoms.
<<
    ^Building configuration
                    ...\s+Current configuration : \d+ bytes\n
>> *)
Definition banner_re : regex :=
  cat [Bol; lit "Building configuration"; lit LF; lit "                ";
       One ADot; One ADot; One ADot; Plus space;
       lit "Current configuration : "; Plus digit; lit " bytes"; lit LF].

Definition populate (show_running_config : string) (facts : dict) : dict :=
  let data := show_running_config in
  if truthy data then
    let data := re_sub M banner_re EmptyString data in
    <["config" := VStr data]> facts
  else facts.

End Config.

(** ** Insertion-ordered dictionaries

    [parse_interfaces] builds a [dict] that the callers iterate; the order of
    iteration is the order in which the keys were first stored. *)

Module ODict.

Definition t (V : Type) : Type := list (string * V).

Fixpoint get {V} (d : t V) (k : string) : option V :=
  match d with
  | [] => None
  | (k', v) :: d' => if String.eqb k' k then Some v else get d' k
  end.

(** [d[k] = v]: an existing key keeps its place. *)
Fixpoint set {V} (d : t V) (k : string) (v : V) : t V :=
  match d with
  | [] => [(k, v)]
  | (k', v') :: d' =>
      if String.eqb k' k then (k, v) :: d' else (k', v') :: set d' k v
  end.

Definition keys {V} (d : t V) : list string := fst <$> d.

End ODict.

(** ** class Interfaces *)

Module Interfaces.

(** The entries of [self.facts] that this extractor owns.  [interfaces] is
    [None] while the key is absent from [self.facts]: [populate] stores it only
    when [show interfaces] answered with some text. *)
Record facts := {
  all_ipv4_addresses : list string;
  all_ipv6_addresses : list string;
  neighbors : gmap string (list dict);
  interfaces : option (gmap string dict)
}.

Definition set_interfaces (i : gmap string dict) (st : facts) : facts :=
  {| all_ipv4_addresses := all_ipv4_addresses st;
     all_ipv6_addresses := all_ipv6_addresses st;
     neighbors := neighbors st;
     interfaces := Some i |}.

Definition set_neighbors (n : gmap string (list dict)) (st : facts) : facts :=
  {| all_ipv4_addresses := all_ipv4_addresses st;
     all_ipv6_addresses := all_ipv6_addresses st;
     neighbors := n;
     interfaces := interfaces st |}.

(** [self.facts["interfaces"]] *)
Definition get_interfaces (st : facts) : result (gmap string dict) :=
  match interfaces st with
  | Some i => Ok i
  | None => Raise KeyError
  end.

Definition add_ip_address (address family : string) (st : facts) : facts :=
  if bool_decide (family = "ipv4") then
    {| all_ipv4_addresses := all_ipv4_addresses st ++ [address];
       all_ipv6_addresses := all_ipv6_addresses st;
       neighbors := neighbors st;
       interfaces := interfaces st |}
  else
    {| all_ipv4_addresses := all_ipv4_addresses st;
       all_ipv6_addresses := all_ipv6_addresses st ++ [address];
       neighbors := neighbors st;
       interfaces := interfaces st |}.

(** *** Single-pattern searches *)

Definition search1 (fl : flags) (r : regex) (data : string) : option string :=
  group1 <$> re_search fl r data.

Definition opt_str (o : option string) : value :=
  match o with Some s => VStr s | None => VNone end.

(** [r"Description: (.+)$"], [re.M] *)
Definition parse_description (data : string) : option string :=
  search1 M (cat [lit "Description: "; Group 1 (Plus ADot); Eol]) data.

(** The pattern [Hardware is ], a non-capturing group holding a starred dot,
    then [, address is (\S+)]. *)
Definition parse_macaddress (data : string) : option string :=
  search1 NOFLAG
    (cat [lit "Hardware is "; Star ADot; lit ", address is "; Group 1 (Plus nonspace)])
    data.

(** [r"MTU (\d+)"] *)
Definition parse_mtu (data : string) : result value :=
  match re_search NOFLAG (cat [lit "MTU "; Group 1 (Plus digit)]) data with
  | Some m => z ← int (group 1 m); Ok (VInt z)
  | None => Ok VNone
  end.

(** [r"BW (\d+)"] *)
Definition parse_bandwidth (data : string) : result value :=
  match re_search NOFLAG (cat [lit "BW "; Group 1 (Plus digit)]) data with
  | Some m => z ← int (group 1 m); Ok (VInt z)
  | None => Ok VNone
  end.

(** The class [\w] below 256: the characters that are alphanumeric for
    [str.isalnum], and the underscore. *)
Definition isword (c : ascii) : bool :=
  let n := ord c in
  isdigit c || ((65 <=? n) && (n <=? 90)) || ((97 <=? n) && (n <=? 122))
  || (n =? 95) || (n =? 170) || (n =? 178) || (n =? 179) || (n =? 181)
  || (n =? 185) || (n =? 186) || ((188 <=? n) && (n <=? 190))
  || ((192 <=? n) && (n <=? 214)) || ((216 <=? n) && (n <=? 246))
  || (248 <=? n).

(** [r"(\w+) Duplex"], [re.M] *)
Definition parse_duplex (data : string) : option string :=
  search1 M (cat [Group 1 (Plus (AClass isword)); lit " Duplex"]) data.

(** [r"media type is (.+)$"], [re.M] *)
Definition parse_mediatype (data : string) : option string :=
  search1 M (cat [lit "media type is "; Group 1 (Plus ADot); Eol]) data.

(** [r"Hardware is (.+),"], [re.M] *)
Definition parse_type (data : string) : option string :=
  search1 M (cat [lit "Hardware is "; Group 1 (Plus ADot); lit ","]) data.

(** [r"line protocol is (up|down)(.+)?$"], [re.M] *)
Definition parse_lineprotocol (data : string) : option string :=
  search1 M
    (cat [lit "line protocol is "; Group 1 (Alt (lit "up") (lit "down"));
          Opt (Group 2 (Plus ADot)); Eol])
    data.

(** [r"^(?:.+) is (.+),"], [re.M]; the group is stripped on the left. *)
Definition operstatus_re : regex :=
  cat [Bol; Plus ADot; lit " is "; Group 1 (Plus ADot); lit ","].

Definition parse_operstatus (data : string) : option string :=
  lstrip <$> search1 M operstatus_re data.

(** [r"^Local Intf: (.+)$"], [re.M] *)
Definition parse_lldp_intf (data : string) : option string :=
  search1 M (cat [Bol; lit "Local Intf: "; Group 1 (Plus ADot); Eol]) data.

(** [r"System Name: (.+)$"], [re.M] *)
Definition parse_lldp_host (data : string) : option string :=
  search1 M (cat [lit "System Name: "; Group 1 (Plus ADot); Eol]) data.

(** [r"Port id: (.+)$"], [re.M] *)
Definition parse_lldp_port (data : string) : option string :=
  search1 M (cat [lit "Port id: "; Group 1 (Plus ADot); Eol]) data.

(** [r"^    IP: (.+)$"], [re.M] *)
Definition parse_lldp_ip (data : string) : option string :=
  search1 M (cat [Bol; lit "    IP: "; Group 1 (Plus ADot); Eol]) data.

(** [r"^Interface: (.+),  Port ID \(outgoing port\): (.+)$"], [re.M] *)
Definition parse_cdp_intf_port (data : string) : option (string * string) :=
  match re_search M
          (cat [Bol; lit "Interface: "; Group 1 (Plus ADot);
                lit ",  Port ID (outgoing port): "; Group 2 (Plus ADot); Eol])
          data with
  | Some m => Some (group1 m, default EmptyString (group 2 m))
  | None => None
  end.

(** [r"^Device ID: (.+)$"], [re.M] *)
Definition parse_cdp_host (data : string) : option string :=
  search1 M (cat [Bol; lit "Device ID: "; Group 1 (Plus ADot); Eol]) data.

(** [r"^Platform: (.+),"], [re.M] *)
Definition parse_cdp_platform (data : string) : option string :=
  search1 M (cat [Bol; lit "Platform: "; Group 1 (Plus ADot); lit ","]) data.

(** [r"^  IP address: (.+)$"], [re.M] *)
Definition parse_cdp_ip (data : string) : option string :=
  search1 M (cat [Bol; lit "  IP address: "; Group 1 (Plus ADot); Eol]) data.

(** *** The block parser *)

(** One turn of the loop of [parse_interfaces]: the state is the current
    [key] and the blocks [parsed] so far. *)
Definition parse_interfaces_line (line : string) (st : string * ODict.t string)
    : result (string * ODict.t string) :=
  let '(key, parsed) := st in
  match line with
  | EmptyString => Ok st                                    (* continue *)
  | String c _ =>
      if ascii_eqb c " " then
        match ODict.get parsed key with
        | Some block => Ok (key, ODict.set parsed key (block +:+ LF +:+ line))
        | None => Raise KeyError
        end
      else
        match re_match NOFLAG (cat [Bol; Group 1 (Plus nonspace)]) line with
        | Some m =>
            let key := group1 m in
            Ok (key, ODict.set parsed key line)
        | None => Ok st
        end
  end.

Definition parse_lines (lines : list string) : result (string * ODict.t string) :=
  for_each parse_interfaces_line lines (EmptyString, []).

Definition parse_interfaces (data : string) : result (ODict.t string) :=
  st ← parse_lines (split LF data);
  Ok (snd st).

(** *** Populating the interface records *)

Definition populate_interfaces_item (kv : string * string) (facts : gmap string dict)
    : result (gmap string dict) :=
  let '(key, value) := kv in
  mtu ← parse_mtu value;
  bandwidth ← parse_bandwidth value;
  let intf : dict :=
    <["type" := opt_str (parse_type value)]>
      (<["operstatus" := opt_str (parse_operstatus value)]>
         (<["lineprotocol" := opt_str (parse_lineprotocol value)]>
            (<["duplex" := opt_str (parse_duplex value)]>
               (<["mediatype" := opt_str (parse_mediatype value)]>
                  (<["bandwidth" := bandwidth]>
                     (<["mtu" := mtu]>
                        (<["macaddress" := opt_str (parse_macaddress value)]>
                           (<["description" := opt_str (parse_description value)]> ∅)))))))) in
  Ok (<[key := intf]> facts).

Definition populate_interfaces (interfaces : ODict.t string) : result (gmap string dict) :=
  for_each populate_interfaces_item interfaces ∅.

Definition parse_deleted_status (interface value : string) (st : facts) : result facts :=
  let status := parse_operstatus value in
  if bool_decide (status = Some "deleted") then
    i ← get_interfaces st;
    rec ← getitem i interface;
    Ok (set_interfaces (<[interface := <["operstatus" := VStr "deleted"]> rec]> i) st)
  else Ok st.

(** The [try] / [except KeyError] that opens the loop body of both address
    passes: the list under [family] is reset in the record of [key]; when the
    record (or the whole [interfaces] entry) is missing, the handler creates
    the record, and a missing [interfaces] entry raises again from there. *)
Definition reset_or_create (family key value : string) (st : facts) : result facts :=
  match interfaces st with
  | Some i =>
      match i !! key with
      | Some rec => Ok (set_interfaces (<[key := <[family := VList []]> rec]> i) st)
      | None =>
          let i := <[key := (∅ : dict)]> i in
          let i := <[key := <[family := VList []]> (∅ : dict)]> i in
          parse_deleted_status key value (set_interfaces i st)
      end
  | None => Raise KeyError
  end.

(** [self.facts["interfaces"][key][family].append(entry)] *)
Definition append_entry (family key : string) (entry : dict) (st : facts) : result facts :=
  i ← get_interfaces st;
  rec ← getitem i key;
  l ← getitem rec family;
  match l with
  | VList l => Ok (set_interfaces (<[key := <[family := VList (l ++ [VDict entry])]> rec]> i) st)
  | _ => Raise AttributeError
  end.

Definition ip_entry (addr subnet : string) : dict :=
  <["subnet" := VStr (strip subnet)]> (<["address" := VStr (strip addr)]> ∅).

(** [r"Internet address is (.+)$"] and [r"Secondary address (.+)$"], [re.M] *)
Definition primary_re : regex := cat [lit "Internet address is "; Group 1 (Plus ADot); Eol].
Definition secondary_re : regex := cat [lit "Secondary address "; Group 1 (Plus ADot); Eol].

Definition ipv4_address (key address : string) (st : facts) : result facts :=
  match split "/" address with
  | [addr; subnet] =>
      let st := add_ip_address (strip addr) "ipv4" st in
      append_entry "ipv4" key (ip_entry addr subnet) st
  | _ => Raise ValueError
  end.

Definition populate_ipv4_item (kv : string * string) (st : facts) : result facts :=
  let '(key, value) := kv in
  st ← reset_or_create "ipv4" key value st;
  let primary_address := re_findall M primary_re value in
  let addresses := re_findall M secondary_re value in
  match primary_address with
  | [] => Ok st                                               (* continue *)
  | p :: _ => for_each (ipv4_address key) (addresses ++ [p]) st
  end.

Definition populate_ipv4_interfaces (data : ODict.t string) (st : facts) : result facts :=
  for_each populate_ipv4_item data st.

(** [r"\s+(.+), subnet"] and [r", subnet is (.+)$"], [re.M] *)
Definition ipv6_address_re : regex := cat [Plus space; Group 1 (Plus ADot); lit ", subnet"].
Definition ipv6_subnet_re : regex := cat [lit ", subnet is "; Group 1 (Plus ADot); Eol].

Definition ipv6_address (key : string) (pair : string * string) (st : facts)
    : result facts :=
  let '(addr, subnet) := pair in
  let st := add_ip_address (strip addr) "ipv6" st in
  append_entry "ipv6" key (ip_entry addr subnet) st.

Definition populate_ipv6_item (kv : string * string) (st : facts) : result facts :=
  let '(key, value) := kv in
  st ← reset_or_create "ipv6" key value st;
  let addresses := re_findall M ipv6_address_re value in
  let subnets := re_findall M ipv6_subnet_re value in
  (* [zip]: pairs by position, as long as the shorter list *)
  for_each (ipv6_address key) (zip addresses subnets) st.

Definition populate_ipv6_interfaces (data : ODict.t string) (st : facts) : result facts :=
  for_each populate_ipv6_item data st.

(** *** Neighbors *)

Section Neighbors.

(** [normalize_interface] of the collection's [ios] module: the canonical
    spelling of an interface name. *)
Variable normalize_interface : string -> string.

Definition lldp_separator : string := "------------------------------------------------".
Definition cdp_separator : string := "-------------------------".

Definition lldp_fact (entry : string) : dict :=
  <["ip" := opt_str (parse_lldp_ip entry)]>
    (<["port" := opt_str (parse_lldp_port entry)]>
       (<["host" := opt_str (parse_lldp_host entry)]> ∅)).

(** The loop of [parse_neighbors] over the segments: an empty segment is
    passed over, a segment without local interface returns what was collected
    before it. *)
Fixpoint neighbors_loop (entries : list string) (facts : gmap string (list dict))
    : gmap string (list dict) :=
  match entries with
  | [] => facts
  | entry :: entries' =>
      if bool_decide (entry = EmptyString) then neighbors_loop entries' facts
      else
        match parse_lldp_intf entry with
        | None => facts
        | Some intf =>
            let intf := normalize_interface intf in
            let l := default [] (facts !! intf) in
            neighbors_loop entries' (<[intf := l ++ [lldp_fact entry]]> facts)
        end
  end.

Definition parse_neighbors (neighbors : string) : gmap string (list dict) :=
  neighbors_loop (split lldp_separator neighbors) ∅.

Definition cdp_fact (entry port : string) : dict :=
  <["ip" := opt_str (parse_cdp_ip entry)]>
    (<["port" := VStr port]>
       (<["platform" := opt_str (parse_cdp_platform entry)]>
          (<["host" := opt_str (parse_cdp_host entry)]> ∅))).

Fixpoint cdp_neighbors_loop (entries : list string) (facts : gmap string (list dict))
    : gmap string (list dict) :=
  match entries with
  | [] => facts
  | entry :: entries' =>
      if bool_decide (entry = EmptyString) then cdp_neighbors_loop entries' facts
      else
        match parse_cdp_intf_port entry with
        | None => facts
        | Some (intf, port) =>
            let l := default [] (facts !! intf) in
            cdp_neighbors_loop entries' (<[intf := l ++ [cdp_fact entry port]]> facts)
        end
  end.

Definition parse_cdp_neighbors (neighbors : string) : gmap string (list dict) :=
  cdp_neighbors_loop (split cdp_separator neighbors) ∅.

Definition lldp_errs : list string := ["Invalid input"; "LLDP is not enabled"].
Definition cdp_errs : list string := ["CDP is not enabled"].

Definition no_err (errs : list string) (data : string) : bool :=
  truthy data && negb (existsb (fun err => contains err data) errs).

(** [responses] holds the answers to [show interfaces], [show ip interface],
    [show ipv6 interface], [show lldp] and [show cdp], in this order;
    [lldp_detail] and [cdp_detail] are what the command runner answers to
    [show lldp neighbors detail] and [show cdp neighbors detail]. *)
Definition populate (show_interfaces show_ip show_ipv6 show_lldp show_cdp : string)
    (lldp_detail cdp_detail : list string) : result facts :=
  let st := {| all_ipv4_addresses := []; all_ipv6_addresses := [];
               neighbors := ∅; interfaces := None |} in
  st ← (if truthy show_interfaces then
          blocks ← parse_interfaces show_interfaces;
          i ← populate_interfaces blocks;
          Ok (set_interfaces i st)
        else Ok st);
  st ← (if truthy show_ip then
          data ← parse_interfaces show_ip;
          populate_ipv4_interfaces data st
        else Ok st);
  st ← (if truthy show_ipv6 then
          data ← parse_interfaces show_ipv6;
          populate_ipv6_interfaces data st
        else Ok st);
  let st :=
    if no_err lldp_errs show_lldp then
      match lldp_detail with
      | n :: _ => set_neighbors (parse_neighbors n ∪ neighbors st) st
      | [] => st
      end
    else st in
  Ok (if no_err cdp_errs show_cdp then
        match cdp_detail with
        | n :: _ => set_neighbors (parse_cdp_neighbors n ∪ neighbors st) st
        | [] => st
        end
      else st).

End Neighbors.

End Interfaces.

(** ** Declarative reading of the matcher *)

Module ReSpec.

Import Py Re.

(** [run fl a cur cur']: [cur'] is reached from [cur] by passing over
    characters that the atom [a] accepts. *)
Inductive run (fl : flags) (a : atom) : cursor -> cursor -> Prop :=
  | run_nil cur : run fl a cur cur
  | run_cons bef c s cur' :
      atom_ok fl a c = true ->
      run fl a (advance c s) cur' ->
      run fl a {| before := bef; rest := String c s |} cur'.

(** [matches fl r cur cs cur' cs']: the pattern [r] can match from [cur] to
    [cur'], turning the groups [cs] into [cs']. *)
Inductive matches (fl : flags) : regex -> cursor -> caps -> cursor -> caps -> Prop :=
  | m_eps cur cs : matches fl Eps cur cs cur cs
  | m_one a bef c s cs :
      atom_ok fl a c = true ->
      matches fl (One a) {| before := bef; rest := String c s |} cs (advance c s) cs
  | m_star a cur cs cur' :
      run fl a cur cur' -> matches fl (Star a) cur cs cur' cs
  | m_plus a bef c s cs cur' :
      atom_ok fl a c = true ->
      run fl a (advance c s) cur' ->
      matches fl (Plus a) {| before := bef; rest := String c s |} cs cur' cs
  | m_lazy a cur cs cur' :
      run fl a cur cur' -> matches fl (LazyStar a) cur cs cur' cs
  | m_opt_some r cur cs cur' cs' :
      matches fl r cur cs cur' cs' -> matches fl (Opt r) cur cs cur' cs'
  | m_opt_none r cur cs : matches fl (Opt r) cur cs cur cs
  | m_seq r1 r2 cur cs cur1 cs1 cur2 cs2 :
      matches fl r1 cur cs cur1 cs1 ->
      matches fl r2 cur1 cs1 cur2 cs2 ->
      matches fl (Seq r1 r2) cur cs cur2 cs2
  | m_alt_l r1 r2 cur cs cur' cs' :
      matches fl r1 cur cs cur' cs' -> matches fl (Alt r1 r2) cur cs cur' cs'
  | m_alt_r r1 r2 cur cs cur' cs' :
      matches fl r2 cur cs cur' cs' -> matches fl (Alt r1 r2) cur cs cur' cs'
  | m_group n r cur cs cur' cs' :
      matches fl r cur cs cur' cs' ->
      matches fl (Group n r) cur cs cur'
        ((n, take (match_len cur cur') (rest cur)) :: cs')
  | m_bol cur cs : bol_ok fl cur = true -> matches fl Bol cur cs cur cs
  | m_eol cur cs : eol_ok fl cur = true -> matches fl Eol cur cs cur cs.

(** Every character of [s] satisfies [p]. *)
Fixpoint all_chars (p : ascii -> bool) (s : string) : bool :=
  match s with
  | EmptyString => true
  | String c s' => p c && all_chars p s'
  end.

(** In [r], every group numbered [g] has the form [(p+)] for the class [p]. *)
Fixpoint class_group (p : ascii -> bool) (g : nat) (r : regex) : Prop :=
  match r with
  | Group n r1 => (n = g -> r1 = Plus (AClass p)) /\ class_group p g r1
  | Seq r1 r2 | Alt r1 r2 => class_group p g r1 /\ class_group p g r2
  | Opt r1 => class_group p g r1
  | _ => True
  end.

(** Whatever group [g] holds is a non-empty run of characters of [p]. *)
Definition caps_in (p : ascii -> bool) (g : nat) (cs : caps) : Prop :=
  forall s, group g cs = Some s -> s <> EmptyString /\ all_chars p s = true.

(** A match of [r] sets group [g] whichever way it goes. *)
Fixpoint mandatory (g : nat) (r : regex) : Prop :=
  match r with
  | Group n r1 => n = g \/ mandatory g r1
  | Seq r1 r2 => mandatory g r1 \/ mandatory g r2
  | Alt r1 r2 => mandatory g r1 /\ mandatory g r2
  | _ => False
  end.

(** The character before the position reached after passing over [w]. *)
Fixpoint last_before (bef : option ascii) (w : string) : option ascii :=
  match w with
  | EmptyString => bef
  | String c w' => last_before (Some c) w'
  end.

(** [post] does not go on with a character that [p] accepts. *)
Definition stops (p : ascii -> bool) (post : string) : Prop :=
  match post with
  | EmptyString => True
  | String d _ => p d = false
  end.

End ReSpec.

(** ** Inputs and readings of the specification used in the statements *)

Module Samples.

Import Py.

(** A [show memory statistics] line with a total of 1048577 bytes. *)
Definition memory_line_1048577 : string :=
  "Processor  7F2A1234   1048577   500000   2097152".

(** The specification's reading of the conversions: truncating division. *)
Definition truncating_mb (bytes : Z) : Z := (bytes / 1048576)%Z.
Definition truncating_kb (bytes : Z) : Z := (bytes / 1024)%Z.

(** A [dir] listing of one file system. *)
Definition dir_flash : string :=
  "Directory of flash:/" +:+ LF +:+ LF +:+
  "    1  -rw-        1025  Jan 1 2020 00:00:00 +00:00  notes.txt" +:+ LF +:+ LF +:+
  "7897796608 bytes total (1025 bytes free)".

(** A line that the CPU utilization pattern accepts although it carries no
    percentage at all. *)
Definition cpu_line_without_numbers : string :=
  "CPU utilization for five seconds:; one minute: %; five minutes: %".

(** The [show version] text of the round-trip scenario. *)
Definition version_text : string :=
  "board ID FXS12345" +:+ LF +:+
  "System Serial Number : ABC999" +:+ LF +:+
  "Model Number : WS-C123".

Definition sample_capabilities : Default.capabilities :=
  {| Default.device_info := <["network_os" := "ios"]> ∅;
     Default.network_api := "cliconf" |}.

(** Two mode lines, the first of a controller-managed device. *)
Definition two_mode_lines : string :=
  "Router operating mode: Controller-Managed" +:+ LF +:+
  "Router operating mode: Autonomous".

(** The specification's reading of [operatingmode]: some line of the text
    matches the mode pattern with a word that contains [autonomous]. *)
Definition line_reports_autonomous (line : string) : bool :=
  match Re.re_search Re.NOFLAG Default.operatingmode_re line with
  | Some m => contains "autonomous" (lower (Re.group1 m))
  | None => false
  end.

Definition spec_operatingmode (data iostype : string) : string :=
  if existsb line_reports_autonomous (split LF data) || bool_decide (iostype = "IOS")
  then "autonomous"
  else "controller".

(** A running configuration that begins with the banner of the device. *)
Definition banner : string :=
  "Building configuration..." +:+ LF +:+ LF +:+
  "Current configuration : 1234 bytes" +:+ LF.

Definition config_body : string :=
  "!" +:+ LF +:+ "hostname R1" +:+ LF +:+ LF +:+ "interface Gi0/1" +:+ LF.

(** A text shaped like the pattern literal in the source: a line feed and the
    sixteen blanks of the source indentation before the dots. *)
Definition banner_as_written : string :=
  "Building configuration" +:+ LF +:+ "                ..." +:+ LF +:+
  "Current configuration : 1234 bytes" +:+ LF.

(** The two-line input of the block parser scenario, and the block the
    specification expects for it. *)
Definition two_line_block : string := "Gi0/1 line one" +:+ LF +:+ "  continuation".
Definition spec_block : string := "Gi0/1 line one" +:+ LF +:+ "continuation".

(** An error answer whose first line is the indented caret marker. *)
Definition invalid_input_text : string :=
  "                 ^" +:+ LF +:+ "% Invalid input detected at '^' marker." +:+ LF.

(** A [show ip interface] block. *)
Definition ip_block_vlan1 : string :=
  "Vlan1 is up, line protocol is up" +:+ LF +:+
  "  Internet address is 10.0.0.1/24".

(** Three LLDP segments; the second has no [Local Intf:] line. *)
Definition lldp_seg1 : string :=
  "Local Intf: Gi0/1" +:+ LF +:+ "Port id: Gi1/0/1" +:+ LF +:+
  "System Name: sw1" +:+ LF.
Definition lldp_seg2 : string :=
  LF +:+ "Chassis id: 0011.2233.4455" +:+ LF +:+ "System Name: sw2" +:+ LF.
Definition lldp_seg3 : string :=
  LF +:+ "Local Intf: Gi0/3" +:+ LF +:+ "Port id: Gi1/0/3" +:+ LF +:+
  "System Name: sw3" +:+ LF.

Definition lldp_three_segments : string :=
  lldp_seg1 +:+ Interfaces.lldp_separator +:+ lldp_seg2 +:+
  Interfaces.lldp_separator +:+ lldp_seg3.

(** The same text with nothing between the two separators. *)
Definition lldp_empty_middle : string :=
  lldp_seg1 +:+ Interfaces.lldp_separator +:+ Interfaces.lldp_separator +:+ lldp_seg3.

(** A [show ipv6 interface] block: two address lines, then two subnet
    lines. *)
Definition ipv6_block : string :=
  "Vlan10 is up, line protocol is up" +:+ LF +:+
  "  2001:DB8::1, subnet" +:+ LF +:+
  "  2001:DB8::2, subnet" +:+ LF +:+
  "  , subnet is 2001:DB8:A::/64" +:+ LF +:+
  "  , subnet is 2001:DB8:B::/64".

(** The same four lines with address and subnet lines taking turns. *)
Definition ipv6_block_interleaved : string :=
  "Vlan10 is up, line protocol is up" +:+ LF +:+
  "  2001:DB8::1, subnet" +:+ LF +:+
  "  , subnet is 2001:DB8:A::/64" +:+ LF +:+
  "  2001:DB8::2, subnet" +:+ LF +:+
  "  , subnet is 2001:DB8:B::/64".

(** Two address lines and two subnet lines taking turns, the subnet lines
    indented by one blank: read alone, such a line is no match of the address
    pattern. *)
Definition ipv6_block_taking_turns : string :=
  "Vlan10 is up, line protocol is up" +:+ LF +:+
  "  2001:DB8::1, subnet" +:+ LF +:+
  " , subnet is 2001:DB8:A::/64" +:+ LF +:+
  "  2001:DB8::2, subnet" +:+ LF +:+
  " , subnet is 2001:DB8:B::/64".

(** The specification's reading of the pairing, by lines: the lines that the
    address pattern matches, in order, against the lines that the subnet
    pattern matches, in order. *)
Definition spec_ipv6_pairs (block : string) : list (string * string) :=
  let lines := split LF block in
  zip (omap (Interfaces.search1 M Interfaces.ipv6_address_re) lines)
      (omap (Interfaces.search1 M Interfaces.ipv6_subnet_re) lines).

(** Address blocks of an interface that [show interfaces] did not list. *)
Definition ip_block_deleted : string :=
  "Vlan5 is deleted, line protocol is down" +:+ LF +:+
  "  Internet address is 10.0.5.1/24".

Definition ipv6_block_deleted : string :=
  "Vlan5 is deleted, line protocol is down" +:+ LF +:+
  "  2001:DB8:5::1, subnet is 2001:DB8:5::/64".

(** A [show ip interface] block of the same interface that reports it up. *)
Definition ip_block_up : string :=
  "Vlan5 is up, line protocol is up" +:+ LF +:+
  "  Internet address is 10.0.5.1/24".

(** A [show interfaces] answer that does not list it. *)
Definition interfaces_vlan1 : string :=
  "Vlan1 is up, line protocol is up" +:+ LF +:+
  "  MTU 1500 bytes, BW 1000000 Kbit/sec, DLY 10 usec".

(** The specification's reading of the back-fill: the status of a record that
    the address passes created is [deleted] exactly when a block of its name,
    in one of the two address answers, says so. *)
Definition spec_operstatus (answers : list (ODict.t string)) (name : string)
    : option value :=
  if existsb
       (fun blocks =>
          bool_decide (ODict.get blocks name ≫= Interfaces.parse_operstatus
                       = Some "deleted"))
       answers
  then Some (VStr "deleted")
  else None.

(** The facts after a primary parse that found the single interface
    [Vlan1]. *)
Definition facts_with_vlan1 : Interfaces.facts :=
  {| Interfaces.all_ipv4_addresses := [];
     Interfaces.all_ipv6_addresses := [];
     Interfaces.neighbors := ∅;
     Interfaces.interfaces := Some (<["Vlan1" := (∅ : dict)]> ∅) |}.

End Samples.

(** ** Shapes of the records that the address passes build *)

Module Shapes.

Import Py Interfaces.

(** The entries of an address list, in order. *)
Definition entries (pairs : list (string * string)) : list value :=
  (fun p => VDict (ip_entry (fst p) (snd p))) <$> pairs.

(** The record that an address pass creates for an interface it does not
    find: the empty list under [family], and [operstatus] when the block says
    [deleted]. *)
Definition created_record (family value : string) : dict :=
  if bool_decide (parse_operstatus value = Some "deleted")
  then <["operstatus" := VStr "deleted"]> (<[family := VList []]> ∅)
  else <[family := VList []]> ∅.

(** A record of the shape of [created_record], whatever its address list
    holds by now. *)
Definition lazily_created (family value : string) (rec : dict) : Prop :=
  rec !! "operstatus" =
    (if bool_decide (parse_operstatus value = Some "deleted")
     then Some (VStr "deleted") else None)
  /\ is_Some (rec !! family)
  /\ forall k, k <> family -> k <> "operstatus" -> rec !! k = None.

(** The record an address pass starts from for [key]: the one it finds, or
    the one it creates. *)
Definition base_record (family : string) (i : gmap string dict) (key value : string)
    : dict :=
  match i !! key with
  | Some rec => rec
  | None => created_record family value
  end.

End Shapes.

(** Closes the side conditions [class_group] and [mandatory] of a concrete
    pattern. *)
Ltac solve_group_shape :=
  cbn; repeat split; intros; first [reflexivity | discriminate | lia | tauto | auto].

(** ** Readings used in the further properties *)

Module Readings.

Import Py Re Interfaces.

(** How the block parser treats a line: it passes over an empty line and over
    a line that opens with white space other than a blank, it appends a line
    that opens with a blank to the current block, and any other line opens a
    block. *)
Inductive line_kind := Ignored | Continuation | KeyLine.

Definition kind_of (line : string) : line_kind :=
  match line with
  | EmptyString => Ignored
  | String c _ =>
      if ascii_eqb c " " then Continuation
      else if isspace c then Ignored
      else KeyLine
  end.

(** A continuation line stands before the first line that opens a block. *)
Fixpoint continuation_before_key (lines : list string) : bool :=
  match lines with
  | [] => false
  | line :: lines' =>
      match kind_of line with
      | Ignored => continuation_before_key lines'
      | Continuation => true
      | KeyLine => false
      end
  end.

(** What a well-formed block looks like: its key is not empty, has no white
    space in it, and opens the text of the block. *)
Definition block_ok (kv : string * string) : Prop :=
  fst kv <> EmptyString
  /\ ReSpec.all_chars (fun c => negb (isspace c)) (fst kv) = true
  /\ is_Some (starts_with (fst kv) (snd kv)).

(** The pattern [^(\S+)] with which the block parser reads a key. *)
Definition key_re : regex := cat [Bol; Group 1 (Plus nonspace)].

(** The state of the block parser's loop is sound: the keys are distinct, the
    blocks are well formed, and the current key has a block unless nothing was
    parsed. *)
Definition loop_ok (st : string * ODict.t string) : Prop :=
  NoDup (ODict.keys (snd st)) /\ Forall block_ok (snd st)
  /\ (snd st = [] \/ is_Some (ODict.get (snd st) (fst st))).

(** The attributes of an interface record, in the order [populate_interfaces]
    stores them. *)
Definition interface_attributes : list string :=
  ["description"; "macaddress"; "mtu"; "bandwidth"; "mediatype"; "duplex";
   "lineprotocol"; "operstatus"; "type"].

(** An attribute that is present and holds [None] or a text. *)
Definition text_or_none (v : option value) : Prop :=
  exists o : option string, v = Some (opt_str o).

(** An attribute that is present and holds [None] or a number that is not
    negative. *)
Definition count_or_none (v : option value) : Prop :=
  v = Some VNone \/ exists z, v = Some (VInt z) /\ (0 <= z)%Z.

(** The shape of a record of [populate_interfaces]. *)
Definition interface_record (rec : dict) : Prop :=
  (forall k, is_Some (rec !! k) <-> k ∈ interface_attributes)
  /\ count_or_none (rec !! "mtu") /\ count_or_none (rec !! "bandwidth")
  /\ (forall k, k ∈ interface_attributes -> k <> "mtu" -> k <> "bandwidth" ->
       text_or_none (rec !! k)).

(** [addr, subnet = address.split("/")]: the two parts, when there are
    exactly two. *)
Definition split_address (address : string) : option (string * string) :=
  match split "/" address with
  | [addr; subnet] => Some (addr, subnet)
  | _ => None
  end.

(** The addresses that the IPv4 pass stores for a block: none without a
    primary address, else the secondary addresses and then the first primary
    address. *)
Definition ipv4_addresses (value : string) : list string :=
  match re_findall M primary_re value with
  | [] => []
  | p :: _ => re_findall M secondary_re value ++ [p]
  end.

(** The pairs that the IPv6 pass stores for a block. *)
Definition ipv6_pairs (value : string) : list (string * string) :=
  zip (re_findall M ipv6_address_re value) (re_findall M ipv6_subnet_re value).

(** The addresses of a list of pairs, as the flat lists hold them. *)
Definition flat (pairs : list (string * string)) : list string :=
  (fun p => strip (fst p)) <$> pairs.

(** What an address pass over the blocks [keys] leaves of the interfaces [i]:
    the names are those of [i] and [keys], and a record that was there keeps
    every attribute other than the address list of the family. *)
Definition frame (family : string) (i i' : gmap string dict) (keys : list string)
    : Prop :=
  (forall name, is_Some (i' !! name) <-> is_Some (i !! name) \/ name ∈ keys)
  /\ (forall name rec, i !! name = Some rec ->
        exists rec', i' !! name = Some rec'
                     /\ forall k, k <> family -> rec' !! k = rec !! k).

(** The segments that the loop of [parse_neighbors] reads, each with its
    local interface: the empty ones are passed over, and the first one without
    local interface ends the list. *)
Fixpoint lldp_kept (entries : list string) : list (string * string) :=
  match entries with
  | [] => []
  | entry :: entries' =>
      if bool_decide (entry = EmptyString) then lldp_kept entries'
      else
        match parse_lldp_intf entry with
        | None => []
        | Some intf => (intf, entry) :: lldp_kept entries'
        end
  end.

(** The same for [parse_cdp_neighbors]: each segment with its interface and
    its port. *)
Fixpoint cdp_kept (entries : list string) : list (string * (string * string)) :=
  match entries with
  | [] => []
  | entry :: entries' =>
      if bool_decide (entry = EmptyString) then cdp_kept entries'
      else
        match parse_cdp_intf_port entry with
        | None => []
        | Some (intf, port) => (intf, (entry, port)) :: cdp_kept entries'
        end
  end.

(** The records of [name] among the segments, in order of appearance. *)
Definition records_of {A} (name : string) (fact : A -> dict) (kept : list (string * A))
    : list dict :=
  (fun p => fact (snd p)) <$> filter (fun p => fst p = name) kept.

(** A list as a dictionary entry: no entry for the empty list. *)
Definition listed (l : list dict) : option (list dict) :=
  match l with [] => None | _ => Some l end.

(** What one protocol contributes to [neighbors]: the parse of the first
    answer of the detail command, when the answer to the status command is not
    empty and has none of the error texts. *)
Definition answered (errs : list string) (status : string) (detail : list string)
    (parse : string -> gmap string (list dict)) : gmap string (list dict) :=
  if no_err errs status
  then match detail with n :: _ => parse n | [] => ∅ end
  else ∅.

(** What the device reports for [item]: the value under [network_os_] and
    the item's name, when there is one and it is not empty. *)
Definition reported (resp : Default.capabilities) (item : string) : option value :=
  match Default.device_info resp !! ("network_os_" +:+ item) with
  | Some val => if truthy val then Some (VStr val) else None
  | None => None
  end.

(** The answers about the virtual switch are read: they are not empty and
    have none of the two error texts. *)
Definition vss_read (data : string) : bool :=
  truthy data && negb (existsb (fun err => contains err data) Default.vss_errs).

(** Of the lines that one of the two patterns of [parse_filesystems_info]
    matches, the first one is a [bytes total] line. *)
Fixpoint space_before_directory (lines : list string) : bool :=
  match lines with
  | [] => false
  | line :: lines' =>
      match re_match NOFLAG Hardware.directory_re line with
      | Some _ => false
      | None =>
          match re_match NOFLAG Hardware.space_re line with
          | Some _ => true
          | None => space_before_directory lines'
          end
      end
  end.

(** The record of a file system: empty, or the two sizes. *)
Definition space_record (rec : dict) : Prop :=
  rec = ∅
  \/ exists t f,
       rec = <["spacefree_kb" := VFloat f]> (<["spacetotal_kb" := VFloat t]> ∅).

(** [sep.join(l)] *)
Fixpoint join (sep : string) (l : list string) : string :=
  match l with
  | [] => EmptyString
  | x :: l' =>
      match l' with
      | [] => x
      | _ => x +:+ sep +:+ join sep l'
      end
  end.

(** The key that a line opens a block with, if it opens one. *)
Definition key_of (line : string) : option string :=
  group1 <$> re_match NOFLAG key_re line.

(** The state of the block parser after the lines [ls], none of them ignored
    and no key among them twice: the blocks hold the lines read, in order, and
    the block of the current key is the last one. *)
Definition reads (ls : list string) (st : string * ODict.t string) : Prop :=
  ODict.keys (snd st) = omap key_of ls
  /\ join LF (snd <$> snd st) = join LF ls
  /\ (ls = [] \/ exists parsed0 block, snd st = parsed0 ++ [(fst st, block)]).

(** An atom that takes no line feed and does not depend on the flags. *)
Definition line_atom (a : atom) : Prop :=
  match a with
  | AChar d => ascii_eqb d (chr 10) = false
  | ADot => False
  | AClass p => p (chr 10) = false
  end.

(** A pattern that matches inside one line and looks at nothing else: no
    anchor, and no atom that takes a line feed. *)
Fixpoint line_local (r : regex) : Prop :=
  match r with
  | Eps => True
  | One a | Star a | Plus a | LazyStar a => line_atom a
  | Opt r1 | Group _ r1 => line_local r1
  | Seq r1 r2 | Alt r1 r2 => line_local r1 /\ line_local r2
  | Bol | Eol => False
  end.

(** What follows a line in a text: nothing, or a line feed and more. *)
Definition line_end (post : string) : Prop :=
  match post with
  | EmptyString => True
  | String c _ => c = chr 10
  end.

(** Two continuations of the matcher agree when one is given the text up to
    its end and the other the line alone. *)
Definition agree {R} (post : string) (k k' : cursor -> option R) : Prop :=
  forall b b' s2,
    k {| before := b; rest := s2 +:+ post |} = k' {| before := b'; rest := s2 |}.

(** In [r], whatever a group numbered [g] matches satisfies [P]. *)
Fixpoint shaped (fl : flags) (P : string -> Prop) (g : nat) (r : regex) : Prop :=
  match r with
  | Group n r1 =>
      (n = g ->
       forall cur cs cur' cs',
         ReSpec.matches fl r1 cur cs cur' cs' ->
         P (take (match_len cur cur') (rest cur)))
      /\ shaped fl P g r1
  | Seq r1 r2 | Alt r1 r2 => shaped fl P g r1 /\ shaped fl P g r2
  | Opt r1 => shaped fl P g r1
  | _ => True
  end.

(** Whatever group [g] holds satisfies [P]. *)
Definition group_holds (P : string -> Prop) (g : nat) (cs : caps) : Prop :=
  forall s, group g cs = Some s -> P s.

(** The figure that a block holds after [prefix], the one that [parse_mtu]
    and [parse_bandwidth] hand to [int], is a text that [int] takes. *)
Definition figure_within_limit (prefix data : string) : Prop :=
  forall m,
    re_search NOFLAG (cat [lit prefix; Group 1 (Plus digit)]) data = Some m ->
    Builtins.within_limit (group 1 m).

Definition block_figures_within_limit (value : string) : Prop :=
  figure_within_limit "MTU " value /\ figure_within_limit "BW " value.

(** The figures of a CPU line that [parse_cpu_utilization] hands to [int]. *)
Definition cpu_figures_within_limit (line : string) : Prop :=
  forall m,
    re_match NOFLAG Hardware.regex_cpu_utilization line = Some m ->
    Forall (fun g => Builtins.within_limit (group g m))
      [Hardware.g_f_sec; Hardware.g_f_se_nom; Hardware.g_f_s_denom;
       Hardware.g_a_min; Hardware.g_f_min].

(** The two figures of a [bytes total] line. *)
Definition space_figures_within_limit (line : string) : Prop :=
  forall m,
    re_match NOFLAG Hardware.space_re line = Some m ->
    Builtins.within_limit (group 1 m) /\ Builtins.within_limit (group 2 m).

(** A pattern that, under the flags [fl], matches inside one line and looks
    at nothing else: no anchor, and no atom that takes a line feed. *)
Fixpoint within_line (fl : flags) (r : regex) : Prop :=
  match r with
  | Eps => True
  | One a | Star a | Plus a | LazyStar a => atom_ok fl a (chr 10) = false
  | Opt r1 | Group _ r1 => within_line fl r1
  | Seq r1 r2 | Alt r1 r2 => within_line fl r1 /\ within_line fl r2
  | Bol | Eol => False
  end.

(** The status pattern after its anchor and its first run of characters. *)
Definition operstatus_tail : regex :=
  cat [lit " is "; Group 1 (Plus ADot); lit ","].

(** What follows the name in the status line of an interface that the device
    reports as deleted, and of one that is up. *)
Definition says_deleted : string := " is deleted, line protocol is down".
Definition says_up : string := " is up, line protocol is up".

(** In the facts [st] the record of [key] has the status [status] ([None]:
    it has none). *)
Definition status_after (st : facts) (key : string) (status : option value) : Prop :=
  exists i rec,
    interfaces st = Some i /\ i !! key = Some rec /\ rec !! "operstatus" = status.

(** The text opens with white space. *)
Definition opens_with_space (s : string) : bool :=
  match s with
  | EmptyString => false
  | String c _ => isspace c
  end.

(** A text without line feed. *)
Definition no_line_feed (s : string) : Prop :=
  ReSpec.all_chars (fun c => negb (is_newline c)) s = true.

(** What [findall] finds from the end of a line on: nothing at the end of the
    text, else what it finds from the next line on. *)
Definition next_lines (r : regex) (post : string) : list string :=
  match post with
  | EmptyString => []
  | String c more => findall_from M r (Some c) more 0
  end.

(** The group that a pattern local to a line captures at the start of a
    line. *)
Definition line_group (body : regex) (line : string) : option string :=
  (fun m => group1 (fst m)) <$> match_at NOFLAG body (at_start line).

(** The [Directory of] pattern after its anchor. *)
Definition directory_body : regex :=
  cat [lit "Directory of "; Group 1 (Plus nonspace); lit "/"].

(** The name that a [Directory of] line gives, as [parse_filesystems_info]
    reads it. *)
Definition directory_name (line : string) : option string :=
  group1 <$> re_match NOFLAG Hardware.directory_re line.

End Readings.

(** ** Further inputs *)

Module Inputs.

Import Py.

(** A [show ip interface] block with two secondary addresses and a primary
    one. *)
Definition ip_block_secondary : string :=
  "Vlan1 is up, line protocol is up" +:+ LF +:+
  "  Internet address is 10.0.0.1/24" +:+ LF +:+
  "  Secondary address 10.0.1.1/24" +:+ LF +:+
  "  Secondary address 10.0.2.1/24".

(** A [show interfaces] block. *)
Definition interface_block : string :=
  "Vlan1 is up, line protocol is up" +:+ LF +:+
  "  Hardware is EtherSVI, address is 0011.2233.4455 (bia 0011.2233.4455)" +:+ LF +:+
  "  MTU 1500 bytes, BW 1000000 Kbit/sec, DLY 10 usec".

(** A line of [show processes cpu] with its four figures, and the groups
    that the CPU pattern reads from it. *)
Definition cpu_line : string :=
  "CPU utilization for five seconds: 5%/1%; one minute: 6%; five minutes: 7%".

Definition cpu_line_groups : Re.caps :=
  default [] (Re.re_match Re.NOFLAG Hardware.regex_cpu_utilization cpu_line).

End Inputs.

(** * Properties *)

Module ReFacts.
Import Py Re ReSpec.

Lemma star_greedy_sound {R} fl a s bef (k : cursor -> option R) res :
  star_greedy fl a bef s k = Some res ->
  exists cur', run fl a {| before := bef; rest := s |} cur' /\ k cur' = Some res.
Proof.
  revert bef. induction s as [|c s IH]; intros bef H; simpl in H.
  - eexists; split; [apply run_nil | exact H].
  - destruct (atom_ok fl a c) eqn:Hc.
    + unfold try_ in H. destruct (star_greedy fl a (Some c) s k) eqn:Hg.
      * inversion H; subst. apply IH in Hg as (cur' & Hr & Hk).
        exists cur'. split; [|exact Hk]. by apply run_cons.
      * eexists; split; [apply run_nil | exact H].
    + eexists; split; [apply run_nil | exact H].
Qed.

Lemma star_lazy_sound {R} fl a s bef (k : cursor -> option R) res :
  star_lazy fl a bef s k = Some res ->
  exists cur', run fl a {| before := bef; rest := s |} cur' /\ k cur' = Some res.
Proof.
  revert bef. induction s as [|c s IH]; intros bef H; simpl in H; unfold try_ in H.
  - destruct (k _) eqn:Hk; [|discriminate].
    eexists; split; [apply run_nil | by rewrite Hk].
  - destruct (k _) eqn:Hk.
    + eexists; split; [apply run_nil | by rewrite Hk].
    + destruct (atom_ok fl a c) eqn:Hc; [|discriminate].
      apply IH in H as (cur' & Hr & Hk'). exists cur'. split; [|exact Hk'].
      by apply run_cons.
Qed.

(** The matcher only reports matches of the pattern. *)
Lemma rmatch_sound {R} fl r : forall cur cs (k : cursor -> caps -> option R) res,
  rmatch fl r cur cs k = Some res ->
  exists cur' cs', matches fl r cur cs cur' cs' /\ k cur' cs' = Some res.
Proof.
  induction r; intros cur cs k res H; simpl in H.
  - eauto using m_eps.
  - destruct cur as [bef [|c s]]; simpl in H; [discriminate|].
    destruct (atom_ok fl a c) eqn:Hc; [|discriminate].
    eauto using m_one.
  - destruct cur as [bef s]; simpl in H.
    apply star_greedy_sound in H as (cur' & Hr & Hk). eauto using m_star.
  - destruct cur as [bef [|c s]]; simpl in H; [discriminate|].
    destruct (atom_ok fl a c) eqn:Hc; [|discriminate].
    apply star_greedy_sound in H as (cur' & Hr & Hk). eauto using m_plus.
  - destruct cur as [bef s]; simpl in H.
    apply star_lazy_sound in H as (cur' & Hr & Hk). eauto using m_lazy.
  - unfold try_ in H. destruct (rmatch fl r cur cs k) eqn:H1.
    + inversion H; subst. apply IHr in H1 as (cur' & cs' & Hm & Hk).
      eauto using m_opt_some.
    + eauto using m_opt_none.
  - apply IHr1 in H as (cur1 & cs1 & Hm1 & H).
    apply IHr2 in H as (cur2 & cs2 & Hm2 & H).
    eauto using m_seq.
  - unfold try_ in H. destruct (rmatch fl r1 cur cs k) eqn:H1.
    + inversion H; subst. apply IHr1 in H1 as (cur' & cs' & Hm & Hk).
      eauto using m_alt_l.
    + apply IHr2 in H as (cur' & cs' & Hm & Hk). eauto using m_alt_r.
  - apply IHr in H as (cur' & cs' & Hm & Hk).
    exists cur', ((n, take (match_len cur cur') (rest cur)) :: cs'). split; [|exact Hk].
    by apply m_group.
  - destruct (bol_ok fl cur) eqn:Hb; [|discriminate]. eauto using m_bol.
  - destruct (eol_ok fl cur) eqn:Hb; [|discriminate]. eauto using m_eol.
Qed.

Lemma match_at_sound fl r cur cs cur' :
  match_at fl r cur = Some (cs, cur') -> matches fl r cur [] cur' cs.
Proof.
  unfold match_at. intros H. apply rmatch_sound in H as (c & s & Hm & Hk).
  by inversion Hk; subst.
Qed.

Lemma re_match_sound fl r s cs :
  re_match fl r s = Some cs -> exists cur', matches fl r (at_start s) [] cur' cs.
Proof.
  unfold re_match. destruct (match_at fl r (at_start s)) as [[cs' cur']|] eqn:H; [|discriminate].
  intros [= <-]. exists cur'. by apply match_at_sound.
Qed.

Lemma length_app_string (w s : string) :
  String.length (w +:+ s) = String.length w + String.length s.
Proof. induction w; simpl; [done | by rewrite IHw]. Qed.

Lemma take_app_string (w s : string) :
  take (String.length (w +:+ s) - String.length s) (w +:+ s) = w.
Proof.
  rewrite length_app_string.
  replace (String.length w + String.length s - String.length s) with (String.length w) by lia.
  induction w; simpl; [done | by rewrite IHw].
Qed.

(** A run passes over a word made of accepted characters. *)
Lemma run_word fl a cur cur' :
  run fl a cur cur' ->
  exists w, rest cur = w +:+ rest cur' /\ all_chars (atom_ok fl a) w = true.
Proof.
  induction 1 as [cur | bef c s cur' Hc Hr (w & Hw & Ha)].
  - by exists EmptyString.
  - exists (String c w). simpl in *. rewrite Hw, Hc, Ha. done.
Qed.

Lemma plus_class_capture fl p cur cs cur' cs' :
  matches fl (Plus (AClass p)) cur cs cur' cs' ->
  let w := take (match_len cur cur') (rest cur) in
  w <> EmptyString /\ all_chars p w = true.
Proof.
  inversion 1 as [| | |? bef c s ? ? Hc Hr| | | | | | | | |]; subst.
  apply run_word in Hr as (w & Hw & Ha). simpl in Hw.
  unfold match_len. cbn [rest]. rewrite Hw.
  change (String c (w +:+ rest cur')) with (String c w +:+ rest cur').
  rewrite take_app_string. simpl in *. rewrite Hc. done.
Qed.

(** Groups of the form [(p+)] hold non-empty runs of characters of [p]. *)
Lemma matches_class_group fl p g r cur cs cur' cs' :
  matches fl r cur cs cur' cs' ->
  class_group p g r -> caps_in p g cs -> caps_in p g cs'.
Proof.
  induction 1; simpl; intros Hg Hcs; try done.
  - by apply IHmatches.
  - destruct Hg. by apply IHmatches2, IHmatches1.
  - destruct Hg. by apply IHmatches.
  - destruct Hg. by apply IHmatches.
  - destruct Hg as [Hn Hg]. intros s. simpl.
    destruct (Nat.eqb_spec n g) as [->|Hne].
    + intros [= <-]. rewrite (Hn eq_refl) in H. by apply plus_class_capture in H.
    + by apply IHmatches.
Qed.

Lemma caps_in_nil p g : caps_in p g [].
Proof. by intros s. Qed.

(** A group that is set stays set, and a mandatory group gets set. *)
Lemma matches_keeps_group fl g r cur cs cur' cs' :
  matches fl r cur cs cur' cs' -> is_Some (group g cs) -> is_Some (group g cs').
Proof.
  induction 1; intros Hs; auto.
  simpl. destruct (n =? g); [eauto | auto].
Qed.

Lemma matches_sets_group fl g r cur cs cur' cs' :
  matches fl r cur cs cur' cs' -> mandatory g r -> is_Some (group g cs').
Proof.
  induction 1; simpl; intros Hm; try done.
  - destruct Hm as [Hm|Hm].
    + eapply matches_keeps_group; eauto.
    + eauto.
  - destruct Hm; auto.
  - destruct Hm; auto.
  - destruct Hm as [->|Hm].
    + rewrite Nat.eqb_refl. eauto.
    + destruct (n =? g); [eauto | auto].
Qed.

(** What [re.match] reports for a mandatory group of the form [(p+)]. *)
Lemma re_match_class_group fl p g r s cs :
  re_match fl r s = Some cs -> class_group p g r -> mandatory g r ->
  exists w, group g cs = Some w /\ w <> EmptyString /\ all_chars p w = true.
Proof.
  intros H Hc Hm. apply re_match_sound in H as (cur' & H).
  destruct (matches_sets_group _ g _ _ _ _ _ H Hm) as [w Hw].
  exists w. split; [done|].
  eapply (matches_class_group _ p g) in H; eauto using caps_in_nil.
Qed.

(** A greedy repetition followed by a part that succeeds takes the whole run
    of accepted characters. *)
Lemma star_greedy_max {R} fl a (k : cursor -> option R) post :
  stops (atom_ok fl a) post ->
  forall w bef,
    all_chars (atom_ok fl a) w = true ->
    is_Some (k {| before := last_before bef w; rest := post |}) ->
    star_greedy fl a bef (w +:+ post) k = k {| before := last_before bef w; rest := post |}.
Proof.
  intros Hstop. induction w as [|c w IH]; intros bef Hw Hk.
  - simpl. destruct post as [|d post]; [done|]. simpl in *. by rewrite Hstop.
  - simpl in Hw. apply andb_prop in Hw as [Hc Hw].
    change (String c w +:+ post) with (String c (w +:+ post)).
    cbn [star_greedy last_before] in *. rewrite Hc.
    rewrite (IH (Some c) Hw Hk). destruct Hk as [r ->]. reflexivity.
Qed.

Lemma matches_lit fl s : forall cur cs cur' cs',
  matches fl (lit s) cur cs cur' cs' -> starts_with s (rest cur) = Some (rest cur').
Proof.
  induction s as [|c s IH]; intros cur cs cur' cs' H; simpl in H.
  - by inversion H; subst.
  - inversion H as [| | | | | | |? ? ? ? cur1 cs1 ? ? Hone Hrest| | | | |]; subst.
    inversion Hone as [|? ? ? ? ? Hc| | | | | | | | | | |]; subst.
    simpl. unfold atom_ok in Hc. rewrite Hc. by apply IH in Hrest.
Qed.

(** A greedy repetition succeeds when what follows it always does. *)
Lemma star_greedy_some {R} fl a (k : cursor -> option R) :
  (forall cur, is_Some (k cur)) ->
  forall s bef, is_Some (star_greedy fl a bef s k).
Proof.
  intros Hk. induction s as [|c s IH]; intros bef; simpl; [apply Hk|].
  destruct (atom_ok fl a c); [|apply Hk].
  destruct (IH (Some c)) as [r ->]. simpl. eauto.
Qed.

Lemma last_before_app bef pre c :
  last_before bef (pre +:+ String c EmptyString) = Some c.
Proof. revert bef. induction pre as [|d pre IH]; intros bef; [done | apply IH]. Qed.

(** [findall] reports something as soon as the pattern matches somewhere. *)
Lemma findall_nonempty fl r s pre : forall bef,
  is_Some (match_at fl r {| before := last_before bef pre; rest := s |}) ->
  findall_from fl r bef (pre +:+ s) 0 <> [].
Proof.
  induction pre as [|d pre IH]; intros bef [[cs cur'] Hm].
  - cbn [last_before] in Hm. change (EmptyString +:+ s) with s.
    destruct s; cbn [findall_from]; by rewrite Hm.
  - change (String d pre +:+ s) with (String d (pre +:+ s)).
    cbn [findall_from].
    destruct (match_at fl r {| before := bef; rest := String d (pre +:+ s) |})
      as [[cs0 cur0]|]; [discriminate|].
    apply IH. cbn [last_before] in Hm. eauto.
Qed.

(** A literal matches the text that opens with it. *)
Lemma rmatch_lit_app {R} fl s : forall bef t cs (k : cursor -> caps -> option R),
  rmatch fl (lit s) {| before := bef; rest := s +:+ t |} cs k =
  k {| before := last_before bef s; rest := t |} cs.
Proof.
  induction s as [|c s IH]; intros bef t cs k; [done|].
  change (String c s +:+ t) with (String c (s +:+ t)).
  cbn [lit rmatch rest atom_ok last_before]. unfold ascii_eqb.
  rewrite Ascii.eqb_refl. apply IH.
Qed.

Lemma rmatch_one_blank {R} fl bef t cs (k : cursor -> caps -> option R) :
  rmatch fl (One space) {| before := bef; rest := String " " t |} cs k =
  k {| before := Some " "%char; rest := t |} cs.
Proof. reflexivity. Qed.

Lemma rmatch_one {R} fl a bef c s cs (k : cursor -> caps -> option R) :
  rmatch fl (One a) {| before := bef; rest := String c s |} cs k =
  if atom_ok fl a c then k (advance c s) cs else None.
Proof. reflexivity. Qed.

Lemma rmatch_plus {R} fl a bef c s cs (k : cursor -> caps -> option R) :
  rmatch fl (Plus a) {| before := bef; rest := String c s |} cs k =
  if atom_ok fl a c then star_greedy fl a (Some c) s (fun cur' => k cur' cs) else None.
Proof. reflexivity. Qed.

Lemma rmatch_bol {R} fl cur cs (k : cursor -> caps -> option R) :
  rmatch fl Bol cur cs k = if bol_ok fl cur then k cur cs else None.
Proof. reflexivity. Qed.

Lemma rmatch_seq {R} fl r1 r2 cur cs (k : cursor -> caps -> option R) :
  rmatch fl (Seq r1 r2) cur cs k =
  rmatch fl r1 cur cs (fun cur' cs' => rmatch fl r2 cur' cs' k).
Proof. reflexivity. Qed.

(** A pattern that opens with a literal matches only where the literal
    stands. *)
Lemma match_at_needs_literal fl s r cur :
  starts_with s (rest cur) = None -> match_at fl (Seq (lit s) r) cur = None.
Proof.
  intros Hs. destruct (match_at fl (Seq (lit s) r) cur) as [[cs cur']|] eqn:E; [|done].
  apply match_at_sound in E.
  inversion E as [| | | | | | |? ? ? ? cur1 cs1 ? ? Hlit _| | | | |]; subst.
  apply matches_lit in Hlit. congruence.
Qed.

Lemma starts_with_app_None p : forall u v,
  starts_with p u = None -> String.length p <= String.length u ->
  starts_with p (u +:+ v) = None.
Proof.
  induction p as [|a p IH]; intros u v H Hlen; [discriminate|].
  destruct u as [|b u]; simpl in *; [lia|].
  destruct (ascii_eqb a b); [|done]. apply IH; [done | lia].
Qed.

Lemma append_assoc_string (a b c : string) : (a +:+ b) +:+ c = a +:+ b +:+ c.
Proof.
  induction a as [|x a IH]; [done|].
  change (String x ((a +:+ b) +:+ c) = String x (a +:+ b +:+ c)). by rewrite IH.
Qed.

Lemma contains_cons sub c s :
  contains sub (String c s) = false ->
  starts_with sub (String c s) = None /\ contains sub s = false.
Proof.
  cbn [contains]. destruct (starts_with sub (String c s)); [discriminate | done].
Qed.

(** The search passes over a part of the text in which the opening literal of
    the pattern does not start: [lit1] is the literal but for its last
    character [lit2]. *)
Lemma search_skips fl lit1 lit2 r pre : forall bef tail,
  String.length lit2 = 1 ->
  contains (lit1 +:+ lit2) (pre +:+ lit1) = false ->
  search_from fl (Seq (lit (lit1 +:+ lit2)) r) bef (pre +:+ lit1 +:+ tail) =
  search_from fl (Seq (lit (lit1 +:+ lit2)) r) (last_before bef pre) (lit1 +:+ tail).
Proof.
  intros bef tail Hlen Hc. revert bef Hc.
  induction pre as [|d pre IH]; intros bef Hc; [done|].
  change (String d pre +:+ lit1 +:+ tail) with (String d (pre +:+ lit1 +:+ tail)).
  change (String d pre +:+ lit1) with (String d (pre +:+ lit1)) in Hc.
  apply contains_cons in Hc as [Hs Hc].
  cbn [search_from last_before].
  rewrite match_at_needs_literal; [by apply IH|].
  cbn [rest]. rewrite <- append_assoc_string.
  change (String d ((pre +:+ lit1) +:+ tail)) with (String d (pre +:+ lit1) +:+ tail).
  apply starts_with_app_None; [done|].
  rewrite !length_app_string. simpl. rewrite length_app_string. lia.
Qed.

End ReFacts.

Module PyFacts.
Import Py.

Lemma starts_with_LF c s :
  starts_with LF (String c s) = if ascii_eqb (chr 10) c then Some s else None.
Proof. reflexivity. Qed.

(** Splitting at line feeds distributes over a line feed in the text. *)
Lemma split_go_LF_app d1 : forall cur d2,
  split_go LF 0 cur (d1 +:+ LF +:+ d2) = split_go LF 0 cur d1 ++ split_go LF 0 EmptyString d2.
Proof.
  induction d1 as [|c d1 IH]; intros cur d2.
  - reflexivity.
  - change ((String c d1) +:+ LF +:+ d2) with (String c (d1 +:+ LF +:+ d2)).
    cbn [split_go]. rewrite !starts_with_LF.
    destruct (ascii_eqb (chr 10) c).
    + cbn [String.length LF Nat.sub]. rewrite IH. reflexivity.
    + apply IH.
Qed.

Lemma split_LF_app d1 d2 :
  split LF (d1 +:+ LF +:+ d2) = split LF d1 ++ split LF d2.
Proof. apply split_go_LF_app. Qed.

Lemma split_LF_cons d :
  split LF (LF +:+ d) = EmptyString :: split LF d.
Proof. reflexivity. Qed.

(** The first piece of a split starts with what was collected before. *)
Lemma split_go_LF_head s : forall cur,
  exists w tl, split_go LF 0 cur s = rev_string w cur :: tl.
Proof.
  induction s as [|c s IH]; intros cur.
  - by exists EmptyString, [].
  - cbn [split_go]. rewrite starts_with_LF. destruct (ascii_eqb (chr 10) c).
    + by eexists EmptyString, _.
    + destruct (IH (String c cur)) as (w & tl & ->). by exists (String c w), tl.
Qed.

(** A text that opens with a blank has a first line that opens with it. *)
Lemma split_LF_blank_first s :
  exists w tl, split LF (String " " s) = String " " w :: tl.
Proof.
  unfold split. cbn [split_go]. rewrite starts_with_LF.
  change (ascii_eqb (chr 10) " ") with false. cbv iota.
  destruct (split_go_LF_head s (String " " EmptyString)) as (w & tl & ->).
  by exists w, tl.
Qed.

End PyFacts.

Module LoopFacts.

Lemma for_each_app {A St} (body : A -> St -> result St) l1 l2 st :
  for_each body (l1 ++ l2) st = (st' ← for_each body l1 st; for_each body l2 st').
Proof.
  revert st. induction l1 as [|x l1 IH]; intros st; simpl; [done|].
  destruct (body x st) as [st1|e]; simpl; [apply IH | done].
Qed.

End LoopFacts.

Module BuiltinFacts.
Import Py Re ReSpec Builtins.

Lemma int_digits_ok s : forall acc,
  all_chars isdigit s = true -> (0 <= acc)%Z ->
  exists z, int_digits acc s = Some z /\ (0 <= z)%Z.
Proof.
  induction s as [|c s IH]; simpl; intros acc Hd Hacc; [eauto|].
  apply andb_prop in Hd as [Hc Hd]. rewrite Hc. apply IH; [done | lia].
Qed.

(** [int] succeeds on a group of the form [(\d+)]. *)
Lemma int_ok s :
  s <> EmptyString -> all_chars isdigit s = true ->
  exists z, int (Some s) = Ok z /\ (0 <= z)%Z.
Proof.
  intros Hne Hd. destruct (int_digits_ok s 0 Hd) as (z & Hz & Hpos); [lia|].
  exists z. unfold int. destruct s; [done|]. by rewrite Hz.
Qed.

End BuiltinFacts.

Module FloatFacts.
Import Builtins.
Local Open Scope Z_scope.

Lemma digits2_log2 p : Zpos (digits2_pos p) = Z.log2 (Zpos p) + 1.
Proof.
  induction p as [p IH|p IH|]; simpl digits2_pos; [| |reflexivity].
  - rewrite Pos2Z.inj_succ, IH.
    change (Zpos p~1) with (2 * Zpos p + 1). rewrite Z.log2_succ_double by lia. lia.
  - rewrite Pos2Z.inj_succ, IH.
    change (Zpos p~0) with (2 * Zpos p). rewrite Z.log2_double by lia. lia.
Qed.

Lemma fexp_normal x : -1021 <= x -> fexp prec emax x = x - 53.
Proof. intros H. unfold fexp, emin, prec, emax. lia. Qed.

(** Rounding an exact 54-bit mantissa whose last bit is 0 drops that bit. *)
Lemma round_exact p e :
  Zpos (digits2_pos p) = 53 -> -1074 <= e <= 970 ->
  binary_round_aux prec emax false (Zpos p~0) e loc_Exact = S754_finite false p (e + 1).
Proof.
  intros Hd He. unfold binary_round_aux, shr_fexp.
  assert (Zdigits2 (Zpos p~0) = 54) as -> by (simpl; rewrite Pos2Z.inj_succ; lia).
  rewrite fexp_normal by lia.
  replace (54 + e - 53 - e) with 1 by lia. simpl shr.
  cbn [shr_m loc_of_shr_record round_nearest_even].
  assert (Zdigits2 (Zpos p) = 53) as -> by (simpl; lia).
  rewrite fexp_normal by lia.
  replace (53 + (e + 1) - 53 - (e + 1)) with 0 by lia. simpl.
  destruct (Z.leb_spec (e + 1) (emax - prec)) as [_|H]; [reflexivity|].
  unfold emax, prec in H. lia.
Qed.

Lemma new_location_zero b : new_location (Zpos b) 0 = loc_Exact.
Proof. unfold new_location, new_location_even, new_location_odd. by destruct (Z.even _). Qed.

(** The quotient of a mantissa of at most 53 bits by a power of two, as the
    division core hands it to the rounding: 54 bits, exact. *)
Lemma div_core_pow2 m b k :
  Zpos (digits2_pos m) <= 53 -> Zpos b = 2 ^ k -> 0 <= k <= 1000 ->
  SFdiv_core_binary prec emax (Zpos m) 0 (Zpos b) 0 =
    (2 * (Zpos m * 2 ^ (53 - Zpos (digits2_pos m))),
     Zpos (digits2_pos m) - k - 54, loc_Exact).
Proof.
  intros Hd Hb Hk. unfold SFdiv_core_binary.
  set (d := Zpos (digits2_pos m)) in *.
  assert (1 <= d) as Hd1 by (subst d; lia).
  assert (Zdigits2 (Zpos m) = d) as -> by reflexivity.
  assert (Zdigits2 (Zpos b) = k + 1) as ->.
  { simpl. rewrite digits2_log2, Hb, Z.log2_pow2 by lia. reflexivity. }
  rewrite fexp_normal by lia.
  replace (Z.min (d + 0 - (k + 1 + 0) - 53) (0 - 0)) with (d - k - 54) by lia.
  replace (0 - 0 - (d - k - 54)) with (k + 54 - d) by lia.
  destruct (k + 54 - d) as [|s|s] eqn:Es; try lia.
  rewrite Z.shiftl_mul_pow2 by lia. rewrite <- Es.
  destruct (Z.div_eucl (Zpos m * 2 ^ (k + 54 - d)) (Zpos b)) as [q r] eqn:E.
  assert (q = Zpos m * 2 ^ (k + 54 - d) / Zpos b) as Hq by (unfold Z.div; by rewrite E).
  assert (r = (Zpos m * 2 ^ (k + 54 - d)) mod Zpos b) as Hr by (unfold Z.modulo; by rewrite E).
  replace (Zpos m * 2 ^ (k + 54 - d)) with (2 * (Zpos m * 2 ^ (53 - d)) * 2 ^ k) in Hq, Hr.
  2:{ replace (k + 54 - d) with (1 + (53 - d) + k) by lia.
      rewrite !Z.pow_add_r by lia. change (2 ^ 1) with 2. ring. }
  rewrite Hb in Hq, Hr.
  rewrite Z.div_mul in Hq by lia. rewrite Z.mod_mul in Hr by lia.
  subst q r. by rewrite new_location_zero.
Qed.

(** True division of an integer below [2^53] by a power of two is exact. *)
Lemma truediv_pow2_exact a b k :
  0 <= a < 2 ^ 53 -> Zpos b = 2 ^ k -> 0 <= k <= 1000 ->
  exists f, truediv a b = Ok f /\ float_is f (a # b).
Proof.
  intros Ha Hb Hk. destruct a as [|m|m]; [| |lia].
  - exists (S754_zero false). split; reflexivity.
  - assert (Zpos (digits2_pos m) <= 53) as Hd.
    { rewrite digits2_log2. assert (Z.log2 (Zpos m) < 53); [|lia].
      apply Z.log2_lt_pow2; lia. }
    unfold truediv. rewrite (div_core_pow2 m b k Hd Hb Hk).
    set (d := Zpos (digits2_pos m)) in *.
    assert (1 <= d) as Hd1 by (subst d; lia).
    assert (0 < Zpos m * 2 ^ (53 - d)) as Hpos by (apply Z.mul_pos_pos; [lia | apply Z.pow_pos_nonneg; lia]).
    destruct (Zpos m * 2 ^ (53 - d)) as [|p|p] eqn:Ep; try lia.
    change (2 * Zpos p) with (Zpos p~0).
    assert (Zpos (digits2_pos p) = 53) as Hdp.
    { rewrite digits2_log2, <- Ep, Z.log2_mul_pow2 by lia.
      fold (Z.log2 (Zpos m)). pose proof (digits2_log2 m). lia. }
    rewrite round_exact by (done || lia).
    eexists. split; [reflexivity|].
    unfold float_is, float_value.
    replace (d - k - 54 + 1) with (d - k - 53) by lia.
    destruct (d - k - 53) as [|e|e] eqn:Ee; try lia.
    + unfold Qeq, inject_Z. cbn [Qnum Qden].
      rewrite Hb, <- Ep.
      replace (53 - d) with 0 by lia. replace k with 0 by lia.
      rewrite !Z.pow_0_r. ring.
    + unfold Qeq. simpl Qnum. simpl Qden.
      rewrite Pos2Z.inj_pow, Hb, <- Ep.
      replace (Zpos e) with (53 - d + k) by lia.
      rewrite Z.pow_add_r by lia. ring.
Qed.

End FloatFacts.

Module HardwareFacts.
Import Py Re ReSpec Builtins BuiltinFacts ReFacts FloatFacts Hardware Samples.

Lemma digits_group_int fl g r line m :
  re_match fl r line = Some m -> class_group isdigit g r -> mandatory g r ->
  exists z, int (group g m) = Ok z /\ (0 <= z)%Z.
Proof.
  intros H Hc Hm.
  destruct (re_match_class_group _ _ _ _ _ _ H Hc Hm) as (w & -> & Hne & Hd).
  by apply int_ok.
Qed.

Lemma memory_groups line m :
  re_match NOFLAG memory_re line = Some m ->
  exists total free,
    int (group g_total m) = Ok total /\ int (group g_free m) = Ok free /\
    (0 <= total)%Z /\ (0 <= free)%Z.
Proof.
  intros H.
  destruct (digits_group_int _ g_total _ _ _ H) as (t & Ht & ?); [solve_group_shape..|].
  destruct (digits_group_int _ g_free _ _ _ H) as (f & Hf & ?); [solve_group_shape..|].
  eauto 10.
Qed.

Lemma space_groups line m :
  re_match NOFLAG space_re line = Some m ->
  exists total free,
    int (group 1 m) = Ok total /\ int (group 2 m) = Ok free /\
    (0 <= total)%Z /\ (0 <= free)%Z.
Proof.
  intros H.
  destruct (digits_group_int _ 1 _ _ _ H) as (t & Ht & ?); [solve_group_shape..|].
  destruct (digits_group_int _ 2 _ _ _ H) as (f & Hf & ?); [solve_group_shape..|].
  eauto 10.
Qed.

Lemma directory_first c s m :
  re_match NOFLAG directory_re (String c s) = Some m -> c = "D"%char.
Proof.
  intros H. apply re_match_sound in H as (cur' & H).
  unfold directory_re in H. cbn [cat foldr lit] in H.
  inversion H as [| | | | | | |? ? ? ? cur1 cs1 ? ? Hbol Hrest| | | | |]; subst.
  inversion Hbol; subst.
  inversion Hrest as [| | | | | | |? ? ? ? cur2 cs2 ? ? Hlit _| | | | |]; subst.
  inversion Hlit as [| | | | | | |? ? ? ? cur3 cs3 ? ? Hone _| | | | |]; subst.
  inversion Hone as [|? ? ? ? ? Hc| | | | | | | | | | |]; subst.
  unfold atom_ok, ascii_eqb in Hc. apply Ascii.eqb_eq in Hc. by subst.
Qed.

(** A line that starts a [bytes total] report is not a [Directory of] line. *)
Lemma space_not_directory line m :
  re_match NOFLAG space_re line = Some m -> re_match NOFLAG directory_re line = None.
Proof.
  intros H. apply re_match_sound in H as (cur' & H).
  unfold space_re in H. cbn [cat foldr] in H.
  inversion H as [| | | | | | |? ? ? ? cur1 cs1 ? ? Hbol Hrest| | | | |]; subst.
  inversion Hbol; subst.
  inversion Hrest as [| | | | | | |? ? ? ? cur2 cs2 ? ? Hgrp _| | | | |]; subst.
  inversion Hgrp as [| | | | | | | | | |? ? ? ? ? ? Hplus| |]; subst.
  inversion Hplus as [| | |? bef c s ? ? Hc Hr| | | | | | | | |]; subst.
  destruct (re_match NOFLAG directory_re (String c s)) as [m'|] eqn:Hd; [|done].
  apply directory_first in Hd as ->. by vm_compute in Hc.
Qed.

(** C1, as the code has it: on every [show memory statistics] line and every
    [bytes total] line of a [dir] listing, the byte counts are read with [int]
    (which succeeds on them) and converted by true division, [bytes / 1048576]
    and [bytes / 1024], into binary64 floats; nothing is truncated: for every
    byte count below [2^53] the float is exactly the quotient.  A total of
    1048577 bytes gives [memtotal_mb = 4503603922337792 * 2^-52], that is
    [1048577 / 1048576 = 1.00000095367431640625], and 1025 free bytes give
    [spacefree_kb = 1025 / 1024]. *)
Theorem C1_conversions_are_true_division :
  (forall line m facts,
     re_match NOFLAG memory_re line = Some m ->
     exists total free,
       int (group g_total m) = Ok total /\ int (group g_free m) = Ok free /\
       memory_line line facts =
         (mt ← truediv total 1048576;
          mf ← truediv free 1048576;
          Ok (<["memfree_mb" := VFloat mf]> (<["memtotal_mb" := VFloat mt]> facts))))
  /\ (forall line m fs facts rec,
       re_match NOFLAG space_re line = Some m ->
       facts !! fs = Some rec ->
       exists total free,
         int (group 1 m) = Ok total /\ int (group 2 m) = Ok free /\
         filesystems_info_line line (fs, facts) =
           (st ← truediv total 1024;
            sf ← truediv free 1024;
            Ok (fs, <[fs := <["spacefree_kb" := VFloat sf]>
                              (<["spacetotal_kb" := VFloat st]> rec)]> facts)))
  /\ (forall bytes,
       (0 <= bytes < 2 ^ 53)%Z ->
       (exists f, truediv bytes 1048576 = Ok f /\ float_is f (bytes # 1048576))
       /\ (exists f, truediv bytes 1024 = Ok f /\ float_is f (bytes # 1024)))
  /\ (exists f,
       (facts ← populate EmptyString memory_line_1048577 EmptyString ∅;
        Ok (facts !! "memtotal_mb")) = Ok (Some (VFloat f))
       /\ f = S754_finite false 4503603922337792 (-52)
       /\ float_is f (1048577 # 1048576))
  /\ (exists f,
       (info ← parse_filesystems_info dir_flash;
        Ok (info !! "flash:" ≫= (.!! "spacefree_kb"))) = Ok (Some (VFloat f))
       /\ float_is f (1025 # 1024)).
Proof.
  split; [|split; [|split; [|split]]].
  - intros line m facts H.
    destruct (memory_groups _ _ H) as (total & free & Ht & Hf & _ & _).
    exists total, free. split; [done|]. split; [done|].
    unfold memory_line. rewrite H, Ht, Hf. simpl.
    by destruct (truediv total 1048576).
  - intros line m fs facts rec H Hrec.
    destruct (space_groups _ _ H) as (total & free & Ht & Hf & _ & _).
    exists total, free. split; [done|]. split; [done|].
    unfold filesystems_info_line.
    rewrite (space_not_directory _ _ H), H, Ht, Hf. simpl.
    destruct (truediv total 1024) as [st|]; simpl; [|done].
    unfold getitem. rewrite Hrec. simpl.
    destruct (truediv free 1024) as [sf|]; simpl; [|done].
    rewrite lookup_insert_eq. simpl. by rewrite insert_insert_eq.
  - intros bytes Hb. split.
    + apply (truediv_pow2_exact bytes 1048576 20); [exact Hb | reflexivity | lia].
    + apply (truediv_pow2_exact bytes 1024 10); [exact Hb | reflexivity | lia].
  - eexists. split; [vm_compute; reflexivity|]. split; reflexivity.
  - eexists. split; [vm_compute; reflexivity|]. reflexivity.
Qed.

(** The theorem at a [show memory statistics] line, at the last line of a
    [dir] listing, and at a count of 1048577 bytes. *)
Lemma C1_conversions_witness :
  (exists total free,
     int (Some "1048577") = Ok total /\ int (Some "2097152") = Ok free /\
     memory_line memory_line_1048577 ∅ =
       (mt ← truediv total 1048576;
        mf ← truediv free 1048576;
        Ok (<["memfree_mb" := VFloat mf]> (<["memtotal_mb" := VFloat mt]> ∅))))
  /\ (exists total free,
       int (Some "7897796608") = Ok total /\ int (Some "1025") = Ok free /\
       filesystems_info_line "7897796608 bytes total (1025 bytes free)"
         ("flash:", <["flash:" := (∅ : dict)]> ∅) =
         (st ← truediv total 1024;
          sf ← truediv free 1024;
          Ok ("flash:", <["flash:" := <["spacefree_kb" := VFloat sf]>
                                        (<["spacetotal_kb" := VFloat st]> ∅)]>
                          (<["flash:" := (∅ : dict)]> ∅))))
  /\ (exists f, truediv 1048577 1048576 = Ok f /\ float_is f (1048577 # 1048576)).
Proof.
  destruct C1_conversions_are_true_division as (H1 & H2 & H3 & _).
  split; [|split].
  - apply (H1 memory_line_1048577 [(3, "2097152"); (2, "1048577"); (1, "7F2A1234")] ∅).
    vm_compute. reflexivity.
  - apply (H2 "7897796608 bytes total (1025 bytes free)"
              [(2, "1025"); (1, "7897796608")] "flash:" _ ∅).
    + vm_compute. reflexivity.
    + apply lookup_insert_eq.
  - apply (H3 1048577%Z). split; [discriminate | reflexivity].
Defined.

(** C1, as the specification words it, fails: with a total of 1048577 bytes the
    stored [memtotal_mb] is the float [1048577 / 1048576], not the truncated
    quotient 1; and with 1025 free bytes the stored [spacefree_kb] is
    [1025 / 1024], not 1. *)
Lemma C1_truncation_counterexample :
  (exists f,
     (facts ← populate EmptyString memory_line_1048577 EmptyString ∅;
      Ok (facts !! "memtotal_mb")) = Ok (Some (VFloat f))
     /\ float_is f (1048577 # 1048576)
     /\ truncating_mb 1048577 = 1%Z
     /\ ~ (1048577 # 1048576 == inject_Z (truncating_mb 1048577))%Q)
  /\ (exists f,
       (info ← parse_filesystems_info dir_flash;
        Ok (info !! "flash:" ≫= (.!! "spacefree_kb"))) = Ok (Some (VFloat f))
       /\ float_is f (1025 # 1024)
       /\ truncating_kb 1025 = 1%Z
       /\ ~ (1025 # 1024 == inject_Z (truncating_kb 1025))%Q).
Proof.
  split.
  - eexists. split; [vm_compute; reflexivity|].
    split; [reflexivity|]. split; [reflexivity|].
    vm_compute. discriminate.
  - eexists. split; [vm_compute; reflexivity|].
    split; [reflexivity|]. split; [reflexivity|].
    vm_compute. discriminate.
Qed.

(** C10: the CPU utilization pattern accepts a line in which neither
    five-second group is set, and on that line [parse_cpu_utilization] raises
    ([int] of [None] is a [TypeError]) instead of returning facts. *)
Theorem C10_parse_cpu_utilization_raises :
  exists line m,
    re_match NOFLAG regex_cpu_utilization line = Some m
    /\ group g_f_sec m = None
    /\ group g_f_se_nom m = None
    /\ parse_cpu_utilization line = Raise TypeError.
Proof.
  exists cpu_line_without_numbers. eexists.
  split; [vm_compute; reflexivity|].
  repeat split; vm_compute; reflexivity.
Qed.

End HardwareFacts.

Module ConfigFacts.
Import Py Re Config Samples.

(** No match of the banner pattern starts in a text that opens with
    [Building configuration.]: the pattern wants a line feed where the device
    prints the first dot. *)
Lemma banner_prefix_kept tail :
  re_sub M banner_re EmptyString ("Building configuration..." +:+ tail) =
  "Building configuration..." +:+ sub_from M banner_re EmptyString (Some "."%char) tail 0.
Proof. vm_compute. reflexivity. Qed.

(** C2 fails on the code: the banner that the device prints is left in place.
    For every running configuration that begins with
    [Building configuration...], the stored [config] still begins with it; on
    the sample the whole text is stored unchanged.  What the pattern does
    strip is a text with a line feed and sixteen blanks before the dots. *)
Theorem C2_banner_is_not_stripped :
  (forall tail facts, exists kept,
     populate ("Building configuration..." +:+ tail) facts !! "config" =
       Some (VStr ("Building configuration..." +:+ kept)))
  /\ populate (banner +:+ config_body) ∅ !! "config" = Some (VStr (banner +:+ config_body))
  /\ populate (banner_as_written +:+ config_body) ∅ !! "config" = Some (VStr config_body).
Proof.
  split.
  - intros tail facts. eexists. unfold populate.
    rewrite banner_prefix_kept. simpl truthy. cbv iota.
    rewrite lookup_insert_eq. reflexivity.
  - split; vm_compute; reflexivity.
Qed.

End ConfigFacts.

Module DefaultFacts.
Import Py Re ReSpec ReFacts Default Samples.

Lemma parse_stacks_sets_stack data facts :
  re_findall M stacked_models_re data <> [] ->
  parse_stacks data facts !! "virtual_switch" = Some (VStr "STACK").
Proof.
  intros Hm. unfold parse_stacks.
  destruct (re_findall M stacked_models_re data) as [|x xs] eqn:E; [done|].
  set (f1 := <["stacked_models" := strs (x :: xs)]> facts).
  set (f2 := match re_findall M stacked_serialnums_re data with
             | [] => f1
             | _ => _
             end).
  assert (is_Some (f2 !! "stacked_models")) as Hs.
  { subst f2. destruct (re_findall M stacked_serialnums_re data).
    - subst f1. rewrite lookup_insert_eq. eauto.
    - rewrite lookup_insert_ne by done. subst f1. rewrite lookup_insert_eq. eauto. }
  rewrite bool_decide_eq_true_2 by done. by rewrite lookup_insert_eq.
Qed.

(** The stacked-model pattern matches at a line [Model Number : X] (or
    [Model number : X]). *)
Lemma stacked_models_match_at bef n c tail :
  bol_ok M {| before := bef; rest := EmptyString |} = true ->
  n = "N"%char \/ n = "n"%char ->
  isspace c = false ->
  is_Some (match_at M stacked_models_re
             {| before := bef; rest := "Model " +:+ String n ("umber : " +:+ String c tail) |}).
Proof.
  intros Hbol Hn Hc. unfold match_at, stacked_models_re. cbn [cat foldr].
  rewrite rmatch_seq, rmatch_bol. unfold bol_ok in *. cbn [before] in *. rewrite Hbol.
  rewrite rmatch_seq, rmatch_lit_app, rmatch_seq, rmatch_one.
  assert (atom_ok M (one_of "Nn") n = true) as ->
    by (destruct Hn as [->| ->]; reflexivity).
  change ("umber : " +:+ String c tail)
    with ("umber" +:+ String " " (String ":" (" " +:+ String c tail))).
  unfold advance.
  rewrite rmatch_seq, rmatch_lit_app, rmatch_seq, rmatch_plus.
  change (atom_ok M space " ") with true. cbv iota.
  cbn [star_greedy]. change (atom_ok M space ":") with false. cbv iota.
  change (String ":" (" " +:+ String c tail)) with (": " +:+ String c tail).
  rewrite rmatch_seq, rmatch_lit_app, rmatch_seq.
  cbn [rmatch rest]. unfold atom_ok, nonspace. rewrite Hc. cbn [negb].
  apply star_greedy_some. intros cur. eauto.
Qed.

(** Whenever a line of the text reads [Model Number : X], the stacked-model
    pattern has a match. *)
Lemma stacked_model_line_found pre n c tail :
  pre = EmptyString \/ (exists pre', pre = pre' +:+ LF) ->
  n = "N"%char \/ n = "n"%char ->
  isspace c = false ->
  re_findall M stacked_models_re
    (pre +:+ "Model " +:+ String n ("umber : " +:+ String c tail)) <> [].
Proof.
  intros Hpre Hn Hc. apply findall_nonempty.
  apply stacked_models_match_at; [|done..].
  destruct Hpre as [->|[pre' ->]]; [done|].
  unfold LF. by rewrite last_before_app.
Qed.

(** When the answers to [show switch virtual] and [show inventory] carry no
    virtual switch domain, nothing overwrites what [parse_stacks] stored. *)
Lemma parse_virtual_switch_keeps data facts :
  re_search M vss_domain_re data = None ->
  parse_virtual_switch data facts !! "virtual_switch" = facts !! "virtual_switch".
Proof.
  intros Hd. unfold parse_virtual_switch. rewrite Hd.
  destruct (re_findall S_ vss_serial_re data); [done|].
  by rewrite lookup_insert_ne.
Qed.

(** C8: the round-trip scenario, and the rule behind its last fact.  With the
    answers to [show switch virtual] and [show inventory] empty, the version
    text of the scenario yields the four facts, whatever the platform facts
    are; [parse_stacks] sets [virtual_switch] to [STACK] whenever the
    stacked-model pattern matches at least once, which it does whenever a line
    of the text reads [Model Number : X] or [Model number : X]; and this is
    what [populate] returns unless the two other answers report a virtual
    switch domain. *)
Theorem C8_stack_round_trip :
  (forall resp python_version pf facts0,
     platform_facts resp python_version = Ok pf ->
     exists facts,
       populate resp python_version version_text EmptyString EmptyString facts0 = Ok facts
       /\ facts !! "serialnum" = Some (VStr "FXS12345")
       /\ facts !! "stacked_models" = Some (VList [VStr "WS-C123"])
       /\ facts !! "stacked_serialnums" = Some (VList [VStr "ABC999"])
       /\ facts !! "virtual_switch" = Some (VStr "STACK"))
  /\ (forall data facts,
       re_findall M stacked_models_re data <> [] ->
       parse_stacks data facts !! "virtual_switch" = Some (VStr "STACK"))
  /\ (forall pre n c tail facts,
       pre = EmptyString \/ (exists pre', pre = pre' +:+ LF) ->
       n = "N"%char \/ n = "n"%char ->
       isspace c = false ->
       parse_stacks (pre +:+ "Model " +:+ String n ("umber : " +:+ String c tail)) facts
         !! "virtual_switch" = Some (VStr "STACK"))
  /\ (forall resp python_version show_version show_switch_virtual show_inventory
             facts0 facts,
       populate resp python_version show_version show_switch_virtual show_inventory
         facts0 = Ok facts ->
       re_findall M stacked_models_re show_version <> [] ->
       re_search M vss_domain_re (show_switch_virtual +:+ show_inventory) = None ->
       facts !! "virtual_switch" = Some (VStr "STACK")).
Proof.
  split; [|split; [exact parse_stacks_sets_stack|split]].
  - intros resp pyv pf facts0 Hpf. unfold populate. rewrite Hpf. simpl.
    eexists. split; [reflexivity|].
    assert (re_findall M stacked_models_re version_text = ["WS-C123"]) as Hm
      by (vm_compute; reflexivity).
    assert (re_findall M stacked_serialnums_re version_text = ["ABC999"]) as Hs
      by (vm_compute; reflexivity).
    assert (parse_serialnum version_text = VStr "FXS12345") as Hn
      by (vm_compute; reflexivity).
    unfold parse_stacks. rewrite Hm, Hs, Hn.
    rewrite bool_decide_eq_true_2
      by (rewrite lookup_insert_ne by done; rewrite lookup_insert_eq; eauto).
    repeat split; by simplify_map_eq.
  - intros pre n c tail facts Hpre Hn Hc.
    by apply parse_stacks_sets_stack, stacked_model_line_found.
  - intros resp pyv sv si inv facts0 facts Hrun Hm Hd. unfold populate in Hrun.
    destruct (platform_facts resp pyv) as [pf|]; [|discriminate].
    simpl in Hrun. injection Hrun as <-.
    assert (truthy sv = true) as ->.
    { destruct sv; [|done]. by vm_compute in Hm. }
    destruct (truthy (si +:+ inv) && _).
    + rewrite parse_virtual_switch_keeps by done. by apply parse_stacks_sets_stack.
    + by apply parse_stacks_sets_stack.
Qed.

(** The theorem at the sample capabilities, and at the scenario text for the
    stacking rule, whose third line is the model line. *)
Lemma C8_stack_round_trip_witness :
  (exists facts,
     populate sample_capabilities "3.11.2" version_text EmptyString EmptyString ∅ = Ok facts
     /\ facts !! "serialnum" = Some (VStr "FXS12345")
     /\ facts !! "stacked_models" = Some (VList [VStr "WS-C123"])
     /\ facts !! "stacked_serialnums" = Some (VList [VStr "ABC999"])
     /\ facts !! "virtual_switch" = Some (VStr "STACK"))
  /\ parse_stacks version_text ∅ !! "virtual_switch" = Some (VStr "STACK")
  /\ parse_stacks
       (("board ID FXS12345" +:+ LF +:+ "System Serial Number : ABC999" +:+ LF)
        +:+ "Model " +:+ String "N" ("umber : " +:+ String "W" "S-C123")) ∅
       !! "virtual_switch" = Some (VStr "STACK").
Proof.
  destruct C8_stack_round_trip as (H1 & H2 & H3 & _). split; [|split].
  - eapply (H1 sample_capabilities "3.11.2"). vm_compute. reflexivity.
  - apply (H2 version_text ∅). vm_compute. discriminate.
  - apply H3; [|by left|reflexivity].
    right. exists ("board ID FXS12345" +:+ LF +:+ "System Serial Number : ABC999").
    reflexivity.
Defined.

(** The match at a mode line: the word is the whole run of characters that
    are not white space. *)
Lemma operatingmode_match_at bef c w post :
  isspace c = false ->
  all_chars (fun d => negb (isspace d)) w = true ->
  stops (fun d => negb (isspace d)) post ->
  match_at NOFLAG operatingmode_re
    {| before := bef; rest := "Router operating mode: " +:+ String c w +:+ post |} =
  Some ([(1, String c w)], {| before := last_before (Some c) w; rest := post |}).
Proof.
  intros Hc Hw Hpost. unfold match_at, operatingmode_re.
  change ("Router operating mode: " +:+ String c w +:+ post)
    with ("Router" +:+ String " " ("operating" +:+ String " "
            ("mode: " +:+ String c (w +:+ post)))).
  cbn [cat foldr].
  rewrite rmatch_seq, rmatch_lit_app, rmatch_seq, rmatch_one_blank,
    rmatch_seq, rmatch_lit_app, rmatch_seq, rmatch_one_blank,
    rmatch_seq, rmatch_lit_app.
  cbn [rmatch rest atom_ok nonspace]. rewrite Hc. cbn [negb].
  rewrite star_greedy_max; [|exact Hpost|exact Hw|eauto].
  unfold match_len. cbn [rest].
  change (String c (w +:+ post)) with (String c w +:+ post).
  by rewrite take_app_string.
Qed.

(** The search finds the first mode line: the text before it is passed over
    when the word [Router] does not start in it. *)
Lemma operatingmode_search pre c w post :
  contains "Router" (pre +:+ "Route") = false ->
  isspace c = false ->
  all_chars (fun d => negb (isspace d)) w = true ->
  stops (fun d => negb (isspace d)) post ->
  re_search NOFLAG operatingmode_re
    (pre +:+ "Router operating mode: " +:+ String c w +:+ post) =
  Some [(1, String c w)].
Proof.
  intros Hpre Hc Hw Hpost. unfold re_search.
  pose proof (search_skips NOFLAG "Route" "r"
                (cat [One space; lit "operating"; One space; lit "mode: ";
                      Group 1 (Plus nonspace)])
                pre None ("r operating mode: " +:+ String c w +:+ post)
                eq_refl Hpre) as Hskip.
  change (Seq (lit ("Route" +:+ "r")) _) with operatingmode_re in Hskip.
  change (pre +:+ "Router operating mode: " +:+ String c w +:+ post)
    with (pre +:+ "Route" +:+ "r operating mode: " +:+ String c w +:+ post).
  rewrite Hskip.
  change ("Route" +:+ "r operating mode: " +:+ String c w +:+ post)
    with ("Router operating mode: " +:+ String c w +:+ post).
  destruct ("Router operating mode: " +:+ String c w +:+ post) eqn:E;
    cbn [search_from]; rewrite <- E, operatingmode_match_at by done; reflexivity.
Qed.

(** C9, as the code has it: [operatingmode] is [autonomous] when the first
    (leftmost) occurrence of the mode pattern in the text has a word that
    contains [autonomous] in any letter case, or when [iostype] is [IOS], and
    [controller] in every other case; with [iostype = IOS] it is [autonomous]
    whatever the text.  The last part spells the first occurrence out: in a
    text whose first [Router] opens a mode line, the word of that line
    decides. *)
Theorem C9_operatingmode_first_match :
  (forall data, parse_operatingmode data "IOS" = "autonomous")
  /\ (forall data iostype m,
       re_search NOFLAG operatingmode_re data = Some m ->
       contains "autonomous" (lower (group1 m)) = true ->
       parse_operatingmode data iostype = "autonomous")
  /\ (forall data iostype m,
       iostype <> "IOS" ->
       re_search NOFLAG operatingmode_re data = Some m ->
       contains "autonomous" (lower (group1 m)) = false ->
       parse_operatingmode data iostype = "controller")
  /\ (forall data iostype,
       iostype <> "IOS" ->
       re_search NOFLAG operatingmode_re data = None ->
       parse_operatingmode data iostype = "controller")
  /\ (forall pre word post iostype,
       contains "Router" (pre +:+ "Route") = false ->
       word <> EmptyString ->
       all_chars (fun d => negb (isspace d)) word = true ->
       stops (fun d => negb (isspace d)) post ->
       parse_operatingmode (pre +:+ "Router operating mode: " +:+ word +:+ post) iostype =
         if contains "autonomous" (lower word) || bool_decide (iostype = "IOS")
         then "autonomous" else "controller").
Proof.
  unfold parse_operatingmode. repeat split.
  - intros data. rewrite bool_decide_eq_true_2 by done. by rewrite orb_true_r.
  - intros data iostype m -> ->. done.
  - intros data iostype m Hne -> ->. by rewrite bool_decide_eq_false_2.
  - intros data iostype Hne ->. by rewrite bool_decide_eq_false_2.
  - intros pre word post iostype Hpre Hne Hw Hpost.
    destruct word as [|c w]; [done|]. simpl in Hw. apply andb_prop in Hw as [Hc Hw].
    apply negb_true_iff in Hc.
    by rewrite operatingmode_search.
Qed.

(** The theorem at a legacy text without mode line, at a text whose mode line
    says [Autonomous], and at the two-line text. *)
Lemma C9_operatingmode_witness :
  parse_operatingmode "Cisco IOS Software" "IOS" = "autonomous"
  /\ parse_operatingmode "Router operating mode: Autonomous" "IOS-XE" = "autonomous"
  /\ parse_operatingmode two_mode_lines "IOS-XE" = "controller"
  /\ parse_operatingmode "Cisco IOS XE Software" "IOS-XE" = "controller"
  /\ parse_operatingmode two_mode_lines "IOS-XE" =
       (if contains "autonomous" (lower "Controller-Managed")
           || bool_decide ("IOS-XE" = "IOS")
        then "autonomous" else "controller").
Proof.
  destruct C9_operatingmode_first_match as (H1 & H2 & H3 & H4 & H5).
  split; [apply H1|]. split; [|split; [|split]].
  - apply (H2 _ _ [(1, "Autonomous")]); vm_compute; reflexivity.
  - apply (H3 _ _ [(1, "Controller-Managed")]);
      [discriminate | vm_compute; reflexivity | vm_compute; reflexivity].
  - apply H4; [discriminate | vm_compute; reflexivity].
  - apply (H5 EmptyString "Controller-Managed"
              (LF +:+ "Router operating mode: Autonomous") "IOS-XE");
      [vm_compute; reflexivity | discriminate | vm_compute; reflexivity
      | vm_compute; reflexivity].
Defined.

(** C9, as the specification words it, fails: the second line of the text
    matches the mode pattern with the word [Autonomous], so the specification
    gives [autonomous]; the code looks at the first occurrence only and gives
    [controller]. *)
Lemma C9_later_line_counterexample :
  line_reports_autonomous "Router operating mode: Autonomous" = true
  /\ split LF two_mode_lines =
       ["Router operating mode: Controller-Managed"; "Router operating mode: Autonomous"]
  /\ spec_operatingmode two_mode_lines "IOS-XE" = "autonomous"
  /\ parse_operatingmode two_mode_lines "IOS-XE" = "controller".
Proof. repeat split; vm_compute; reflexivity. Qed.

End DefaultFacts.

Module InterfacesFacts.
Import Py Re Interfaces Samples LoopFacts PyFacts.

Lemma parse_lines_skips_empty l1 l2 :
  parse_lines (l1 ++ EmptyString :: l2) = parse_lines (l1 ++ l2).
Proof.
  unfold parse_lines. rewrite !for_each_app.
  destruct (for_each parse_interfaces_line l1 (EmptyString, [])) as [[key parsed]|e]; done.
Qed.

(** C3, as the code has it: the two-line input gives one block keyed [Gi0/1]
    whose text is the two lines joined by a line feed, the second line with
    its indentation; and an empty line never ends a block: taking an empty line
    out of the input, wherever it stands, changes nothing in the result. *)
Theorem C3_block_parser :
  parse_interfaces two_line_block =
    Ok [("Gi0/1", "Gi0/1 line one" +:+ LF +:+ "  continuation")]
  /\ (forall l1 l2, parse_lines (l1 ++ EmptyString :: l2) = parse_lines (l1 ++ l2))
  /\ (forall d1 d2,
       parse_interfaces (d1 +:+ LF +:+ LF +:+ d2) = parse_interfaces (d1 +:+ LF +:+ d2)).
Proof.
  split; [vm_compute; reflexivity|]. split; [exact parse_lines_skips_empty|].
  intros d1 d2. unfold parse_interfaces.
  rewrite !split_LF_app, split_LF_cons. by rewrite parse_lines_skips_empty.
Qed.

(** C3, as the specification words it, fails: the block of the two-line input
    keeps the two blanks before [continuation]. *)
Lemma C3_indentation_counterexample :
  parse_interfaces two_line_block =
    Ok [("Gi0/1", "Gi0/1 line one" +:+ LF +:+ "  continuation")]
  /\ ODict.get [("Gi0/1", "Gi0/1 line one" +:+ LF +:+ "  continuation")] "Gi0/1"
     <> Some spec_block.
Proof. split; [vm_compute; reflexivity | vm_compute; discriminate]. Qed.

(** An answer whose first line is indented makes the block parser append to
    a block that does not exist. *)
Lemma parse_interfaces_indented_first s :
  parse_interfaces (String " " s) = Raise KeyError.
Proof.
  unfold parse_interfaces, parse_lines.
  destruct (split_LF_blank_first s) as (w & tl & ->). reflexivity.
Qed.

(** C5 fails on the code.  An error answer that opens with the indented caret
    line makes the block parser append to a block that does not exist: a
    [KeyError] leaves [parse_interfaces] and, through it, the whole extractor;
    so does every answer whose first character is a blank.  An empty answer to
    [show interfaces] followed by a proper answer to [show ip interface] ends
    the same way, in the handler that creates the missing record.  Empty text
    alone is handled. *)
Theorem C5_error_text_raises :
  parse_interfaces invalid_input_text = Raise KeyError
  /\ (forall s, parse_interfaces (String " " s) = Raise KeyError)
  /\ (forall normalize_interface,
       populate normalize_interface
         EmptyString invalid_input_text EmptyString EmptyString EmptyString [] []
       = Raise KeyError)
  /\ (forall normalize_interface,
       populate normalize_interface
         EmptyString ip_block_vlan1 EmptyString EmptyString EmptyString [] []
       = Raise KeyError)
  /\ parse_interfaces EmptyString = Ok [].
Proof.
  split; [vm_compute; reflexivity|].
  split; [exact parse_interfaces_indented_first|].
  repeat split; intros; vm_compute; reflexivity.
Qed.

End InterfacesFacts.

Module NeighborFacts.
Import Py Re Interfaces Samples.

(** A segment that is not empty and has no local interface ends the loop:
    what follows it is never looked at. *)
Lemma neighbors_loop_truncates norm s post : forall pre facts,
  s <> EmptyString -> parse_lldp_intf s = None ->
  neighbors_loop norm (pre ++ s :: post) facts = neighbors_loop norm pre facts.
Proof.
  intros pre facts Hne Hnone. revert facts.
  induction pre as [|e pre IH]; intros facts; simpl.
  - rewrite bool_decide_eq_false_2 by done. by rewrite Hnone.
  - case_bool_decide; [apply IH|].
    destruct (parse_lldp_intf e); [apply IH | done].
Qed.

(** An empty segment is passed over. *)
Lemma neighbors_loop_skips_empty norm post : forall pre facts,
  neighbors_loop norm (pre ++ EmptyString :: post) facts =
  neighbors_loop norm (pre ++ post) facts.
Proof.
  induction pre as [|e pre IH]; intros facts; simpl.
  - reflexivity.
  - case_bool_decide; [apply IH|].
    destruct (parse_lldp_intf e); [apply IH | done].
Qed.

(** C4, as the code has it: when the text splits into three segments and the
    second one is not empty and has no [Local Intf:] line, the result is what
    the first segment alone gives, its record and nothing else; in general the
    first non-empty segment without local interface cuts off everything after
    it, while an empty segment is passed over and cuts off nothing. *)
Theorem C4_neighbor_truncation :
  forall normalize_interface : string -> string,
  (forall text s1 s2 s3,
     split lldp_separator text = [s1; s2; s3] ->
     s2 <> EmptyString ->
     parse_lldp_intf s2 = None ->
     parse_neighbors normalize_interface text =
       neighbors_loop normalize_interface [s1] ∅
     /\ (forall intf,
          parse_lldp_intf s1 = Some intf ->
          parse_neighbors normalize_interface text =
            {[ normalize_interface intf := [lldp_fact s1] ]}))
  /\ (forall pre s post facts,
       s <> EmptyString ->
       parse_lldp_intf s = None ->
       neighbors_loop normalize_interface (pre ++ s :: post) facts =
       neighbors_loop normalize_interface pre facts)
  /\ (forall pre post facts,
       neighbors_loop normalize_interface (pre ++ EmptyString :: post) facts =
       neighbors_loop normalize_interface (pre ++ post) facts).
Proof.
  intros norm. split; [|split].
  - intros text s1 s2 s3 Hsplit Hne Hnone.
    assert (parse_neighbors norm text = neighbors_loop norm [s1] ∅) as Hcut.
    { unfold parse_neighbors. rewrite Hsplit.
      apply (neighbors_loop_truncates norm s2 [s3] [s1] ∅ Hne Hnone). }
    split; [exact Hcut|]. intros intf Hsome. rewrite Hcut.
    cbn [neighbors_loop].
    rewrite bool_decide_eq_false_2 by (intros ->; vm_compute in Hsome; discriminate).
    rewrite Hsome, lookup_empty. reflexivity.
  - intros. by apply neighbors_loop_truncates.
  - intros. apply neighbors_loop_skips_empty.
Qed.

(** The theorem at the three sample segments. *)
Lemma C4_neighbor_truncation_witness :
  parse_neighbors (fun name => name) lldp_three_segments =
    {[ "Gi0/1" := [lldp_fact lldp_seg1] ]}.
Proof.
  apply (proj1 (C4_neighbor_truncation (fun name => name))
           lldp_three_segments lldp_seg1 lldp_seg2 lldp_seg3).
  - vm_compute. reflexivity.
  - vm_compute. discriminate.
  - vm_compute. reflexivity.
  - vm_compute. reflexivity.
Defined.

(** C4, as the specification words it, fails: the text splits into three
    segments, the second (empty) segment has no [Local Intf:] line, and yet the
    record of the third segment is in the result. *)
Lemma C4_empty_segment_counterexample :
  split lldp_separator lldp_empty_middle = [lldp_seg1; EmptyString; lldp_seg3]
  /\ parse_lldp_intf EmptyString = None
  /\ parse_neighbors (fun name => name) lldp_empty_middle !! "Gi0/3"
     = Some [lldp_fact lldp_seg3]
  /\ parse_neighbors (fun name => name) lldp_empty_middle
     <> {[ "Gi0/1" := [lldp_fact lldp_seg1] ]}.
Proof.
  assert (parse_neighbors (fun name => name) lldp_empty_middle !! "Gi0/3"
          = Some [lldp_fact lldp_seg3]) as H by (vm_compute; reflexivity).
  split; [vm_compute; reflexivity|]. split; [vm_compute; reflexivity|].
  split; [exact H|].
  intros E. rewrite E in H. vm_compute in H. discriminate.
Qed.

End NeighborFacts.

Module AddressFacts.
Import Py Re Interfaces Samples Shapes LoopFacts.

Lemma add_ip_address_interfaces a f st :
  interfaces (add_ip_address a f st) = interfaces st.
Proof. unfold add_ip_address. by case_bool_decide. Qed.

Lemma append_entry_ok family key entry st i rec l :
  interfaces st = Some i -> i !! key = Some rec -> rec !! family = Some (VList l) ->
  append_entry family key entry st =
    Ok (set_interfaces (<[key := <[family := VList (l ++ [VDict entry])]> rec]> i) st).
Proof.
  intros Hi Hk Hf. unfold append_entry, get_interfaces, getitem.
  rewrite Hi. simpl. rewrite Hk. simpl. by rewrite Hf.
Qed.

(** The [try] / [except] of both passes: afterwards the record of [key] is the
    base record with an empty list under [family]. *)
Lemma reset_or_create_spec family key value st i :
  interfaces st = Some i -> family <> "operstatus" ->
  exists st1,
    reset_or_create family key value st = Ok st1
    /\ interfaces st1 = Some (<[key := <[family := VList []]> (base_record family i key value)]> i).
Proof.
  intros Hi Hf. unfold reset_or_create, base_record. rewrite Hi.
  destruct (i !! key) as [rec|] eqn:Hk.
  - eexists. split; [reflexivity | done].
  - rewrite insert_insert_eq. unfold parse_deleted_status, created_record.
    case_bool_decide as Hd.
    + unfold get_interfaces, getitem. simpl. rewrite lookup_insert_eq. simpl.
      eexists. split; [reflexivity|]. simpl. rewrite insert_insert_eq.
      f_equal. f_equal. rewrite (insert_insert_ne _ family "operstatus") by done.
      by rewrite insert_insert_eq.
    + eexists. split; [reflexivity|]. simpl. by rewrite insert_insert_eq.
Qed.

(** The loop over the address pairs of one IPv6 block: it cannot fail, and it
    appends the entries in order. *)
Lemma ipv6_loop key : forall pairs st i rec l,
  interfaces st = Some i -> i !! key = Some rec -> rec !! "ipv6" = Some (VList l) ->
  exists st',
    for_each (ipv6_address key) pairs st = Ok st'
    /\ interfaces st' = Some (<[key := <["ipv6" := VList (l ++ entries pairs)]> rec]> i).
Proof.
  induction pairs as [|[a s] pairs IH]; intros st i rec l Hi Hk Hf.
  - exists st. split; [done|]. simpl. rewrite app_nil_r.
    by rewrite (insert_id rec), (insert_id i).
  - simpl. unfold ipv6_address at 1.
    erewrite append_entry_ok; [|by rewrite add_ip_address_interfaces|done..].
    simpl.
    edestruct IH as (st' & Hrun & Hres);
      [| | | exists st'; split; [exact Hrun|]; rewrite Hres ].
    + reflexivity.
    + apply lookup_insert_eq.
    + apply lookup_insert_eq.
    + rewrite !insert_insert_eq, <- app_assoc. reflexivity.
Qed.

(** One IPv6 block: the pass cannot fail once [interfaces] exists, and the
    address list of the block's record is the list of pairs of matches. *)
Lemma populate_ipv6_item_spec key value st i :
  interfaces st = Some i ->
  exists st',
    populate_ipv6_item (key, value) st = Ok st'
    /\ interfaces st' =
         Some (<[key := <["ipv6" :=
                  VList (entries (zip (re_findall M ipv6_address_re value)
                                      (re_findall M ipv6_subnet_re value)))]>
                  (base_record "ipv6" i key value)]> i).
Proof.
  intros Hi. unfold populate_ipv6_item.
  destruct (reset_or_create_spec "ipv6" key value st i Hi) as (st1 & -> & Hi1); [done|].
  simpl.
  edestruct (ipv6_loop key) as (st' & Hrun & Hres);
    [exact Hi1 | apply lookup_insert_eq | apply lookup_insert_eq |].
  exists st'. split; [exact Hrun|]. rewrite Hres. simpl.
  by rewrite !insert_insert_eq.
Qed.

(** Inside a block a subnet line is itself a match of the address pattern
    (the line feed before it is white space, its indentation is the address):
    when address and subnet lines take turns, the second subnet goes with the
    second match of the address pattern, which is the first subnet line. *)
Lemma ipv6_interleaved_example :
  re_findall M ipv6_address_re ipv6_block_interleaved =
    ["2001:DB8::1"; " "; "2001:DB8::2"; " "]
  /\ re_findall M ipv6_subnet_re ipv6_block_interleaved =
      ["2001:DB8:A::/64"; "2001:DB8:B::/64"]
  /\ (st ← populate_ipv6_interfaces [("Vlan10", ipv6_block_interleaved)] facts_with_vlan1;
      i ← get_interfaces st;
      rec ← getitem i "Vlan10";
      getitem rec "ipv6")
     = Ok (VList [VDict (ip_entry "2001:DB8::1" "2001:DB8:A::/64");
                  VDict (ip_entry " " "2001:DB8:B::/64")]).
Proof. repeat split; vm_compute; reflexivity. Qed.

(** With the subnet lines indented by one blank only, a subnet line read
    alone is no match of the address pattern; in the block the line feed
    before it makes it one. *)
Lemma ipv6_taking_turns_example :
  re_findall M ipv6_address_re ipv6_block_taking_turns =
    ["2001:DB8::1"; " "; "2001:DB8::2"; " "]
  /\ re_findall M ipv6_subnet_re ipv6_block_taking_turns =
      ["2001:DB8:A::/64"; "2001:DB8:B::/64"]
  /\ omap (search1 M ipv6_address_re) (split LF ipv6_block_taking_turns) =
      ["2001:DB8::1"; "2001:DB8::2"]
  /\ omap (search1 M ipv6_subnet_re) (split LF ipv6_block_taking_turns) =
      ["2001:DB8:A::/64"; "2001:DB8:B::/64"].
Proof. repeat split; vm_compute; reflexivity. Qed.

(** C6: the IPv6 entries of a block are the matches of the address pattern
    and the matches of the subnet pattern paired by position: entry [n] holds
    the [n]-th match of the address pattern in the block and the [n]-th match
    of the subnet pattern (both stripped), and there are as many entries as
    the shorter list has matches.  The matches are those of [re.findall] over
    the block, not lines: after a line feed a subnet line is itself a match
    of the address pattern, whose address is its indentation.  In the block
    with two address lines followed by two subnet lines, address 0 goes with
    subnet 0 and address 1 with subnet 1, as in the reading by lines; in the
    blocks where the lines take turns, the second entry is the indentation
    of the first subnet line with the second subnet, and the second address
    is in no entry. *)
Theorem C6_ipv6_positional_pairing :
  (forall key value st i,
     interfaces st = Some i ->
     exists st' i' rec l,
       populate_ipv6_item (key, value) st = Ok st'
       /\ interfaces st' = Some i'
       /\ i' !! key = Some rec
       /\ rec !! "ipv6" = Some (VList l)
       /\ length l = min (length (re_findall M ipv6_address_re value))
                         (length (re_findall M ipv6_subnet_re value))
       /\ forall n addr subnet,
            re_findall M ipv6_address_re value !! n = Some addr ->
            re_findall M ipv6_subnet_re value !! n = Some subnet ->
            l !! n = Some (VDict (<["subnet" := VStr (strip subnet)]>
                                    (<["address" := VStr (strip addr)]> ∅))))
  /\ re_findall M ipv6_address_re ipv6_block = ["2001:DB8::1"; "2001:DB8::2"; " "; " "]
  /\ re_findall M ipv6_subnet_re ipv6_block = ["2001:DB8:A::/64"; "2001:DB8:B::/64"]
  /\ (st ← populate_ipv6_interfaces [("Vlan10", ipv6_block)] facts_with_vlan1;
      i ← get_interfaces st;
      rec ← getitem i "Vlan10";
      getitem rec "ipv6")
     = Ok (VList [VDict (ip_entry "2001:DB8::1" "2001:DB8:A::/64");
                  VDict (ip_entry "2001:DB8::2" "2001:DB8:B::/64")])
  /\ spec_ipv6_pairs ipv6_block =
       [("2001:DB8::1", "2001:DB8:A::/64"); ("2001:DB8::2", "2001:DB8:B::/64")]
  /\ re_findall M ipv6_address_re ipv6_block_interleaved =
       ["2001:DB8::1"; " "; "2001:DB8::2"; " "]
  /\ (st ← populate_ipv6_interfaces [("Vlan10", ipv6_block_interleaved)] facts_with_vlan1;
      i ← get_interfaces st;
      rec ← getitem i "Vlan10";
      getitem rec "ipv6")
     = Ok (VList [VDict (ip_entry "2001:DB8::1" "2001:DB8:A::/64");
                  VDict (ip_entry " " "2001:DB8:B::/64")])
  /\ re_findall M ipv6_address_re ipv6_block_taking_turns =
       ["2001:DB8::1"; " "; "2001:DB8::2"; " "]
  /\ (st ← populate_ipv6_interfaces [("Vlan10", ipv6_block_taking_turns)] facts_with_vlan1;
      i ← get_interfaces st;
      rec ← getitem i "Vlan10";
      getitem rec "ipv6")
     = Ok (VList [VDict (ip_entry "2001:DB8::1" "2001:DB8:A::/64");
                  VDict (ip_entry " " "2001:DB8:B::/64")]).
Proof.
  split; [|repeat split; vm_compute; reflexivity].
  intros key value st i Hi.
  destruct (populate_ipv6_item_spec key value st i Hi) as (st' & Hrun & Hres).
  do 4 eexists. split; [exact Hrun|]. split; [exact Hres|].
  split; [apply lookup_insert_eq|]. split; [apply lookup_insert_eq|].
  split.
  - unfold entries. by rewrite length_fmap, length_zip_with.
  - intros n addr subnet Ha Hs. unfold entries.
    rewrite list_lookup_fmap.
    assert (zip (re_findall M ipv6_address_re value) (re_findall M ipv6_subnet_re value) !! n
            = Some (addr, subnet)) as ->.
    { apply lookup_zip_with_Some. eauto. }
    reflexivity.
Qed.

(** The theorem at the sample block, for its second pair of matches. *)
Lemma C6_ipv6_positional_pairing_witness :
  exists st' i' rec l,
    populate_ipv6_item ("Vlan10", ipv6_block) facts_with_vlan1 = Ok st'
    /\ interfaces st' = Some i'
    /\ i' !! "Vlan10" = Some rec
    /\ rec !! "ipv6" = Some (VList l)
    /\ l !! 1 = Some (VDict (<["subnet" := VStr "2001:DB8:B::/64"]>
                               (<["address" := VStr "2001:DB8::2"]> ∅))).
Proof.
  destruct (proj1 C6_ipv6_positional_pairing "Vlan10" ipv6_block facts_with_vlan1
              (<["Vlan1" := (∅ : dict)]> ∅) eq_refl)
    as (st' & i' & rec & l & H1 & H2 & H3 & H4 & _ & H6).
  exists st', i', rec, l. repeat (split; [assumption|]).
  apply (H6 1 "2001:DB8::2" "2001:DB8:B::/64"); vm_compute; reflexivity.
Defined.

(** The reading by lines fails where the lines take turns: the second address
    line and the second subnet line are the second pair of that reading, and
    the code pairs the second subnet with the indentation of the first subnet
    line, an empty address once stripped. *)
Lemma C6_taking_turns_counterexample :
  spec_ipv6_pairs ipv6_block_taking_turns =
    [("2001:DB8::1", "2001:DB8:A::/64"); ("2001:DB8::2", "2001:DB8:B::/64")]
  /\ (st ← populate_ipv6_interfaces [("Vlan10", ipv6_block_taking_turns)] facts_with_vlan1;
      i ← get_interfaces st;
      rec ← getitem i "Vlan10";
      getitem rec "ipv6")
     = Ok (VList [VDict (ip_entry "2001:DB8::1" "2001:DB8:A::/64");
                  VDict (ip_entry " " "2001:DB8:B::/64")])
  /\ ip_entry " " "2001:DB8:B::/64" !! "address" = Some (VStr EmptyString)
  /\ entries (spec_ipv6_pairs ipv6_block_taking_turns)
     <> [VDict (ip_entry "2001:DB8::1" "2001:DB8:A::/64");
         VDict (ip_entry " " "2001:DB8:B::/64")].
Proof.
  split; [vm_compute; reflexivity|]. split; [vm_compute; reflexivity|].
  split; [vm_compute; reflexivity|].
  intros H. apply (f_equal (fun l => l !! 1)) in H.
  assert (entries (spec_ipv6_pairs ipv6_block_taking_turns) !! 1 =
          Some (VDict (ip_entry "2001:DB8::2" "2001:DB8:B::/64"))) as E
    by (vm_compute; reflexivity).
  rewrite E in H. cbn [lookup list_lookup] in H.
  assert (ip_entry "2001:DB8::2" "2001:DB8:B::/64" = ip_entry " " "2001:DB8:B::/64") as H'
    by congruence.
  apply (f_equal (fun d => d !! "address")) in H'. vm_compute in H'. discriminate.
Qed.

End AddressFacts.

Module PassFacts.
Import Py Re Interfaces Samples Shapes LoopFacts AddressFacts.

Lemma ipv4_loop key : forall addresses st st' i rec l,
  for_each (ipv4_address key) addresses st = Ok st' ->
  interfaces st = Some i -> i !! key = Some rec -> rec !! "ipv4" = Some (VList l) ->
  exists l', interfaces st' = Some (<[key := <["ipv4" := VList l']> rec]> i).
Proof.
  induction addresses as [|a addresses IH]; intros st st' i rec l Hrun Hi Hk Hf.
  - injection Hrun as <-. exists l. by rewrite (insert_id rec), (insert_id i).
  - simpl in Hrun.
    destruct (ipv4_address key a st) as [st1|] eqn:E; [|discriminate].
    simpl in Hrun. unfold ipv4_address in E.
    destruct (split "/" a) as [|addr [|subnet [|? ?]]]; try discriminate.
    erewrite append_entry_ok in E; [|by rewrite add_ip_address_interfaces|done..].
    injection E as <-.
    eapply IH in Hrun as (l' & Hres);
      [| reflexivity | apply lookup_insert_eq | apply lookup_insert_eq].
    exists l'. rewrite Hres. by rewrite !insert_insert_eq.
Qed.

Lemma populate_ipv4_item_spec key value st st' i :
  populate_ipv4_item (key, value) st = Ok st' -> interfaces st = Some i ->
  exists l,
    interfaces st' =
      Some (<[key := <["ipv4" := VList l]> (base_record "ipv4" i key value)]> i).
Proof.
  intros Hrun Hi. unfold populate_ipv4_item in Hrun.
  destruct (reset_or_create_spec "ipv4" key value st i Hi) as (st1 & E & Hi1); [done|].
  rewrite E in Hrun. simpl in Hrun.
  destruct (re_findall M primary_re value) as [|p ps].
  - injection Hrun as <-. by exists [].
  - eapply ipv4_loop in Hrun as (l' & Hres);
      [| exact Hi1 | apply lookup_insert_eq | apply lookup_insert_eq].
    exists l'. rewrite Hres. by rewrite !insert_insert_eq.
Qed.

Lemma populate_ipv6_item_shape key value st st' i :
  populate_ipv6_item (key, value) st = Ok st' -> interfaces st = Some i ->
  exists l,
    interfaces st' =
      Some (<[key := <["ipv6" := VList l]> (base_record "ipv6" i key value)]> i).
Proof.
  intros Hrun Hi.
  destruct (populate_ipv6_item_spec key value st i Hi) as (st2 & Hrun2 & Hres).
  rewrite Hrun in Hrun2. injection Hrun2 as <-. eauto.
Qed.

(** The IPv6 pass cannot fail once [interfaces] exists. *)
Lemma populate_ipv6_total : forall data st i,
  interfaces st = Some i -> exists st', populate_ipv6_interfaces data st = Ok st'.
Proof.
  unfold populate_ipv6_interfaces.
  induction data as [|[key value] data IH]; intros st i Hi; cbn [for_each]; [eauto|].
  destruct (populate_ipv6_item_spec key value st i Hi) as (st1 & -> & Hi1).
  simpl. eapply IH. exact Hi1.
Qed.

Section Pass.

Variable family : string.
Variable item : string * string -> facts -> result facts.
Hypothesis family_ne : family <> "operstatus".
Hypothesis item_shape : forall key value st st' i,
  item (key, value) st = Ok st' -> interfaces st = Some i ->
  exists l,
    interfaces st' =
      Some (<[key := <[family := VList l]> (base_record family i key value)]> i).

Lemma created_record_shape value : lazily_created family value (created_record family value).
Proof.
  unfold lazily_created, created_record. case_bool_decide.
  - split; [apply lookup_insert_eq|]. split.
    + rewrite lookup_insert_ne by done. rewrite lookup_insert_eq. eauto.
    + intros k Hk1 Hk2. by rewrite !lookup_insert_ne.
  - split; [by rewrite lookup_insert_ne|]. split.
    + rewrite lookup_insert_eq. eauto.
    + intros k Hk1 Hk2. by rewrite lookup_insert_ne.
Qed.

Lemma lazily_created_update value rec l :
  lazily_created family value rec ->
  lazily_created family value (<[family := VList l]> rec).
Proof.
  intros (Ho & Hf & Hrest). split; [by rewrite lookup_insert_ne|]. split.
  - rewrite lookup_insert_eq. eauto.
  - intros k Hk1 Hk2. rewrite lookup_insert_ne by done. by apply Hrest.
Qed.

(** A record of the created shape keeps it through the rest of the pass. *)
Lemma pass_keeps k v : forall data st st' i rec,
  for_each item data st = Ok st' ->
  interfaces st = Some i -> i !! k = Some rec -> lazily_created family v rec ->
  exists i' rec',
    interfaces st' = Some i' /\ i' !! k = Some rec' /\ lazily_created family v rec'.
Proof.
  induction data as [|[key value] data IH]; intros st st' i rec Hrun Hi Hk Hshape.
  - injection Hrun as <-. eauto.
  - simpl in Hrun. destruct (item (key, value) st) as [st1|] eqn:E; [|discriminate].
    simpl in Hrun. destruct (item_shape _ _ _ _ _ E Hi) as (l & Hi1).
    destruct (decide (key = k)) as [->|Hne].
    + eapply IH; [exact Hrun | exact Hi1 | apply lookup_insert_eq |].
      unfold base_record. rewrite Hk. by apply lazily_created_update.
    + eapply IH; [exact Hrun | exact Hi1 | by rewrite lookup_insert_ne | exact Hshape].
Qed.

(** The pass creates the record at the first block of an unknown name. *)
Lemma pass_creates k v : forall data st st' i,
  for_each item data st = Ok st' ->
  interfaces st = Some i -> i !! k = None -> ODict.get data k = Some v ->
  exists i' rec',
    interfaces st' = Some i' /\ i' !! k = Some rec' /\ lazily_created family v rec'.
Proof.
  induction data as [|[key value] data IH]; intros st st' i Hrun Hi Hk Hget.
  - discriminate.
  - simpl in Hrun. destruct (item (key, value) st) as [st1|] eqn:E; [|discriminate].
    simpl in Hrun. destruct (item_shape _ _ _ _ _ E Hi) as (l & Hi1).
    simpl in Hget. destruct (String.eqb_spec key k) as [->|Hne].
    + injection Hget as ->.
      eapply pass_keeps; [exact Hrun | exact Hi1 | apply lookup_insert_eq |].
      unfold base_record. rewrite Hk.
      apply lazily_created_update, created_record_shape.
    + eapply IH; [exact Hrun | exact Hi1 | by rewrite lookup_insert_ne | exact Hget].
Qed.

End Pass.

End PassFacts.

Module ConfigMore.
Import Py Re ReSpec ReFacts Config.

Lemma starts_with_app p1 p2 : forall s s1 s2,
  starts_with p1 s = Some s1 -> starts_with p2 s1 = Some s2 ->
  starts_with (p1 +:+ p2) s = Some s2.
Proof.
  induction p1 as [|a p1 IH]; intros s s1 s2 H1 H2.
  - by injection H1 as ->.
  - destruct s as [|b s]; simpl in *; [discriminate|].
    destruct (ascii_eqb a b); [|discriminate]. by eapply IH.
Qed.

(** The banner pattern matches only where [Building configuration] and a line
    feed stand. *)
Lemma banner_needs_literal cur :
  starts_with ("Building configuration" +:+ LF) (rest cur) = None ->
  match_at M banner_re cur = None.
Proof.
  intros Hs. destruct (match_at M banner_re cur) as [[cs cur']|] eqn:E; [|done].
  apply match_at_sound in E. unfold banner_re in E. cbn [cat foldr] in E.
  inversion E as [| | | | | | |? ? ? ? cur1 cs1 ? ? Hbol Hrest| | | | |]; subst.
  inversion Hbol; subst.
  inversion Hrest as [| | | | | | |? ? ? ? cur2 cs2 ? ? Hlit1 Hrest2| | | | |]; subst.
  inversion Hrest2 as [| | | | | | |? ? ? ? cur3 cs3 ? ? Hlit2 _| | | | |]; subst.
  apply (matches_lit M "Building configuration") in Hlit1.
  apply (matches_lit M LF) in Hlit2.
  rewrite (starts_with_app _ _ _ _ _ Hlit1 Hlit2) in Hs. discriminate.
Qed.

Lemma sub_banner_no_occurrence : forall s bef,
  contains ("Building configuration" +:+ LF) s = false ->
  sub_from M banner_re EmptyString bef s 0 = s.
Proof.
  induction s as [|c s IH]; intros bef Hc.
  - cbn [sub_from]. by rewrite banner_needs_literal.
  - apply contains_cons in Hc as [Hs Hc].
    cbn [sub_from]. rewrite banner_needs_literal by done. by rewrite IH.
Qed.

(** X1: the running configuration is stored as it is whenever the words
    [Building configuration] are nowhere in it followed directly by a line
    feed; and an empty answer stores nothing. *)
Theorem config_stored_verbatim :
  (forall data facts,
     data <> EmptyString ->
     contains ("Building configuration" +:+ LF) data = false ->
     populate data facts = <["config" := VStr data]> facts)
  /\ (forall facts, populate EmptyString facts = facts).
Proof.
  split; [|done]. intros data facts Hne Hc. unfold populate.
  destruct data as [|c data]; [done|]. cbn [truthy].
  unfold re_sub. by rewrite sub_banner_no_occurrence.
Qed.

Lemma config_stored_verbatim_witness :
  populate (Samples.banner +:+ Samples.config_body) ∅ =
    <["config" := VStr (Samples.banner +:+ Samples.config_body)]> ∅.
Proof.
  apply (proj1 config_stored_verbatim); [discriminate | vm_compute; reflexivity].
Defined.

End ConfigMore.

Module ODictFacts.

Lemma get_set_eq {V} (d : ODict.t V) k v : ODict.get (ODict.set d k v) k = Some v.
Proof.
  induction d as [|[k' v'] d IH]; simpl.
  - by rewrite String.eqb_refl.
  - destruct (String.eqb_spec k' k) as [->|Hne]; simpl.
    + by rewrite String.eqb_refl.
    + destruct (String.eqb_spec k' k); [done | apply IH].
Qed.

Lemma get_set_ne {V} (d : ODict.t V) k k' v :
  k <> k' -> ODict.get (ODict.set d k v) k' = ODict.get d k'.
Proof.
  intros Hne. induction d as [|[k0 v0] d IH]; simpl.
  - destruct (String.eqb_spec k k'); [done | reflexivity].
  - destruct (String.eqb_spec k0 k) as [->|Hk]; simpl.
    + destruct (String.eqb_spec k k'); [done | reflexivity].
    + destruct (String.eqb_spec k0 k'); [done | apply IH].
Qed.

Lemma get_Some_keys {V} (d : ODict.t V) k :
  is_Some (ODict.get d k) <-> k ∈ ODict.keys d.
Proof.
  unfold ODict.keys. induction d as [|[k' v'] d IH]; simpl.
  - split; [by intros [? ?] | by intros ?%elem_of_nil].
  - destruct (String.eqb_spec k' k) as [->|Hne].
    + split; [intros _; apply list_elem_of_here | eauto].
    + rewrite IH. split; [apply list_elem_of_further|].
      intros [?|?]%elem_of_cons; [congruence | done].
Qed.

(** Storing under a key keeps the keys in place; a new key goes last. *)
Lemma keys_set_old {V} (d : ODict.t V) k v :
  k ∈ ODict.keys d -> ODict.keys (ODict.set d k v) = ODict.keys d.
Proof.
  unfold ODict.keys. induction d as [|[k' v'] d IH]; cbn [ODict.set fmap list_fmap fst].
  - by intros ?%elem_of_nil.
  - intros Hin. destruct (String.eqb_spec k' k) as [->|Hne]; [done|].
    cbn [fmap list_fmap fst]. f_equal. apply IH.
    apply elem_of_cons in Hin as [?|?]; [congruence | done].
Qed.

Lemma keys_set_new {V} (d : ODict.t V) k v :
  k ∉ ODict.keys d -> ODict.keys (ODict.set d k v) = ODict.keys d ++ [k].
Proof.
  unfold ODict.keys. induction d as [|[k' v'] d IH]; cbn [ODict.set fmap list_fmap fst].
  - done.
  - intros Hin. apply not_elem_of_cons in Hin as [Hne Hin].
    destruct (String.eqb_spec k' k) as [->|_]; [done|].
    cbn [fmap list_fmap fst app]. f_equal. by apply IH.
Qed.

Lemma NoDup_keys_set {V} (d : ODict.t V) k v :
  NoDup (ODict.keys d) -> NoDup (ODict.keys (ODict.set d k v)).
Proof.
  intros Hnd. destruct (decide (k ∈ ODict.keys d)) as [Hin|Hin].
  - by rewrite keys_set_old.
  - rewrite keys_set_new by done.
    apply NoDup_app. split; [done|]. split; [|apply NoDup_singleton].
    intros x Hx ->%list_elem_of_singleton. done.
Qed.

Lemma Forall_set {V} (P : string * V -> Prop) (d : ODict.t V) k v :
  Forall P d -> P (k, v) -> Forall P (ODict.set d k v).
Proof.
  intros Hd Hkv. induction d as [|[k' v'] d IH]; simpl.
  - by constructor.
  - inversion Hd; subst. destruct (String.eqb k' k); constructor; auto.
Qed.

Lemma get_Forall {V} (P : string * V -> Prop) (d : ODict.t V) k v :
  Forall P d -> ODict.get d k = Some v -> P (k, v).
Proof.
  intros Hd. induction d as [|[k' v'] d IH]; simpl; [done|].
  inversion Hd; subst. destruct (String.eqb_spec k' k) as [->|]; [|auto].
  by intros [= <-].
Qed.

End ODictFacts.

Module BlockFacts.
Import Py Re ReSpec ReFacts Interfaces Readings LoopFacts ODictFacts.

Lemma starts_with_take n : forall s, is_Some (starts_with (take n s) s).
Proof.
  induction n as [|n IH]; intros s; [by eexists|].
  destruct s as [|c s]; [by eexists|]. simpl.
  unfold ascii_eqb. rewrite Ascii.eqb_refl. apply IH.
Qed.

Lemma starts_with_app_r p : forall s t u,
  starts_with p s = Some t -> starts_with p (s +:+ u) = Some (t +:+ u).
Proof.
  induction p as [|a p IH]; intros s t u H.
  - by injection H as ->.
  - destruct s as [|b s]; simpl in *; [discriminate|].
    destruct (ascii_eqb a b); [by apply IH | discriminate].
Qed.

Lemma rmatch_group {R} fl n r cur cs (k : cursor -> caps -> option R) :
  rmatch fl (Group n r) cur cs k =
  rmatch fl r cur cs (fun cur' cs' =>
    k cur' ((n, take (String.length (rest cur) - String.length (rest cur')) (rest cur)) :: cs')).
Proof. reflexivity. Qed.

Lemma key_match_blank c s :
  isspace c = true -> re_match NOFLAG key_re (String c s) = None.
Proof.
  intros Hc. unfold re_match, match_at, key_re, at_start. cbn [cat foldr].
  rewrite rmatch_seq, rmatch_bol. cbn [bol_ok before].
  rewrite rmatch_seq, rmatch_group, rmatch_plus.
  unfold atom_ok, nonspace. by rewrite Hc.
Qed.

Lemma key_match_some c s :
  isspace c = false -> is_Some (re_match NOFLAG key_re (String c s)).
Proof.
  intros Hc. unfold re_match, match_at, key_re, at_start. cbn [cat foldr].
  rewrite rmatch_seq, rmatch_bol. cbn [bol_ok before].
  rewrite rmatch_seq, rmatch_group, rmatch_plus.
  unfold atom_ok, nonspace. rewrite Hc. cbn [negb].
  edestruct (star_greedy_some (R := caps * cursor) NOFLAG (AClass (fun c => negb (isspace c))))
    as [r ->]; [|by eexists].
  intros cur. cbn [rmatch]. eauto.
Qed.

(** What the key pattern reports: one group, a non-empty word without white
    space that opens the line. *)
Lemma key_match_sound line m :
  re_match NOFLAG key_re line = Some m ->
  exists w, m = [(1, w)] /\ block_ok (w, line).
Proof.
  intros H. apply re_match_sound in H as (cur' & H).
  unfold key_re in H. cbn [cat foldr] in H.
  inversion H as [| | | | | | |? ? ? ? cur1 cs1 ? ? Hbol Hrest| | | | |]; subst.
  inversion Hbol; subst.
  inversion Hrest as [| | | | | | |? ? ? ? cur2 cs2 ? ? Hgrp Heps| | | | |]; subst.
  inversion Heps; subst.
  inversion Hgrp as [| | | | | | | | | |? ? ? ? ? cs3 Hplus| |]; subst.
  assert (cs3 = []) as -> by (by inversion Hplus).
  eexists. split; [reflexivity|].
  destruct (plus_class_capture _ _ _ _ _ _ Hplus) as [Hne Hall].
  repeat split; [exact Hne | exact Hall | apply starts_with_take].
Qed.

Lemma line_ignored line st :
  kind_of line = Ignored -> parse_interfaces_line line st = Ok st.
Proof.
  destruct st as [key parsed]. destruct line as [|c s]; [done|].
  unfold kind_of, parse_interfaces_line.
  destruct (ascii_eqb c " "); [done|].
  destruct (isspace c) eqn:Hc; [|done]. intros _.
  change (cat [Bol; Group 1 (Plus nonspace)]) with key_re.
  by rewrite key_match_blank.
Qed.

Lemma line_key line key parsed :
  kind_of line = KeyLine ->
  exists w, parse_interfaces_line line (key, parsed) = Ok (w, ODict.set parsed w line)
            /\ block_ok (w, line).
Proof.
  destruct line as [|c s]; [done|].
  unfold kind_of, parse_interfaces_line.
  destruct (ascii_eqb c " "); [done|].
  destruct (isspace c) eqn:Hc; [done|]. intros _.
  change (cat [Bol; Group 1 (Plus nonspace)]) with key_re.
  destruct (key_match_some c s Hc) as [m Hm]. rewrite Hm.
  destruct (key_match_sound _ _ Hm) as (w & -> & Hok). by exists w.
Qed.

Lemma line_continuation line key parsed :
  kind_of line = Continuation ->
  parse_interfaces_line line (key, parsed) =
    match ODict.get parsed key with
    | Some block => Ok (key, ODict.set parsed key (block +:+ LF +:+ line))
    | None => Raise KeyError
    end.
Proof.
  destruct line as [|c s]; [done|].
  unfold kind_of, parse_interfaces_line.
  destruct (ascii_eqb c " "); [done|]. by destruct (isspace c).
Qed.

Lemma loop_ok_step line st st' :
  loop_ok st -> parse_interfaces_line line st = Ok st' ->
  loop_ok st' /\ (snd st <> [] \/ kind_of line = KeyLine -> snd st' <> []).
Proof.
  destruct st as [key parsed]. intros (Hnd & Hall & Hkey) Hstep.
  destruct (kind_of line) eqn:Hk.
  - rewrite line_ignored in Hstep by done. injection Hstep as <-.
    split; [done|]. intros [?|?]; done.
  - rewrite line_continuation in Hstep by done. cbn [fst snd] in *.
    destruct (ODict.get parsed key) as [block|] eqn:Hget; [|discriminate].
    injection Hstep as <-. split.
    + split; [by apply NoDup_keys_set|]. split.
      * apply Forall_set; [done|].
        destruct (get_Forall _ _ _ _ Hall Hget) as (H1 & H2 & [t H3]).
        repeat split; [done..|]. cbn [fst snd] in *.
        erewrite starts_with_app_r by done. eauto.
      * right. cbn [fst snd]. rewrite get_set_eq. eauto.
    + intros _. cbn [snd]. destruct parsed as [|[k0 v0] parsed]; [done|].
      simpl. by destruct (String.eqb k0 key).
  - destruct (line_key line key parsed Hk) as (w & Hw & Hok).
    rewrite Hw in Hstep. injection Hstep as <-. split.
    + split; [by apply NoDup_keys_set|]. split.
      * by apply Forall_set.
      * right. cbn [fst snd]. rewrite get_set_eq. eauto.
    + intros _. cbn [snd]. destruct parsed as [|[k0 v0] parsed]; [done|].
      simpl. by destruct (String.eqb k0 w).
Qed.

Lemma parse_lines_ok : forall lines st st',
  loop_ok st -> for_each parse_interfaces_line lines st = Ok st' -> loop_ok st'.
Proof.
  induction lines as [|line lines IH]; intros st st' Hok Hrun.
  - by injection Hrun as <-.
  - simpl in Hrun. destruct (parse_interfaces_line line st) as [st1|] eqn:E; [|discriminate].
    simpl in Hrun. eapply IH; [|exact Hrun]. by eapply loop_ok_step.
Qed.

(** Once a block exists, nothing makes the loop fail. *)
Lemma parse_lines_total : forall lines st,
  loop_ok st -> snd st <> [] -> exists st', for_each parse_interfaces_line lines st = Ok st'.
Proof.
  induction lines as [|line lines IH]; intros [key parsed] Hok Hne; [by eexists|].
  cbn [for_each].
  assert (exists st1, parse_interfaces_line line (key, parsed) = Ok st1) as [st1 E].
  { destruct (kind_of line) eqn:Hk.
    - rewrite line_ignored by done. eauto.
    - rewrite line_continuation by done.
      destruct Hok as (_ & _ & [?|[b Hb]]); [done|]. cbn [fst snd] in Hb.
      rewrite Hb. eauto.
    - destruct (line_key line key parsed Hk) as (w & -> & _). eauto. }
  rewrite E. simpl.
  destruct (loop_ok_step _ _ _ Hok E) as [Hok1 Hne1]. apply IH; [done|]. auto.
Qed.

(** Unless a line that opens with a blank comes first, the block parser
    returns. *)
Lemma parse_lines_returns lines :
  continuation_before_key lines = false -> exists st, parse_lines lines = Ok st.
Proof.
  unfold parse_lines.
  induction lines as [|line lines IH]; cbn [for_each continuation_before_key];
    [by eexists|].
  destruct (kind_of line) eqn:Hk; [|done|]; intros Hc.
  - rewrite line_ignored by done. by apply IH.
  - destruct (line_key line EmptyString [] Hk) as (w & Hw & Hok).
    unfold ODict.t in *. rewrite Hw. cbn [mbind result_bind ODict.set].
    apply (parse_lines_total lines (w, [(w, line)])); [|done].
    split; [apply NoDup_singleton|]. split; [by constructor|].
    right. simpl. rewrite String.eqb_refl. eauto.
Qed.

Lemma parse_lines_raises lines :
  continuation_before_key lines = true -> parse_lines lines = Raise KeyError.
Proof.
  unfold parse_lines.
  induction lines as [|line lines IH]; cbn [for_each continuation_before_key]; [done|].
  destruct (kind_of line) eqn:Hk; [|by rewrite line_continuation|done]; intros Hc.
  rewrite line_ignored by done. by apply IH.
Qed.

Lemma parse_interfaces_returns data :
  continuation_before_key (split LF data) = false ->
  exists blocks, parse_interfaces data = Ok blocks.
Proof.
  intros Hc. unfold parse_interfaces.
  destruct (parse_lines_returns _ Hc) as [st ->]. by eexists.
Qed.

(** X2: the block parser fails exactly when a line that opens with a blank
    comes before the first line that opens a block (only empty lines and
    lines that open with other white space may stand between); the failure is
    a [KeyError].  In every other case it returns. *)
Theorem parse_interfaces_failure :
  forall data,
    if continuation_before_key (split LF data)
    then parse_interfaces data = Raise KeyError
    else exists blocks, parse_interfaces data = Ok blocks.
Proof.
  intros data. destruct (continuation_before_key (split LF data)) eqn:Hc.
  - unfold parse_interfaces. by rewrite (parse_lines_raises _ Hc).
  - by apply parse_interfaces_returns.
Qed.

(** X3: what the block parser returns is a proper dictionary of blocks: no
    key occurs twice, every key is a non-empty word without white space, and
    the text of every block opens with its key. *)
Theorem parse_interfaces_blocks :
  forall data blocks,
    parse_interfaces data = Ok blocks ->
    NoDup (ODict.keys blocks) /\ Forall block_ok blocks.
Proof.
  intros data blocks H. unfold parse_interfaces, parse_lines in H.
  destruct (for_each parse_interfaces_line (split LF data) (EmptyString, [])) as [st|] eqn:E;
    [|discriminate].
  injection H as <-.
  eapply parse_lines_ok in E as (Hnd & Hall & _); [done|].
  split; [apply NoDup_nil_2|]. split; [constructor | by left].
Qed.

Lemma parse_interfaces_blocks_witness :
  NoDup (ODict.keys [("Gi0/1", Samples.two_line_block)])
  /\ Forall block_ok [("Gi0/1", Samples.two_line_block)].
Proof.
  apply (parse_interfaces_blocks Samples.two_line_block). vm_compute. reflexivity.
Defined.

End BlockFacts.

(** ** The interface records *)

Module RecordFacts.

Import Py Re ReSpec ReFacts BuiltinFacts Interfaces Readings LoopFacts.

Lemma search_from_sound fl r : forall s bef cs,
  search_from fl r bef s = Some cs ->
  exists cur cur', matches fl r cur [] cur' cs.
Proof.
  induction s as [|c s IH]; intros bef cs H; cbn [search_from] in H.
  - destruct (match_at fl r _) as [[cs0 cur']|] eqn:E; [|done].
    injection H as <-. apply match_at_sound in E. eauto.
  - destruct (match_at fl r _) as [[cs0 cur']|] eqn:E.
    + injection H as <-. apply match_at_sound in E. eauto.
    + eauto.
Qed.

Lemma re_search_class_group fl p g r s cs :
  re_search fl r s = Some cs -> class_group p g r -> mandatory g r ->
  exists w, group g cs = Some w /\ w <> EmptyString /\ all_chars p w = true.
Proof.
  intros H Hc Hm. apply search_from_sound in H as (cur & cur' & H).
  destruct (matches_sets_group _ g _ _ _ _ _ H Hm) as [w Hw].
  exists w. split; [done|].
  eapply (matches_class_group _ p g) in H; eauto using caps_in_nil.
Qed.

Lemma class_group_lit p g s : class_group p g (lit s).
Proof. induction s; cbn; auto. Qed.

Lemma count_group fl pre data :
  count_or_none
    (match
       match re_search fl (cat [lit pre; Group 1 (Plus digit)]) data with
       | Some m => z ← int (group 1 m); Ok (VInt z)
       | None => Ok VNone
       end
     with Ok v => Some v | Raise _ => None end).
Proof.
  destruct (re_search fl _ data) as [m|] eqn:E; [|by left].
  destruct (re_search_class_group _ isdigit 1 _ _ _ E) as (w & Hw & Hne & Hd).
  - cbn. split; [apply class_group_lit | done].
  - cbn. right. left. by left.
  - rewrite Hw. destruct (int_ok w Hne Hd) as (z & -> & Hz). right. eauto.
Qed.

Lemma parse_mtu_count data :
  exists v, parse_mtu data = Ok v /\ count_or_none (Some v).
Proof.
  pose proof (count_group NOFLAG "MTU " data) as H. fold (parse_mtu data) in H.
  destruct (parse_mtu data) as [v|e]; [eauto|].
  destruct H as [?|(? & ? & _)]; done.
Qed.

Lemma parse_bandwidth_count data :
  exists v, parse_bandwidth data = Ok v /\ count_or_none (Some v).
Proof.
  pose proof (count_group NOFLAG "BW " data) as H. fold (parse_bandwidth data) in H.
  destruct (parse_bandwidth data) as [v|e]; [eauto|].
  destruct H as [?|(? & ? & _)]; done.
Qed.

Lemma populate_interfaces_item_record key value facts :
  exists rec,
    populate_interfaces_item (key, value) facts = Ok (<[key := rec]> facts)
    /\ interface_record rec.
Proof.
  unfold populate_interfaces_item.
  destruct (parse_mtu_count value) as (mtu & -> & Hmtu).
  destruct (parse_bandwidth_count value) as (bw & -> & Hbw).
  cbn [mbind result_bind]. eexists. split; [reflexivity|].
  unfold interface_record, interface_attributes. split; [|split; [|split]].
  - intros k. rewrite !lookup_insert_is_Some', lookup_empty, !elem_of_cons, elem_of_nil.
    rewrite is_Some_alt. intuition congruence.
  - by simplify_map_eq.
  - by simplify_map_eq.
  - intros k Hk H1 H2.
    repeat (apply elem_of_cons in Hk as [->|Hk]); try done;
      try (simplify_map_eq; by eexists).
    by apply elem_of_nil in Hk.
Qed.

Lemma populate_interfaces_loop : forall blocks facts0,
  map_Forall (fun _ rec => interface_record rec) facts0 ->
  exists facts,
    for_each populate_interfaces_item blocks facts0 = Ok facts
    /\ (forall name,
         is_Some (facts !! name) <->
         name ∈ ODict.keys blocks \/ is_Some (facts0 !! name))
    /\ map_Forall (fun _ rec => interface_record rec) facts.
Proof.
  induction blocks as [|[key value] blocks IH]; intros facts0 H0.
  - exists facts0. split; [done|]. split; [|done].
    intros name. cbn. rewrite elem_of_nil. tauto.
  - cbn [for_each].
    destruct (populate_interfaces_item_record key value facts0) as (rec & -> & Hrec).
    cbn [mbind result_bind].
    destruct (IH (<[key := rec]> facts0)) as (facts & -> & Hdom & Hall).
    { by apply map_Forall_insert_2. }
    exists facts. split; [done|]. split; [|done].
    intros name. rewrite Hdom. cbn. rewrite elem_of_cons, lookup_insert_is_Some.
    destruct (decide (key = name)); intuition congruence.
Qed.

(** X4: when the figures after [MTU ] and [BW ] in the blocks have no more
    digits than [int] takes, [populate_interfaces] does not raise; it returns
    one record for each key of the blocks and nothing else, and every record
    holds exactly the nine attributes: [mtu] and [bandwidth] are [None] or a
    number that is not negative, the seven others are [None] or a text. *)
Theorem populate_interfaces_records :
  forall blocks,
    Forall (fun kv => block_figures_within_limit (snd kv)) blocks ->
    exists facts,
      populate_interfaces blocks = Ok facts
      /\ (forall name, is_Some (facts !! name) <-> name ∈ ODict.keys blocks)
      /\ map_Forall (fun _ rec => interface_record rec) facts.
Proof.
  intros blocks _. unfold populate_interfaces.
  destruct (populate_interfaces_loop blocks ∅) as (facts & H & Hdom & Hall).
  { apply map_Forall_empty. }
  exists facts. split; [done|]. split; [|done].
  intros name. rewrite Hdom, lookup_empty, is_Some_alt. tauto.
Qed.

(** The figures of the sample block are short. *)
Lemma interface_block_figures : block_figures_within_limit Inputs.interface_block.
Proof.
  split; intros m Hm; vm_compute in Hm; injection Hm as <-;
    apply Nat.leb_le; reflexivity.
Qed.

Lemma populate_interfaces_records_witness :
  Forall (fun kv => block_figures_within_limit (snd kv)) [("Vlan1", Inputs.interface_block)]
  /\ exists facts,
       populate_interfaces [("Vlan1", Inputs.interface_block)] = Ok facts
       /\ (forall name, is_Some (facts !! name) <-> name ∈ ["Vlan1"])
       /\ map_Forall (fun _ rec => interface_record rec) facts.
Proof.
  assert (Forall (fun kv => block_figures_within_limit (snd kv))
            [("Vlan1", Inputs.interface_block)]) as H
    by (repeat constructor; apply interface_block_figures).
  exact (conj H (populate_interfaces_records [("Vlan1", Inputs.interface_block)] H)).
Defined.

End RecordFacts.

(** ** The address passes *)

Module AddressMore.

Import Py Re Interfaces Readings Shapes LoopFacts AddressFacts.

Lemma add_ip_address_ipv4 a st :
  add_ip_address a "ipv4" st =
    {| all_ipv4_addresses := all_ipv4_addresses st ++ [a];
       all_ipv6_addresses := all_ipv6_addresses st;
       neighbors := neighbors st;
       interfaces := interfaces st |}.
Proof. unfold add_ip_address. by case_bool_decide. Qed.

Lemma add_ip_address_ipv6 a st :
  add_ip_address a "ipv6" st =
    {| all_ipv4_addresses := all_ipv4_addresses st;
       all_ipv6_addresses := all_ipv6_addresses st ++ [a];
       neighbors := neighbors st;
       interfaces := interfaces st |}.
Proof. unfold add_ip_address. by case_bool_decide. Qed.

(** The [try] / [except] touches nothing but [interfaces]. *)
Lemma reset_or_create_fields family key value st st1 :
  reset_or_create family key value st = Ok st1 ->
  all_ipv4_addresses st1 = all_ipv4_addresses st
  /\ all_ipv6_addresses st1 = all_ipv6_addresses st
  /\ neighbors st1 = neighbors st.
Proof.
  unfold reset_or_create. destruct (interfaces st) as [i|]; [|done].
  destruct (i !! key) as [rec|].
  - by intros [= <-].
  - unfold parse_deleted_status. case_bool_decide.
    + unfold get_interfaces, getitem. cbn. rewrite lookup_insert_eq. cbn. by intros [= <-].
    + by intros [= <-].
Qed.

Lemma frame_refl family i : frame family i i [].
Proof.
  split.
  - intros name. rewrite elem_of_nil. tauto.
  - intros name rec H. by exists rec.
Qed.

Lemma frame_step family i i' key value v keys :
  frame family (<[key := <[family := v]> (base_record family i key value)]> i) i' keys ->
  frame family i i' (key :: keys).
Proof.
  intros [Hdom Hrec]. split.
  - intros name. rewrite Hdom, lookup_insert_is_Some, elem_of_cons.
    destruct (decide (key = name)); intuition congruence.
  - intros name rec Hname. destruct (decide (key = name)) as [->|Hne].
    + destruct (Hrec name (<[family := v]> rec)) as (rec' & H1 & H2).
      { rewrite lookup_insert_eq. unfold base_record. by rewrite Hname. }
      exists rec'. split; [done|]. intros k Hk. rewrite H2 by done.
      by rewrite lookup_insert_ne.
    + apply Hrec. by rewrite lookup_insert_ne.
Qed.

Lemma ipv4_address_step key a st i rec l :
  interfaces st = Some i -> i !! key = Some rec -> rec !! "ipv4" = Some (VList l) ->
  ipv4_address key a st =
    match split_address a with
    | Some (addr, subnet) =>
        Ok (set_interfaces
              (<[key := <["ipv4" := VList (l ++ [VDict (ip_entry addr subnet)])]> rec]> i)
              (add_ip_address (strip addr) "ipv4" st))
    | None => Raise ValueError
    end.
Proof.
  intros Hi Hk Hf. unfold ipv4_address, split_address.
  destruct (split "/" a) as [|addr [|subnet [|? ?]]]; try done.
  erewrite append_entry_ok; [done|by rewrite add_ip_address_interfaces|done..].
Qed.

(** The loop over the addresses of one IPv4 block. *)
Lemma ipv4_loop_entries key : forall addresses st i rec l,
  interfaces st = Some i -> i !! key = Some rec -> rec !! "ipv4" = Some (VList l) ->
  match mapM split_address addresses with
  | Some pairs =>
      exists st',
        for_each (ipv4_address key) addresses st = Ok st'
        /\ interfaces st' = Some (<[key := <["ipv4" := VList (l ++ entries pairs)]> rec]> i)
        /\ all_ipv4_addresses st' = all_ipv4_addresses st ++ flat pairs
        /\ all_ipv6_addresses st' = all_ipv6_addresses st
        /\ neighbors st' = neighbors st
  | None => for_each (ipv4_address key) addresses st = Raise ValueError
  end.
Proof.
  induction addresses as [|a addresses IH]; intros st i rec l Hi Hk Hf.
  - cbn. exists st. rewrite !app_nil_r. by rewrite (insert_id rec), (insert_id i).
  - cbn [mapM for_each]. rewrite (ipv4_address_step key a st i rec l) by done.
    destruct (split_address a) as [[addr subnet]|]; [|done].
    cbn [mbind result_bind option_bind].
    set (st1 := set_interfaces _ _).
    specialize (IH st1 _ _ (l ++ [VDict (ip_entry addr subnet)]) eq_refl
                  (lookup_insert_eq _ _ _) (lookup_insert_eq _ _ _)).
    destruct (mapM split_address addresses) as [pairs|]; [|done].
    destruct IH as (st' & Hrun & H1 & H2 & H3 & H4).
    cbn. exists st'. split; [done|]. rewrite H1, H2, H3, H4. subst st1.
    rewrite add_ip_address_ipv4. cbn.
    rewrite !insert_insert_eq, <- !app_assoc. done.
Qed.

(** One block of the IPv4 pass, when [interfaces] exists. *)
Lemma populate_ipv4_item_entries key value st i :
  interfaces st = Some i ->
  match mapM split_address (ipv4_addresses value) with
  | Some pairs =>
      exists st',
        populate_ipv4_item (key, value) st = Ok st'
        /\ interfaces st' =
             Some (<[key := <["ipv4" := VList (entries pairs)]>
                              (base_record "ipv4" i key value)]> i)
        /\ all_ipv4_addresses st' = all_ipv4_addresses st ++ flat pairs
        /\ all_ipv6_addresses st' = all_ipv6_addresses st
        /\ neighbors st' = neighbors st
  | None => populate_ipv4_item (key, value) st = Raise ValueError
  end.
Proof.
  intros Hi. unfold populate_ipv4_item, ipv4_addresses.
  destruct (reset_or_create_spec "ipv4" key value st i Hi) as (st1 & E & Hi1); [done|].
  rewrite E. cbn [mbind result_bind].
  destruct (reset_or_create_fields _ _ _ _ _ E) as (F1 & F2 & F3).
  destruct (re_findall M primary_re value) as [|p ps].
  - cbn. exists st1. rewrite Hi1, F1, F2, F3, app_nil_r. done.
  - pose proof (ipv4_loop_entries key (re_findall M secondary_re value ++ [p]) st1 _ _ []
                  Hi1 (lookup_insert_eq _ _ _) (lookup_insert_eq _ _ _)) as H.
    destruct (mapM split_address _) as [pairs|]; [|done].
    destruct H as (st' & Hrun & H1 & H2 & H3 & H4).
    exists st'. split; [done|]. rewrite H1, H2, H3, H4, F1, F2, F3.
    by rewrite !insert_insert_eq.
Qed.

(** X5: one block of the IPv4 pass, when [interfaces] exists.  Without a
    primary address nothing is stored, whatever secondary addresses the block
    has; else the secondary addresses are stored in order and the first
    primary address after them.  The pass raises [ValueError] exactly when one
    of these addresses does not split at the slash into two parts. *)
Theorem ipv4_block_entries :
  forall key value st i,
    interfaces st = Some i ->
    match mapM split_address (ipv4_addresses value) with
    | Some pairs =>
        exists st',
          populate_ipv4_item (key, value) st = Ok st'
          /\ interfaces st' =
               Some (<[key := <["ipv4" := VList (entries pairs)]>
                                (base_record "ipv4" i key value)]> i)
          /\ all_ipv4_addresses st' = all_ipv4_addresses st ++ flat pairs
          /\ all_ipv6_addresses st' = all_ipv6_addresses st
          /\ neighbors st' = neighbors st
          /\ (re_findall M primary_re value = [] -> pairs = [])
    | None => populate_ipv4_item (key, value) st = Raise ValueError
    end.
Proof.
  intros key value st i Hi.
  pose proof (populate_ipv4_item_entries key value st i Hi) as H.
  destruct (mapM split_address (ipv4_addresses value)) as [pairs|] eqn:E; [|done].
  destruct H as (st' & H1 & H2 & H3 & H4 & H5).
  exists st'. repeat split; try done.
  intros Hp. unfold ipv4_addresses in E. rewrite Hp in E. by injection E as <-.
Qed.

Lemma ipv4_block_entries_witness :
  exists st',
    populate_ipv4_item ("Vlan1", Inputs.ip_block_secondary) Samples.facts_with_vlan1 = Ok st'
    /\ interfaces st' =
         Some (<["Vlan1" := <["ipv4" :=
                   VList (entries [("10.0.1.1", "24"); ("10.0.2.1", "24"); ("10.0.0.1", "24")])]>
                   (base_record "ipv4" (<["Vlan1" := (∅ : dict)]> ∅) "Vlan1"
                      Inputs.ip_block_secondary)]> (<["Vlan1" := (∅ : dict)]> ∅))
    /\ all_ipv4_addresses st' = [] ++ flat [("10.0.1.1", "24"); ("10.0.2.1", "24"); ("10.0.0.1", "24")]
    /\ all_ipv6_addresses st' = []
    /\ neighbors st' = ∅
    /\ (re_findall M primary_re Inputs.ip_block_secondary = [] ->
        [("10.0.1.1", "24"); ("10.0.2.1", "24"); ("10.0.0.1", "24")] = []).
Proof.
  exact (ipv4_block_entries "Vlan1" Inputs.ip_block_secondary Samples.facts_with_vlan1
           (<["Vlan1" := (∅ : dict)]> ∅) eq_refl).
Defined.

Lemma ipv6_address_step key a s st i rec l :
  interfaces st = Some i -> i !! key = Some rec -> rec !! "ipv6" = Some (VList l) ->
  ipv6_address key (a, s) st =
    Ok (set_interfaces
          (<[key := <["ipv6" := VList (l ++ [VDict (ip_entry a s)])]> rec]> i)
          (add_ip_address (strip a) "ipv6" st)).
Proof.
  intros Hi Hk Hf. unfold ipv6_address.
  erewrite append_entry_ok; [done|by rewrite add_ip_address_interfaces|done..].
Qed.

(** The loop over the pairs of one IPv6 block. *)
Lemma ipv6_loop_entries key : forall pairs st i rec l,
  interfaces st = Some i -> i !! key = Some rec -> rec !! "ipv6" = Some (VList l) ->
  exists st',
    for_each (ipv6_address key) pairs st = Ok st'
    /\ interfaces st' = Some (<[key := <["ipv6" := VList (l ++ entries pairs)]> rec]> i)
    /\ all_ipv4_addresses st' = all_ipv4_addresses st
    /\ all_ipv6_addresses st' = all_ipv6_addresses st ++ flat pairs
    /\ neighbors st' = neighbors st.
Proof.
  induction pairs as [|[a s] pairs IH]; intros st i rec l Hi Hk Hf.
  - cbn. exists st. rewrite !app_nil_r. by rewrite (insert_id rec), (insert_id i).
  - cbn [for_each]. rewrite (ipv6_address_step key a s st i rec l) by done.
    cbn [mbind result_bind].
    set (st1 := set_interfaces _ _).
    destruct (IH st1 _ _ (l ++ [VDict (ip_entry a s)]) eq_refl
                (lookup_insert_eq _ _ _) (lookup_insert_eq _ _ _))
      as (st' & Hrun & H1 & H2 & H3 & H4).
    exists st'. split; [done|]. rewrite H1, H2, H3, H4. subst st1.
    rewrite add_ip_address_ipv6. cbn.
    rewrite !insert_insert_eq, <- !app_assoc. done.
Qed.

Lemma ipv6_block_entries key value st i :
  interfaces st = Some i ->
  exists st',
    populate_ipv6_item (key, value) st = Ok st'
    /\ interfaces st' =
         Some (<[key := <["ipv6" := VList (entries (ipv6_pairs value))]>
                          (base_record "ipv6" i key value)]> i)
    /\ all_ipv4_addresses st' = all_ipv4_addresses st
    /\ all_ipv6_addresses st' = all_ipv6_addresses st ++ flat (ipv6_pairs value)
    /\ neighbors st' = neighbors st.
Proof.
  intros Hi. unfold populate_ipv6_item, ipv6_pairs.
  destruct (reset_or_create_spec "ipv6" key value st i Hi) as (st1 & E & Hi1); [done|].
  rewrite E. cbn [mbind result_bind].
  destruct (reset_or_create_fields _ _ _ _ _ E) as (F1 & F2 & F3).
  destruct (ipv6_loop_entries key
              (zip (re_findall M ipv6_address_re value) (re_findall M ipv6_subnet_re value))
              st1 _ _ [] Hi1 (lookup_insert_eq _ _ _) (lookup_insert_eq _ _ _))
    as (st' & Hrun & H1 & H2 & H3 & H4).
  exists st'. split; [done|]. rewrite H1, H2, H3, H4, F1, F2, F3.
  by rewrite !insert_insert_eq.
Qed.

(** The loop of the IPv6 pass over the blocks. *)
Lemma ipv6_items_frame : forall data st i,
  interfaces st = Some i ->
  exists st' i',
    for_each populate_ipv6_item data st = Ok st'
    /\ interfaces st' = Some i'
    /\ all_ipv6_addresses st' =
         all_ipv6_addresses st ++ (data ≫= fun kv => flat (ipv6_pairs (snd kv)))
    /\ all_ipv4_addresses st' = all_ipv4_addresses st
    /\ neighbors st' = neighbors st
    /\ frame "ipv6" i i' (ODict.keys data).
Proof.
  induction data as [|[key value] data IH]; intros st i Hi.
  - exists st, i. cbn. rewrite app_nil_r. eauto 10 using frame_refl.
  - cbn [for_each].
    destruct (ipv6_block_entries key value st i Hi) as (st1 & -> & Hi1 & F1 & F2 & F3).
    cbn [mbind result_bind].
    destruct (IH st1 _ Hi1) as (st' & i' & Hrun & Hi' & H1 & H2 & H3 & Hfr).
    exists st', i'. split; [done|]. split; [done|].
    rewrite H1, H2, H3, F1, F2, F3. cbn. rewrite <- app_assoc.
    repeat split; try done; eapply frame_step, Hfr.
Qed.

(** X6: the IPv6 pass never raises once [interfaces] exists.  It appends to
    [all_ipv6_addresses] the stripped addresses of the pairs, block after
    block, and leaves [all_ipv4_addresses] and [neighbors] alone; the names of
    the interfaces afterwards are the old ones and the keys of the blocks, and
    a record that was there keeps every attribute other than [ipv6]. *)
Theorem ipv6_pass_frame :
  forall data st i,
    interfaces st = Some i ->
    exists st' i',
      populate_ipv6_interfaces data st = Ok st'
      /\ interfaces st' = Some i'
      /\ all_ipv6_addresses st' =
           all_ipv6_addresses st ++ (data ≫= fun kv => flat (ipv6_pairs (snd kv)))
      /\ all_ipv4_addresses st' = all_ipv4_addresses st
      /\ neighbors st' = neighbors st
      /\ frame "ipv6" i i' (ODict.keys data).
Proof. intros data st i Hi. unfold populate_ipv6_interfaces. by apply ipv6_items_frame. Qed.

Lemma ipv6_pass_frame_witness :
  exists st' i',
    populate_ipv6_interfaces [("Vlan10", Samples.ipv6_block)] Samples.facts_with_vlan1 = Ok st'
    /\ interfaces st' = Some i'
    /\ all_ipv6_addresses st' =
         [] ++ ([("Vlan10", Samples.ipv6_block)] ≫= fun kv => flat (ipv6_pairs (snd kv)))
    /\ all_ipv4_addresses st' = []
    /\ neighbors st' = ∅
    /\ frame "ipv6" (<["Vlan1" := (∅ : dict)]> ∅) i' ["Vlan10"].
Proof.
  exact (ipv6_pass_frame [("Vlan10", Samples.ipv6_block)] Samples.facts_with_vlan1
           (<["Vlan1" := (∅ : dict)]> ∅) eq_refl).
Defined.

(** The loop of the IPv4 pass over the blocks. *)
Lemma ipv4_items_frame : forall data st i,
  interfaces st = Some i ->
  match mapM (fun kv => mapM split_address (ipv4_addresses (snd kv))) data with
  | Some pairss =>
      exists st' i',
        for_each populate_ipv4_item data st = Ok st'
        /\ interfaces st' = Some i'
        /\ all_ipv4_addresses st' = all_ipv4_addresses st ++ (pairss ≫= flat)
        /\ all_ipv6_addresses st' = all_ipv6_addresses st
        /\ neighbors st' = neighbors st
        /\ frame "ipv4" i i' (ODict.keys data)
  | None => for_each populate_ipv4_item data st = Raise ValueError
  end.
Proof.
  induction data as [|[key value] data IH]; intros st i Hi.
  - cbn. exists st, i. rewrite app_nil_r. eauto 10 using frame_refl.
  - cbn [mapM for_each snd].
    pose proof (populate_ipv4_item_entries key value st i Hi) as Hb.
    destruct (mapM split_address (ipv4_addresses value)) as [pairs|]; [|by rewrite Hb].
    destruct Hb as (st1 & -> & Hi1 & F1 & F2 & F3).
    cbn [mbind result_bind option_bind].
    specialize (IH st1 _ Hi1).
    destruct (mapM _ data) as [pairss|]; [|done].
    destruct IH as (st' & i' & Hrun & Hi' & H1 & H2 & H3 & Hfr).
    cbn. exists st', i'. split; [done|]. split; [done|].
    rewrite H1, H2, H3, F1, F2, F3. rewrite <- app_assoc.
    repeat split; try done; eapply frame_step, Hfr.
Qed.

(** X7: the IPv4 pass, when [interfaces] exists.  It raises [ValueError]
    exactly when some block has an address to store that does not split at
    the slash into two parts; else it appends the stripped addresses to
    [all_ipv4_addresses], block after block, leaves [all_ipv6_addresses] and
    [neighbors] alone, and a record that was there keeps every attribute other
    than [ipv4]. *)
Theorem ipv4_pass_frame :
  forall data st i,
    interfaces st = Some i ->
    match mapM (fun kv => mapM split_address (ipv4_addresses (snd kv))) data with
    | Some pairss =>
        exists st' i',
          populate_ipv4_interfaces data st = Ok st'
          /\ interfaces st' = Some i'
          /\ all_ipv4_addresses st' = all_ipv4_addresses st ++ (pairss ≫= flat)
          /\ all_ipv6_addresses st' = all_ipv6_addresses st
          /\ neighbors st' = neighbors st
          /\ frame "ipv4" i i' (ODict.keys data)
    | None => populate_ipv4_interfaces data st = Raise ValueError
    end.
Proof. intros data st i Hi. unfold populate_ipv4_interfaces. by apply ipv4_items_frame. Qed.

Lemma ipv4_pass_frame_witness :
  populate_ipv4_interfaces [("Vlan1", "Vlan1 is up" +:+ LF +:+ "  Internet address is 10.0.0.1")]
    Samples.facts_with_vlan1 = Raise ValueError.
Proof.
  exact (ipv4_pass_frame [("Vlan1", "Vlan1 is up" +:+ LF +:+ "  Internet address is 10.0.0.1")]
           Samples.facts_with_vlan1 (<["Vlan1" := (∅ : dict)]> ∅) eq_refl).
Defined.

End AddressMore.

(** ** Neighbors *)

Module NeighborMore.

Import Py Re Interfaces Readings LoopFacts AddressMore.

Lemma listed_app (old : option (list dict)) l :
  match l with [] => old | _ => Some (default [] old ++ l) end =
  match listed l with
  | None => old
  | Some l' => Some (default [] old ++ l')
  end.
Proof. by destruct l. Qed.

Lemma records_of_cons {A} name (fact : A -> dict) n a kept :
  records_of name fact ((n, a) :: kept) =
    if decide (n = name) then fact a :: records_of name fact kept
    else records_of name fact kept.
Proof. unfold records_of. rewrite filter_cons. cbn [fst]. by case_decide. Qed.

Lemma lldp_loop_groups norm name : forall entries facts,
  neighbors_loop norm entries facts !! name =
    match records_of name lldp_fact (prod_map norm id <$> lldp_kept entries) with
    | [] => facts !! name
    | l => Some (default [] (facts !! name) ++ l)
    end.
Proof.
  induction entries as [|entry entries IH]; intros facts; [done|].
  cbn [neighbors_loop lldp_kept]. case_bool_decide; [apply IH|].
  destruct (parse_lldp_intf entry) as [intf|]; [|done].
  rewrite IH. cbn [fmap list_fmap prod_map fst snd id].
  rewrite records_of_cons. case_decide as Hn.
  - subst name. rewrite lookup_insert_eq. unfold default at 1. cbn [from_option id].
    destruct (records_of _ _ _); [done|].
    by rewrite <- app_assoc.
  - by rewrite lookup_insert_ne.
Qed.

(** X8: [parse_neighbors] groups the records by the normalised name of the
    local interface: the entry of a name holds the records of all segments
    read whose interface normalises to it, in order of appearance, and a name
    without such a segment has no entry.  The segments read are the non-empty
    ones before the first non-empty segment without local interface. *)
Theorem parse_neighbors_groups :
  forall normalize_interface text name,
    parse_neighbors normalize_interface text !! name =
      listed (records_of name lldp_fact
                (prod_map normalize_interface id <$> lldp_kept (split lldp_separator text))).
Proof.
  intros norm text name. unfold parse_neighbors. rewrite lldp_loop_groups.
  rewrite lookup_empty. by destruct (records_of _ _ _).
Qed.

Lemma cdp_loop_groups name : forall entries facts,
  cdp_neighbors_loop entries facts !! name =
    match records_of name (fun ep => cdp_fact (fst ep) (snd ep)) (cdp_kept entries) with
    | [] => facts !! name
    | l => Some (default [] (facts !! name) ++ l)
    end.
Proof.
  induction entries as [|entry entries IH]; intros facts; [done|].
  cbn [cdp_neighbors_loop cdp_kept]. case_bool_decide; [apply IH|].
  destruct (parse_cdp_intf_port entry) as [[intf port]|]; [|done].
  rewrite IH, records_of_cons. case_decide as Hn.
  - subst name. rewrite lookup_insert_eq. unfold default at 1. cbn [from_option id fst snd].
    destruct (records_of _ _ _); [done|].
    by rewrite <- app_assoc.
  - by rewrite lookup_insert_ne.
Qed.

(** X9: [parse_cdp_neighbors] passes over empty segments, stops at the first
    non-empty segment without an interface line, and groups the records of
    the segments read by the interface name as the device prints it (the name
    is not normalised), in order of appearance. *)
Theorem parse_cdp_neighbors_groups :
  (forall text name,
     parse_cdp_neighbors text !! name =
       listed (records_of name (fun ep => cdp_fact (fst ep) (snd ep))
                 (cdp_kept (split cdp_separator text))))
  /\ (forall pre post, cdp_kept (pre ++ EmptyString :: post) = cdp_kept (pre ++ post))
  /\ (forall pre s post,
        s <> EmptyString -> parse_cdp_intf_port s = None ->
        cdp_kept (pre ++ s :: post) = cdp_kept pre).
Proof.
  split; [|split].
  - intros text name. unfold parse_cdp_neighbors. rewrite cdp_loop_groups.
    rewrite lookup_empty. by destruct (records_of _ _ _).
  - induction pre as [|e pre IH]; intros post; [done|].
    cbn [app cdp_kept]. rewrite IH. done.
  - induction pre as [|e pre IH]; intros s post Hs Hnone.
    + cbn [app cdp_kept]. rewrite bool_decide_eq_false_2 by done. by rewrite Hnone.
    + cbn [app cdp_kept]. by rewrite IH.
Qed.

Lemma parse_cdp_neighbors_groups_witness :
  cdp_kept ([] ++ "no interface line" :: ["Interface: Gi0/1,  Port ID (outgoing port): Gi0/2"])
  = cdp_kept [].
Proof.
  apply (proj2 (proj2 parse_cdp_neighbors_groups) [] "no interface line");
    [discriminate | reflexivity].
Defined.

Lemma for_each_keeps {A St B} (proj : St -> B) (body : A -> St -> result St) :
  (forall x st st', body x st = Ok st' -> proj st' = proj st) ->
  forall l st st', for_each body l st = Ok st' -> proj st' = proj st.
Proof.
  intros Hbody. induction l as [|x l IH]; intros st st' H.
  - by injection H as <-.
  - cbn [for_each] in H. destruct (body x st) as [st1|] eqn:E; [|done].
    cbn in H. rewrite (IH _ _ H). eauto.
Qed.

Lemma append_entry_neighbors family key entry st st' :
  append_entry family key entry st = Ok st' -> neighbors st' = neighbors st.
Proof.
  unfold append_entry, get_interfaces, getitem.
  destruct (interfaces st) as [i|]; [|done]. cbn.
  destruct (i !! key) as [rec|]; [|done]. cbn.
  destruct (rec !! family) as [[]|]; try done. cbn. by intros [= <-].
Qed.

Lemma add_ip_address_neighbors a f st :
  neighbors (add_ip_address a f st) = neighbors st.
Proof. unfold add_ip_address. by case_bool_decide. Qed.

Lemma populate_ipv4_keeps_neighbors data st st' :
  populate_ipv4_interfaces data st = Ok st' -> neighbors st' = neighbors st.
Proof.
  apply (for_each_keeps neighbors). intros [key value] st0 st1 H.
  unfold populate_ipv4_item in H.
  destruct (reset_or_create "ipv4" key value st0) as [st2|] eqn:E; [|done].
  apply reset_or_create_fields in E as (_ & _ & <-). cbn [mbind result_bind] in H.
  destruct (re_findall M primary_re value); [by injection H as <-|].
  revert H. apply (for_each_keeps neighbors). intros a st3 st4 H.
  unfold ipv4_address in H.
  destruct (split "/" a) as [|addr [|subnet [|? ?]]]; try done.
  apply append_entry_neighbors in H. by rewrite H, add_ip_address_neighbors.
Qed.

Lemma populate_ipv6_keeps_neighbors data st st' :
  populate_ipv6_interfaces data st = Ok st' -> neighbors st' = neighbors st.
Proof.
  apply (for_each_keeps neighbors). intros [key value] st0 st1 H.
  unfold populate_ipv6_item in H.
  destruct (reset_or_create "ipv6" key value st0) as [st2|] eqn:E; [|done].
  apply reset_or_create_fields in E as (_ & _ & <-). cbn [mbind result_bind] in H.
  revert H. apply (for_each_keeps neighbors). intros [a s] st3 st4 H.
  unfold ipv6_address in H.
  apply append_entry_neighbors in H. by rewrite H, add_ip_address_neighbors.
Qed.

(** X10: whenever [populate] returns, [neighbors] is made of the answers of
    the two detail commands alone, whatever the interface commands answered:
    the LLDP records are read unless the answer to [show lldp] is empty or
    has one of the two error texts, the CDP records unless the answer to
    [show cdp] is empty or says that CDP is not enabled, and for a name that
    both report the CDP records replace the LLDP records. *)
Theorem populate_neighbors :
  forall normalize_interface show_interfaces show_ip show_ipv6 show_lldp show_cdp
         lldp_detail cdp_detail st,
    populate normalize_interface show_interfaces show_ip show_ipv6 show_lldp show_cdp
      lldp_detail cdp_detail = Ok st ->
    let lldp := answered lldp_errs show_lldp lldp_detail (parse_neighbors normalize_interface) in
    let cdp := answered cdp_errs show_cdp cdp_detail parse_cdp_neighbors in
    neighbors st = cdp ∪ lldp
    /\ (forall name l, cdp !! name = Some l -> neighbors st !! name = Some l)
    /\ (forall name, cdp !! name = None -> neighbors st !! name = lldp !! name).
Proof.
  intros norm si sip sip6 sl sc ld cd st H lldp cdp.
  assert (neighbors st = cdp ∪ lldp) as ->.
  { unfold populate in H. cbv zeta in H.
    destruct (if truthy si then _ else _) as [st1|] eqn:E1; [|done].
    cbn [mbind result_bind] in H.
    assert (neighbors st1 = ∅) as N1.
    { destruct (truthy si); [|by injection E1 as <-].
      destruct (parse_interfaces si); [|done]. cbn in E1.
      destruct (populate_interfaces _); [|done]. by injection E1 as <-. }
    destruct (if truthy sip then _ else _) as [st2|] eqn:E2; [|done].
    cbn [mbind result_bind] in H.
    assert (neighbors st2 = ∅) as N2.
    { rewrite <- N1. destruct (truthy sip); [|by injection E2 as <-].
      destruct (parse_interfaces sip); [|done]. cbn in E2.
      by apply populate_ipv4_keeps_neighbors in E2. }
    destruct (if truthy sip6 then _ else _) as [st3|] eqn:E3; [|done].
    cbn [mbind result_bind] in H.
    assert (neighbors st3 = ∅) as N3.
    { rewrite <- N2. destruct (truthy sip6); [|by injection E3 as <-].
      destruct (parse_interfaces sip6); [|done]. cbn in E3.
      by apply populate_ipv6_keeps_neighbors in E3. }
    injection H as <-. subst lldp cdp. unfold answered.
    destruct (no_err cdp_errs sc), cd as [|c cd], (no_err lldp_errs sl), ld as [|n ld];
      cbn; rewrite ?N3, ?(left_id_L ∅ (∪)), ?(right_id_L ∅ (∪)); done. }
  split; [done|]. split.
  - intros name l Hc. by apply lookup_union_Some_l.
  - intros name Hc. by rewrite lookup_union_r.
Qed.

Lemma populate_neighbors_witness :
  exists st,
    populate (fun name => name) EmptyString EmptyString EmptyString
      "Global LLDP Information:" "CDP is not enabled"
      [Samples.lldp_three_segments] [] = Ok st
    /\ neighbors st =
         answered cdp_errs "CDP is not enabled" [] parse_cdp_neighbors
         ∪ answered lldp_errs "Global LLDP Information:" [Samples.lldp_three_segments]
             (parse_neighbors (fun name => name)).
Proof.
  eexists. split; [vm_compute; reflexivity|].
  eapply (proj1 (populate_neighbors (fun name => name) EmptyString EmptyString EmptyString
            "Global LLDP Information:" "CDP is not enabled"
            [Samples.lldp_three_segments] [] _ _)).
  Unshelve. vm_compute. reflexivity.
Defined.

End NeighborMore.

(** ** The platform, version and virtual switch facts *)

Module DefaultMore.

Import Py Re ReSpec ReFacts Default Readings RecordFacts.

Lemma platform_items_lookup resp (k : string) : forall items (acc : dict),
  foldl (fun (acc : dict) item =>
           match device_info resp !! ("network_os_" +:+ item) with
           | Some val => if truthy val then <[item := VStr val]> acc else acc
           | None => acc
           end) acc items !! k =
    if bool_decide (k ∈ items)
    then match reported resp k with Some v => Some v | None => acc !! k end
    else acc !! k.
Proof.
  induction items as [|x items IH]; intros acc; [done|].
  cbn [foldl]. rewrite IH. clear IH.
  assert ((match device_info resp !! ("network_os_" +:+ x) with
           | Some val => if truthy val then <[x := VStr val]> acc else acc
           | None => acc
           end) !! k =
          if bool_decide (k = x)
          then match reported resp k with Some v => Some v | None => acc !! k end
          else acc !! k) as ->.
  { unfold reported. case_bool_decide as Hk.
    - subst k. destruct (device_info resp !! _) as [val|]; [|done].
      destruct (truthy val); [by rewrite lookup_insert_eq | done].
    - destruct (device_info resp !! _) as [val|]; [|done].
      destruct (truthy val); [by rewrite lookup_insert_ne | done]. }
  rewrite (bool_decide_ext (k ∈ x :: items) (k = x \/ k ∈ items)) by apply elem_of_cons.
  destruct (reported resp k); repeat case_bool_decide; tauto || done.
Qed.

Lemma platform_facts_outcome resp python_version :
  match device_info resp !! "network_os" with
  | None => platform_facts resp python_version = Raise KeyError
  | Some _ => exists pf, platform_facts resp python_version = Ok pf
  end.
Proof.
  unfold platform_facts, getitem.
  destruct (device_info resp !! "network_os"); [by eexists | done].
Qed.

(** [platform_facts] has no entry beside its eight names. *)
Lemma platform_facts_absent resp python_version pf k :
  platform_facts resp python_version = Ok pf ->
  k ∉ ["system"; "api"; "python_version"] ++ platform_items ->
  pf !! k = None.
Proof.
  unfold platform_facts, getitem.
  destruct (device_info resp !! "network_os") as [os|]; [|done].
  cbn [mbind result_bind]. intros Hpf Hk.
  assert (forall a b : dict, Ok a = Ok b -> b = a) as Hinj by congruence.
  apply Hinj in Hpf as ->. clear Hinj.
  rewrite !elem_of_app, !elem_of_cons, elem_of_nil in Hk.
  rewrite !lookup_insert_ne by (intros <-; apply Hk; tauto).
  rewrite platform_items_lookup.
  rewrite bool_decide_eq_false_2 by tauto.
  rewrite lookup_insert_ne by (intros <-; apply Hk; tauto). done.
Qed.

(** X12: [platform_facts] raises [KeyError] exactly when the device
    information has no [network_os]; else it returns [system], [api] and
    [python_version], and of the five optional items exactly those that the
    device reports with a non-empty value. *)
Theorem platform_facts_entries :
  forall resp python_version,
    match device_info resp !! "network_os" with
    | None => platform_facts resp python_version = Raise KeyError
    | Some os =>
        exists pf,
          platform_facts resp python_version = Ok pf
          /\ pf !! "system" = Some (VStr os)
          /\ pf !! "api" = Some (VStr (network_api resp))
          /\ pf !! "python_version" = Some (VStr python_version)
          /\ (forall item, item ∈ platform_items -> pf !! item = reported resp item)
          /\ (forall k, k ∉ ["system"; "api"; "python_version"] ++ platform_items ->
                pf !! k = None)
    end.
Proof.
  intros resp pv.
  pose proof (platform_facts_absent resp pv) as Habsent. revert Habsent.
  unfold platform_facts, getitem.
  destruct (device_info resp !! "network_os") as [os|]; [|done].
  cbn [mbind result_bind]. intros Habsent. eexists. split; [reflexivity|].
  split; [|split; [|split; [|split]]].
  - rewrite !lookup_insert_ne by done. rewrite platform_items_lookup.
    rewrite bool_decide_eq_false_2; [by rewrite lookup_insert_eq|].
    unfold platform_items. rewrite !elem_of_cons, elem_of_nil. intuition discriminate.
  - rewrite lookup_insert_ne by done. by rewrite lookup_insert_eq.
  - by rewrite lookup_insert_eq.
  - intros item Hitem.
    assert (item <> "python_version" /\ item <> "api" /\ item <> "system") as (H1 & H2 & H3).
    { unfold platform_items in Hitem. rewrite !elem_of_cons, elem_of_nil in Hitem.
      repeat split; intros ->; intuition discriminate. }
    rewrite !lookup_insert_ne by done. rewrite platform_items_lookup.
    rewrite bool_decide_eq_true_2 by done.
    rewrite lookup_insert_ne by done. rewrite lookup_empty. by destruct (reported resp item).
  - intros k Hk. by apply Habsent.
Qed.

Lemma starts_with_Some p : forall s t, starts_with p s = Some t -> s = p +:+ t.
Proof.
  induction p as [|a p IH]; intros s t H.
  - by injection H as ->.
  - destruct s as [|b s]; simpl in H; [discriminate|].
    unfold ascii_eqb in H. destruct (Ascii.eqb a b) eqn:E; [|discriminate].
    apply Ascii.eqb_eq in E as ->. change (String b s = String b (p +:+ t)).
    f_equal. by apply IH.
Qed.

(** Where [re.search] finds a match, the text splits there. *)
Lemma search_from_position fl r : forall s bef cs,
  search_from fl r bef s = Some cs ->
  exists pre post cur',
    s = pre +:+ post
    /\ matches fl r {| before := last_before bef pre; rest := post |} [] cur' cs.
Proof.
  induction s as [|c s IH]; intros bef cs H; cbn [search_from] in H.
  - destruct (match_at fl r _) as [[cs0 cur']|] eqn:E; [|done].
    injection H as <-. apply match_at_sound in E. by exists EmptyString, EmptyString, cur'.
  - destruct (match_at fl r _) as [[cs0 cur']|] eqn:E.
    + injection H as <-. apply match_at_sound in E.
      by exists EmptyString, (String c s), cur'.
    + apply IH in H as (pre & post & cur' & -> & H).
      by exists (String c pre), post, cur'.
Qed.

Lemma search_from_here fl r bef s cs cur' :
  match_at fl r {| before := bef; rest := s |} = Some (cs, cur') ->
  search_from fl r bef s = Some cs.
Proof. intros H. destruct s; cbn [search_from]; by rewrite H. Qed.

(** [re.search] finds a match when the pattern matches somewhere. *)
Lemma search_from_finds fl r pre post : forall bef,
  is_Some (match_at fl r {| before := last_before bef pre; rest := post |}) ->
  is_Some (search_from fl r bef (pre +:+ post)).
Proof.
  induction pre as [|c pre IH]; intros bef [[cs cur'] H]; cbn [last_before] in H.
  - change (EmptyString +:+ post) with post. erewrite search_from_here; eauto.
  - change (String c pre +:+ post) with (String c (pre +:+ post)).
    cbn [search_from].
    destruct (match_at fl r {| before := bef; rest := _ |}) as [[cs0 cur0]|]; [eauto|].
    apply IH. rewrite H. eauto.
Qed.

Lemma iostype_match_at bef a b post :
  isspace a = true -> isspace b = true ->
  is_Some (match_at NOFLAG iostype_re
             {| before := bef; rest := String a ("IOS-XE" +:+ String b post) |}).
Proof.
  intros Ha Hb. unfold match_at, iostype_re. cbn [cat foldr].
  rewrite rmatch_seq, rmatch_one. unfold space at 1. cbn [atom_ok]. rewrite Ha.
  unfold advance. rewrite rmatch_seq, rmatch_lit_app, rmatch_seq, rmatch_one.
  unfold space at 1. cbn [atom_ok]. rewrite Hb. cbn. eauto.
Qed.

(** X11: [parse_iostype] answers [IOS-XE] exactly when the text holds
    [IOS-XE] between two white space characters, and [IOS] in every other
    case; the word at the very start or at the very end of the text does not
    count. *)
Theorem parse_iostype_iff :
  forall data,
    (parse_iostype data = "IOS-XE" <->
     exists pre a b post,
       isspace a = true /\ isspace b = true
       /\ data = pre +:+ String a ("IOS-XE" +:+ String b post))
    /\ (parse_iostype data = "IOS-XE" \/ parse_iostype data = "IOS").
Proof.
  intros data. unfold parse_iostype, re_search. split; [split|].
  - destruct (search_from NOFLAG iostype_re None data) as [cs|] eqn:E; [|done].
    intros _. apply search_from_position in E as (pre & post & cur' & -> & H).
    unfold iostype_re in H. cbn [cat foldr] in H.
    inversion H as [| | | | | | |? ? ? ? cur1 cs1 ? ? H1 H2| | | | |]; subst.
    inversion H1 as [|? ? a s ? Ha| | | | | | | | | | |]; subst.
    inversion H2 as [| | | | | | |? ? ? ? cur2 cs2 ? ? H3 H4| | | | |]; subst.
    apply (matches_lit NOFLAG "IOS-XE") in H3. cbn [rest advance] in H3.
    inversion H4 as [| | | | | | |? ? ? ? cur3 cs3 ? ? H5 H6| | | | |]; subst.
    inversion H5 as [|? ? b s' ? Hb| | | | | | | | | | |]; subst.
    cbn [rest] in H3. apply starts_with_Some in H3 as ->.
    exists pre, a, b, s'. done.
  - intros (pre & a & b & post & Ha & Hb & ->).
    destruct (search_from_finds NOFLAG iostype_re pre
                (String a ("IOS-XE" +:+ String b post)) None) as [cs ->]; [|done].
    by apply iostype_match_at.
  - destruct (search_from NOFLAG iostype_re None data); auto.
Qed.

Lemma parse_stacks_virtual_switch data facts :
  parse_stacks data facts !! "virtual_switch" =
    if bool_decide (re_findall M stacked_models_re data <> []
                    \/ is_Some (facts !! "stacked_models"))
    then Some (VStr "STACK") else facts !! "virtual_switch".
Proof.
  unfold parse_stacks.
  set (f1 := match re_findall M stacked_models_re data with [] => facts | _ => _ end).
  set (f2 := match re_findall M stacked_serialnums_re data with [] => f1 | _ => _ end).
  assert (f2 !! "stacked_models" = f1 !! "stacked_models") as E2.
  { subst f2. destruct (re_findall M stacked_serialnums_re data); [done|].
    by rewrite lookup_insert_ne. }
  assert (f2 !! "virtual_switch" = facts !! "virtual_switch") as E3.
  { subst f2 f1. destruct (re_findall M stacked_serialnums_re data),
      (re_findall M stacked_models_re data); by rewrite ?lookup_insert_ne. }
  assert (is_Some (f1 !! "stacked_models") <->
          re_findall M stacked_models_re data <> [] \/ is_Some (facts !! "stacked_models"))
    as E1.
  { subst f1. destruct (re_findall M stacked_models_re data).
    - split; [by right | by intros [|]].
    - rewrite lookup_insert_eq. split; [by left | eauto]. }
  rewrite E2, (bool_decide_ext _ _ E1).
  case_bool_decide; [by rewrite lookup_insert_eq | done].
Qed.

Lemma parse_stacks_other data facts k :
  k ∉ ["stacked_models"; "stacked_serialnums"; "virtual_switch"] ->
  parse_stacks data facts !! k = facts !! k.
Proof.
  rewrite !elem_of_cons, elem_of_nil. intros Hk. unfold parse_stacks.
  assert (k <> "stacked_models" /\ k <> "stacked_serialnums" /\ k <> "virtual_switch")
    as (H1 & H2 & H3) by (repeat split; intros ->; tauto).
  destruct (re_findall M stacked_models_re data),
    (re_findall M stacked_serialnums_re data); case_bool_decide;
    by rewrite ?lookup_insert_ne by done.
Qed.

Lemma parse_virtual_switch_virtual data facts :
  parse_virtual_switch data facts !! "virtual_switch" =
    if bool_decide (is_Some (re_search M vss_domain_re data))
    then Some (VStr "VSS") else facts !! "virtual_switch".
Proof.
  unfold parse_virtual_switch.
  destruct (re_search M vss_domain_re data) as [m|].
  - rewrite bool_decide_eq_true_2 by eauto.
    destruct (re_findall S_ vss_serial_re data); rewrite ?lookup_insert_ne by done;
      by rewrite lookup_insert_eq.
  - rewrite bool_decide_eq_false_2 by (by intros [? ?]).
    destruct (re_findall S_ vss_serial_re data); by rewrite ?lookup_insert_ne by done.
Qed.

Lemma parse_virtual_switch_other data facts k :
  k ∉ ["virtual_switch"; "virtual_switch_domain"; "virtual_switch_serialnums"] ->
  parse_virtual_switch data facts !! k = facts !! k.
Proof.
  rewrite !elem_of_cons, elem_of_nil. intros Hk. unfold parse_virtual_switch.
  assert (k <> "virtual_switch" /\ k <> "virtual_switch_domain"
          /\ k <> "virtual_switch_serialnums")
    as (H1 & H2 & H3) by (repeat split; intros ->; tauto).
  destruct (re_search M vss_domain_re data), (re_findall S_ vss_serial_re data);
    by rewrite ?lookup_insert_ne by done.
Qed.

(** X13: [Default.populate] raises exactly when the device information has
    no [network_os].  Else the three version facts are stored exactly when
    the answer to [show version] is not empty, and [virtual_switch] is [VSS]
    when the virtual switch answers are read and name a domain, whatever the
    version text says; failing that it is [STACK] when the version text has a
    model number line (or [stacked_models] was stored before); failing that
    it is left as it was. *)
Theorem default_populate_facts :
  forall resp python_version show_version show_switch_virtual show_inventory facts0,
    match device_info resp !! "network_os" with
    | None =>
        populate resp python_version show_version show_switch_virtual show_inventory
          facts0 = Raise KeyError
    | Some _ =>
        exists facts,
          populate resp python_version show_version show_switch_virtual show_inventory
            facts0 = Ok facts
          /\ (if truthy show_version then
                facts !! "iostype" = Some (VStr (parse_iostype show_version))
                /\ facts !! "operatingmode" =
                     Some (VStr (parse_operatingmode show_version
                                   (parse_iostype show_version)))
                /\ facts !! "serialnum" = Some (parse_serialnum show_version)
              else
                facts !! "iostype" = facts0 !! "iostype"
                /\ facts !! "operatingmode" = facts0 !! "operatingmode"
                /\ facts !! "serialnum" = facts0 !! "serialnum")
          /\ facts !! "virtual_switch" =
               (let data := show_switch_virtual +:+ show_inventory in
                if vss_read data && bool_decide (is_Some (re_search M vss_domain_re data))
                then Some (VStr "VSS")
                else if truthy show_version
                        && bool_decide (re_findall M stacked_models_re show_version <> []
                                        \/ is_Some (facts0 !! "stacked_models"))
                then Some (VStr "STACK")
                else facts0 !! "virtual_switch")
    end.
Proof.
  intros resp pv sv ssv si facts0. unfold populate.
  pose proof (platform_facts_absent resp pv) as Habsent.
  pose proof (platform_facts_outcome resp pv) as Hout.
  destruct (device_info resp !! "network_os") as [os|]; [|by rewrite Hout].
  destruct Hout as [pf Epf]. rewrite Epf.
  specialize (Habsent pf). cbn [mbind result_bind].
  assert (forall k, k ∉ ["system"; "api"; "python_version"] ++ platform_items ->
                    (pf ∪ facts0) !! k = facts0 !! k) as Hu.
  { intros k Hk. rewrite lookup_union_r; [done|]. by apply Habsent. }
  assert (forall k : string,
            k ∈ ["iostype"; "operatingmode"; "serialnum"; "virtual_switch";
                 "stacked_models"] ->
            k ∉ ["system"; "api"; "python_version"] ++ platform_items) as Hnew.
  { intros k Hk. unfold platform_items.
    rewrite !elem_of_cons, elem_of_nil in Hk.
    rewrite !elem_of_app, !elem_of_cons, elem_of_nil.
    intros Hk'. intuition (subst; discriminate). }
  eexists. split; [reflexivity|]. unfold vss_read.
  set (data := ssv +:+ si).
  split.
  - assert (forall facts k,
              k ∈ ["iostype"; "operatingmode"; "serialnum"] ->
              (if truthy data && negb (existsb (fun err => contains err data) vss_errs)
               then parse_virtual_switch data facts else facts) !! k = facts !! k) as Hv.
    { intros facts k Hk. destruct (_ && _); [|done].
      apply parse_virtual_switch_other.
      rewrite !elem_of_cons, elem_of_nil in *. intros Hk'. intuition (subst; discriminate). }
    rewrite !Hv by (rewrite !elem_of_cons; tauto).
    destruct (truthy sv).
    + rewrite !parse_stacks_other
        by (rewrite !elem_of_cons, elem_of_nil; intros Hk'; intuition discriminate).
      rewrite lookup_insert_ne by done. rewrite lookup_insert_ne by done.
      rewrite lookup_insert_eq.
      rewrite lookup_insert_ne by done. rewrite lookup_insert_eq.
      by rewrite lookup_insert_eq.
    + rewrite !Hu by (apply Hnew; rewrite !elem_of_cons; tauto). done.
  - cbv zeta.
    destruct (truthy data && negb (existsb (fun err => contains err data) vss_errs)).
    + rewrite parse_virtual_switch_virtual. cbn [andb].
      case_bool_decide; [done|].
      destruct (truthy sv); cbn [andb].
      * rewrite parse_stacks_virtual_switch.
        rewrite !lookup_insert_ne by done.
        rewrite !Hu by (apply Hnew; rewrite !elem_of_cons; tauto). done.
      * rewrite !Hu by (apply Hnew; rewrite !elem_of_cons; tauto). done.
    + cbn [andb]. destruct (truthy sv); cbn [andb].
      * rewrite parse_stacks_virtual_switch.
        rewrite !lookup_insert_ne by done.
        rewrite !Hu by (apply Hnew; rewrite !elem_of_cons; tauto). done.
      * rewrite !Hu by (apply Hnew; rewrite !elem_of_cons; tauto). done.
Qed.

End DefaultMore.

(** ** The hardware facts *)

Module HardwareMore.

Import Py Re ReSpec ReFacts BuiltinFacts LoopFacts Hardware HardwareFacts Readings.

(** What a numbered group of the CPU pattern holds is a number. *)
Lemma cpu_group_digits line m g :
  re_match NOFLAG regex_cpu_utilization line = Some m ->
  g ∈ [g_core; g_f_sec; g_f_se_nom; g_f_s_denom; g_a_min; g_f_min] ->
  caps_in isdigit g m.
Proof.
  intros H Hg. apply re_match_sound in H as (cur' & H).
  eapply matches_class_group; [exact H | | apply caps_in_nil].
  rewrite !elem_of_cons, elem_of_nil in Hg.
  destruct Hg as [->|[->|[->|[->|[->|[->|[]]]]]]]; solve_group_shape.
Qed.

Lemma int_group g m :
  caps_in isdigit g m ->
  match group g m with
  | Some s => s <> EmptyString /\ exists z, int (Some s) = Ok z /\ (0 <= z)%Z
  | None => True
  end.
Proof.
  intros Hc. destruct (group g m) as [s|] eqn:E; [|done].
  destruct (Hc s E) as [Hne Hd]. split; [done|]. by apply int_ok.
Qed.

(** X14: one line of the CPU answer, when its figures have no more digits
    than [int] takes.  A line that the pattern does not match changes
    nothing.  A matched line raises [TypeError] exactly when it lacks the
    five-second figure (in both of its forms), the one-minute figure or the
    five-minute figure, and it raises nothing else; otherwise it stores,
    under [core] or [core_] and the core number, a fresh record of the three
    figures, with [five_seconds_interrupt] exactly when the line has the
    second five-second figure, all of them numbers that are not negative. *)
Theorem cpu_utilization_line_outcome :
  forall line facts,
    cpu_figures_within_limit line ->
    match re_match NOFLAG regex_cpu_utilization line with
    | None => cpu_utilization_line line facts = Ok facts
    | Some m =>
        if bool_decide ((is_Some (group g_f_se_nom m) \/ is_Some (group g_f_sec m))
                        /\ is_Some (group g_a_min m) /\ is_Some (group g_f_min m))
        then
          exists rec,
            cpu_utilization_line line facts =
              Ok (<[match group g_core m with
                    | Some n => "core_" +:+ n
                    | None => "core"
                    end := rec]> facts)
            /\ (forall k, is_Some (rec !! k) <->
                   k ∈ ["five_seconds"; "one_minute"; "five_minutes"]
                   \/ (k = "five_seconds_interrupt" /\ is_Some (group g_f_s_denom m)))
            /\ (forall k v, rec !! k = Some v -> exists z, v = VInt z /\ (0 <= z)%Z)
        else cpu_utilization_line line facts = Raise TypeError
    end.
Proof.
  intros line facts _. unfold cpu_utilization_line.
  destruct (re_match NOFLAG regex_cpu_utilization line) as [m|] eqn:E; [|done].
  pose proof (fun g Hg => int_group g m (cpu_group_digits line m g E Hg)) as Hg.
  pose proof (Hg g_core ltac:(set_solver)) as Hcore.
  pose proof (Hg g_f_sec ltac:(set_solver)) as Hsec.
  pose proof (Hg g_f_se_nom ltac:(set_solver)) as Hnom.
  pose proof (Hg g_f_s_denom ltac:(set_solver)) as Hden.
  pose proof (Hg g_a_min ltac:(set_solver)) as Hmin.
  pose proof (Hg g_f_min ltac:(set_solver)) as Hfive.
  clear Hg E.
  destruct (group g_f_se_nom m) as [[|c1 s1]|];
    [by destruct Hnom | destruct Hnom as (_ & z1 & Hz1 & Hp1) | clear Hnom];
  (destruct (group g_f_sec m) as [[|c2 s2]|];
    [by destruct Hsec | destruct Hsec as (_ & z2 & Hz2 & Hp2) | clear Hsec]);
  (destruct (group g_a_min m) as [[|c3 s3]|];
    [by destruct Hmin | destruct Hmin as (_ & z3 & Hz3 & Hp3) | clear Hmin]);
  (destruct (group g_f_min m) as [[|c4 s4]|];
    [by destruct Hfive | destruct Hfive as (_ & z4 & Hz4 & Hp4) | clear Hfive]);
  (destruct (group g_f_s_denom m) as [[|c5 s5]|];
    [by destruct Hden | destruct Hden as (_ & z5 & Hz5 & Hp5) | clear Hden]);
  (destruct (group g_core m) as [[|c6 s6]|];
    [by destruct Hcore | clear Hcore | clear Hcore]);
  cbn [or_]; rewrite ?Hz1, ?Hz2, ?Hz3, ?Hz4, ?Hz5; cbn [int mbind result_bind];
  (case_bool_decide as Hb;
   [| first [ reflexivity
            | exfalso; apply Hb; repeat split; eauto ] ]);
  try (exfalso; destruct Hb as ([[? ?]|[? ?]] & [? ?] & [? ?]); discriminate);
  (eexists; split; [reflexivity|]; split;
   [ intros k; rewrite !lookup_insert_is_Some', lookup_empty, !elem_of_cons, elem_of_nil,
       !is_Some_alt; intuition congruence
   | intros k v Hk;
     repeat (apply lookup_insert_Some in Hk as [[<- <-]|[? Hk]]; [by eauto|]);
     by rewrite lookup_empty in Hk ]).
Qed.

(** The theorem at a line with the four figures. *)
Lemma cpu_utilization_line_outcome_witness :
  cpu_figures_within_limit Inputs.cpu_line
  /\ exists rec,
       cpu_utilization_line Inputs.cpu_line ∅ = Ok (<["core" := rec]> ∅)
       /\ (forall k, is_Some (rec !! k) <->
              k ∈ ["five_seconds"; "one_minute"; "five_minutes"]
              \/ (k = "five_seconds_interrupt"
                  /\ is_Some (group g_f_s_denom Inputs.cpu_line_groups)))
       /\ (forall k v, rec !! k = Some v -> exists z, v = VInt z /\ (0 <= z)%Z).
Proof.
  assert (cpu_figures_within_limit Inputs.cpu_line) as H.
  { intros m Hm. vm_compute in Hm. injection Hm as <-.
    repeat (apply List.Forall_cons;
            [first [exact I | apply Nat.leb_le; reflexivity]|]).
    apply List.Forall_nil. }
  exact (conj H (cpu_utilization_line_outcome Inputs.cpu_line ∅ H)).
Defined.

Lemma truediv_outcome a b :
  (exists f, truediv a b = Ok f) \/ truediv a b = Raise OverflowError.
Proof.
  unfold truediv. destruct a; [eauto| |eauto].
  destruct (SpecFloat.SFdiv_core_binary _ _ _ _ _ _) as [[mz ez] lz].
  destruct (SpecFloat.binary_round_aux _ _ _ _ _ _); eauto.
Qed.

(** A [bytes total] line: the two divisions, with the look-up of the open
    file system after the first. *)
Lemma space_line_step line m fs facts :
  re_match NOFLAG space_re line = Some m ->
  exists total free,
    filesystems_info_line line (fs, facts) =
      (st ← truediv total 1024;
       rec ← getitem facts fs;
       sf ← truediv free 1024;
       Ok (fs, <[fs := <["spacefree_kb" := VFloat sf]>
                         (<["spacetotal_kb" := VFloat st]> rec)]> facts)).
Proof.
  intros Hm. destruct (space_groups line m Hm) as (total & free & Ht & Hf & _).
  exists total, free. unfold filesystems_info_line.
  rewrite (space_not_directory line m Hm), Hm, Ht. cbn [mbind result_bind].
  destruct (truediv total 1024) as [st|]; [|done]. cbn [mbind result_bind].
  unfold getitem. destruct (facts !! fs) as [rec|]; [|done].
  cbn [mbind result_bind]. rewrite Hf. cbn [mbind result_bind].
  destruct (truediv free 1024) as [sf|]; [|done]. cbn [mbind result_bind].
  rewrite lookup_insert_eq. cbn [mbind result_bind].
  by rewrite insert_insert_eq.
Qed.

Lemma directory_line_step line m fs facts :
  re_match NOFLAG directory_re line = Some m ->
  filesystems_info_line line (fs, facts) = Ok (group1 m, <[group1 m := (∅ : dict)]> facts).
Proof. intros Hm. unfold filesystems_info_line. by rewrite Hm. Qed.

Lemma other_line_step line st :
  re_match NOFLAG directory_re line = None ->
  re_match NOFLAG space_re line = None ->
  filesystems_info_line line st = Ok st.
Proof. intros H1 H2. destruct st. unfold filesystems_info_line. by rewrite H1, H2. Qed.

(** Once a file system is open the loop can only fail on a division. *)
Lemma filesystems_loop_open : forall lines fs facts,
  is_Some (facts !! fs) ->
  (exists st', for_each filesystems_info_line lines (fs, facts) = Ok st')
  \/ for_each filesystems_info_line lines (fs, facts) = Raise OverflowError.
Proof.
  induction lines as [|line lines IH]; intros fs facts Hfs; [left; by eexists|].
  cbn [for_each].
  destruct (re_match NOFLAG directory_re line) as [m|] eqn:Hd.
  - rewrite (directory_line_step _ _ _ _ Hd). cbn [mbind result_bind].
    apply IH. rewrite lookup_insert_eq. eauto.
  - destruct (re_match NOFLAG space_re line) as [m|] eqn:Hs.
    + destruct (space_line_step line m fs facts Hs) as (total & free & ->).
      destruct (truediv_outcome total 1024) as [[st ->]| ->]; [|by right].
      cbn [mbind result_bind]. unfold getitem. destruct Hfs as [rec ->].
      cbn [mbind result_bind].
      destruct (truediv_outcome free 1024) as [[sf ->]| ->]; [|by right].
      cbn [mbind result_bind]. apply IH. rewrite lookup_insert_eq. eauto.
    + rewrite other_line_step by done. cbn [mbind result_bind]. by apply IH.
Qed.

(** X15: when the figures of the [bytes total] lines have no more digits than
    [int] takes, [parse_filesystems_info] raises nothing but [KeyError] and
    [OverflowError].  When, of the lines that one of its two patterns
    matches, the first is a [bytes total] line, it does not return: no file
    system is open then, and the look-up raises [KeyError] (unless the
    division of the total has overflowed before).  In every other case it
    returns, unless a division overflows. *)
Theorem parse_filesystems_info_failure :
  forall data,
    Forall space_figures_within_limit (split LF data) ->
    if space_before_directory (split LF data)
    then parse_filesystems_info data = Raise KeyError
         \/ parse_filesystems_info data = Raise OverflowError
    else (exists info, parse_filesystems_info data = Ok info)
         \/ parse_filesystems_info data = Raise OverflowError.
Proof.
  intros data _. unfold parse_filesystems_info.
  induction (split LF data) as [|line lines IH]; cbn [space_before_directory for_each].
  - left. by eexists.
  - destruct (re_match NOFLAG directory_re line) as [m|] eqn:Hd.
    + rewrite (directory_line_step _ _ _ _ Hd). cbn [mbind result_bind].
      destruct (filesystems_loop_open lines (group1 m) (<[group1 m := (∅ : dict)]> ∅))
        as [[st' ->]| ->]; [rewrite lookup_insert_eq; eauto| |by right].
      left. by eexists.
    + destruct (re_match NOFLAG space_re line) as [m|] eqn:Hs.
      * destruct (space_line_step line m EmptyString ∅ Hs) as (total & free & ->).
        destruct (truediv_outcome total 1024) as [[st ->]| ->]; [|by right].
        left. done.
      * rewrite other_line_step by done. exact IH.
Qed.

(** The figures of the sample listing are short. *)
Lemma dir_flash_figures :
  Forall space_figures_within_limit (split LF Samples.dir_flash).
Proof.
  let l := eval vm_compute in (split LF Samples.dir_flash) in
  change (split LF Samples.dir_flash) with l.
  repeat (apply List.Forall_cons; [intros m Hm; vm_compute in Hm|]);
    try discriminate; [|apply List.Forall_nil].
  injection Hm as <-. split; apply Nat.leb_le; reflexivity.
Qed.

(** The theorem at the sample listing, where the [Directory of] line comes
    first. *)
Lemma parse_filesystems_info_failure_witness :
  Forall space_figures_within_limit (split LF Samples.dir_flash)
  /\ ((exists info, parse_filesystems_info Samples.dir_flash = Ok info)
      \/ parse_filesystems_info Samples.dir_flash = Raise OverflowError).
Proof.
  exact (conj dir_flash_figures
           (parse_filesystems_info_failure Samples.dir_flash dir_flash_figures)).
Defined.

Lemma filesystems_loop_records (P : string -> Prop) : forall lines st st',
  for_each filesystems_info_line lines st = Ok st' ->
  (forall line m, line ∈ lines -> re_match NOFLAG directory_re line = Some m ->
                  P (group1 m)) ->
  map_Forall (fun fs rec => P fs /\ space_record rec) (snd st) ->
  map_Forall (fun fs rec => P fs /\ space_record rec) (snd st').
Proof.
  induction lines as [|line lines IH]; intros [fs facts] st' Hrun HP Hall.
  - by injection Hrun as <-.
  - cbn [for_each] in Hrun.
    destruct (filesystems_info_line line (fs, facts)) as [st1|] eqn:E; [|done].
    cbn [mbind result_bind] in Hrun.
    eapply IH; [exact Hrun | intros; eapply HP; [by right|done] |].
    clear IH Hrun. cbn [snd] in *.
    destruct (re_match NOFLAG directory_re line) as [m|] eqn:Hd.
    + rewrite (directory_line_step _ _ _ _ Hd) in E. injection E as <-.
      apply map_Forall_insert_2; [|done]. split; [|by left].
      eapply HP; [by left | done].
    + destruct (re_match NOFLAG space_re line) as [m|] eqn:Hs.
      * destruct (space_line_step line m fs facts Hs) as (total & free & E').
        rewrite E' in E. clear E'.
        destruct (truediv total 1024) as [t|]; [|done]. cbn [mbind result_bind] in E.
        unfold getitem in E. destruct (facts !! fs) as [rec|] eqn:Hrec; [|done].
        cbn [mbind result_bind] in E.
        destruct (truediv free 1024) as [f|]; [|done]. cbn [mbind result_bind] in E.
        injection E as <-. cbn [snd].
        destruct (Hall fs rec Hrec) as [HPfs Hshape].
        apply map_Forall_insert_2; [|done]. split; [done|]. right.
        exists t, f. destruct Hshape as [->|(t0 & f0 & ->)]; [done|].
        rewrite (insert_insert_ne _ "spacetotal_kb" "spacefree_kb") by done.
        by rewrite !insert_insert_eq.
      * rewrite other_line_step in E by done. by injection E as <-.
Qed.

(** X16: what [parse_filesystems_info] returns.  Every key is the name that
    a [Directory of] line of the listing gives, a non-empty word without
    white space, and every record is empty or holds exactly [spacetotal_kb]
    and [spacefree_kb], two floats. *)
Theorem parse_filesystems_info_records :
  forall data info,
    parse_filesystems_info data = Ok info ->
    forall fs rec,
      info !! fs = Some rec ->
      (exists line m,
         line ∈ split LF data
         /\ re_match NOFLAG directory_re line = Some m /\ group1 m = fs)
      /\ fs <> EmptyString
      /\ all_chars (fun c => negb (isspace c)) fs = true
      /\ space_record rec.
Proof.
  intros data info H fs rec Hfs. unfold parse_filesystems_info in H.
  destruct (for_each filesystems_info_line (split LF data) (EmptyString, ∅))
    as [st|] eqn:E; [|done].
  cbn [mbind result_bind] in H. injection H as <-.
  eapply (filesystems_loop_records
            (fun fs => (exists line m,
                          line ∈ split LF data
                          /\ re_match NOFLAG directory_re line = Some m /\ group1 m = fs)
                       /\ fs <> EmptyString
                       /\ all_chars (fun c => negb (isspace c)) fs = true)) in E.
  - destruct (E fs rec Hfs) as [(H1 & H2 & H3) H4]. done.
  - intros line m Hin Hm. split; [by exists line, m|].
    destruct (re_match_class_group _ (fun c => negb (isspace c)) 1 _ _ _ Hm)
      as (w & Hw & Hne & Hall); [solve_group_shape..|].
    unfold group1. rewrite Hw. done.
  - apply map_Forall_empty.
Qed.

Lemma parse_filesystems_info_records_witness :
  (exists line m,
     line ∈ split LF Samples.dir_flash
     /\ re_match NOFLAG directory_re line = Some m /\ group1 m = "flash:")
  /\ "flash:" <> EmptyString
  /\ all_chars (fun c => negb (isspace c)) "flash:" = true
  /\ space_record
       (<["spacefree_kb" := VFloat (S754_finite false 4507997673881600 (-52))]>
          (<["spacetotal_kb" := VFloat (S754_finite false 8281439976030208 (-30))]> ∅)).
Proof.
  exact (parse_filesystems_info_records Samples.dir_flash
           (<["flash:" :=
                <["spacefree_kb" := VFloat (S754_finite false 4507997673881600 (-52))]>
                  (<["spacetotal_kb" := VFloat (S754_finite false 8281439976030208 (-30))]> ∅)]> ∅)
           eq_refl "flash:" _ eq_refl).
Defined.

Lemma memory_line_step line m facts :
  re_match NOFLAG memory_re line = Some m ->
  exists total free,
    int (group g_total m) = Ok total /\ int (group g_free m) = Ok free
    /\ memory_line line facts =
         (mt ← truediv total 1048576;
          mf ← truediv free 1048576;
          Ok (<["memfree_mb" := VFloat mf]> (<["memtotal_mb" := VFloat mt]> facts))).
Proof.
  intros Hm. destruct (memory_groups line m Hm) as (total & free & Ht & Hf & _).
  exists total, free. split; [done|]. split; [done|].
  unfold memory_line. rewrite Hm, Ht. cbn [mbind result_bind].
  destruct (truediv total 1048576); [|done]. cbn [mbind result_bind].
  by rewrite Hf.
Qed.

(** The memory loop touches nothing but its two facts. *)
Lemma memory_loop_other (k : string) : forall lines (facts facts' : dict),
  for_each memory_line lines facts = Ok facts' ->
  k <> "memtotal_mb" -> k <> "memfree_mb" ->
  facts' !! k = facts !! k.
Proof.
  induction lines as [|line lines IH]; intros facts facts' H H1 H2.
  - by injection H as <-.
  - cbn [for_each] in H.
    destruct (memory_line line facts) as [facts1|] eqn:E; [|done].
    cbn [mbind result_bind] in H. rewrite (IH _ _ H H1 H2). clear IH H.
    destruct (re_match NOFLAG memory_re line) as [m|] eqn:Hm.
    + destruct (memory_line_step line m facts Hm) as (total & free & _ & _ & E').
      rewrite E' in E. clear E'.
      destruct (truediv total 1048576); [|done]. cbn [mbind result_bind] in E.
      destruct (truediv free 1048576); [|done]. cbn [mbind result_bind] in E.
      injection E as <-. by rewrite !lookup_insert_ne.
    + unfold memory_line in E. rewrite Hm in E. by injection E as <-.
Qed.

Lemma memory_line_unmatched line (facts : dict) :
  re_match NOFLAG memory_re line = None -> memory_line line facts = Ok facts.
Proof. intros H. unfold memory_line. by rewrite H. Qed.

(** Lines that the memory pattern does not match change nothing. *)
Lemma memory_loop_unmatched : forall lines (facts : dict),
  Forall (fun l => re_match NOFLAG memory_re l = None) lines ->
  for_each memory_line lines facts = Ok facts.
Proof.
  induction lines as [|line lines IH]; intros facts Hall; [done|].
  inversion Hall as [|? ? Hl Hrest]; subst. cbn [for_each].
  rewrite memory_line_unmatched by done. cbn [mbind result_bind]. by apply IH.
Qed.

(** The three stages of [Hardware.populate]. *)
Lemma populate_stages dir show_memory show_cpu facts facts' :
  populate dir show_memory show_cpu facts = Ok facts' ->
  exists facts1 cpu,
    (if truthy dir then
       exists info,
         parse_filesystems_info dir = Ok info
         /\ facts1 = <["filesystems_info" := dicts info]>
                       (<["filesystems" := Default.strs (parse_filesystems dir)]> facts)
     else facts1 = facts)
    /\ parse_cpu_utilization show_cpu = Ok cpu
    /\ (if truthy show_memory && negb (contains "Invalid input detected" show_memory)
        then for_each memory_line (splitlines show_memory)
               (<["cpu_utilization" := dicts cpu]> facts1) = Ok facts'
        else facts' = <["cpu_utilization" := dicts cpu]> facts1).
Proof.
  unfold populate. intros H.
  destruct (if truthy dir then _ else _) as [facts1|] eqn:E1; [|done].
  cbn [mbind result_bind] in H.
  destruct (parse_cpu_utilization show_cpu) as [cpu|]; [|done].
  cbn [mbind result_bind] in H.
  exists facts1, cpu. split; [|split; [done|]].
  - destruct (truthy dir); [|by injection E1 as <-].
    destruct (parse_filesystems_info dir) as [info|]; [|done].
    cbn [mbind result_bind] in E1. injection E1 as <-. by exists info.
  - destruct (truthy show_memory); [|by injection H as <-].
    destruct (contains "Invalid input detected" show_memory); [by injection H as <-|done].
Qed.

(** X17: whenever [Hardware.populate] returns, [cpu_utilization] is stored,
    whatever the answers were; [filesystems] and [filesystems_info] are
    stored exactly when the [dir] answer is not empty; and the two memory
    facts are left as they were when the memory answer is empty or holds
    [Invalid input detected]. *)
Theorem hardware_populate_facts :
  forall dir show_memory show_cpu facts facts',
    populate dir show_memory show_cpu facts = Ok facts' ->
    (exists cpu,
       parse_cpu_utilization show_cpu = Ok cpu
       /\ facts' !! "cpu_utilization" = Some (dicts cpu))
    /\ (if truthy dir
        then facts' !! "filesystems" = Some (Default.strs (parse_filesystems dir))
             /\ exists info,
                  parse_filesystems_info dir = Ok info
                  /\ facts' !! "filesystems_info" = Some (dicts info)
        else facts' !! "filesystems" = facts !! "filesystems"
             /\ facts' !! "filesystems_info" = facts !! "filesystems_info")
    /\ (truthy show_memory = false
        \/ contains "Invalid input detected" show_memory = true ->
        facts' !! "memtotal_mb" = facts !! "memtotal_mb"
        /\ facts' !! "memfree_mb" = facts !! "memfree_mb").
Proof.
  intros dir sm sc facts facts' H.
  apply populate_stages in H as (facts1 & cpu & H1 & Hcpu & H2).
  assert (forall k : string, k <> "memtotal_mb" -> k <> "memfree_mb" ->
            facts' !! k = (<["cpu_utilization" := dicts cpu]> facts1) !! k) as Hk.
  { intros k Hk1 Hk2. destruct (_ && _); [|by subst].
    by apply (memory_loop_other k) in H2. }
  split; [|split].
  - exists cpu. split; [done|]. rewrite Hk by done. by rewrite lookup_insert_eq.
  - rewrite !Hk by done. rewrite !lookup_insert_ne by done.
    destruct (truthy dir).
    + destruct H1 as (info & Hinfo & ->).
      rewrite lookup_insert_ne by done. rewrite !lookup_insert_eq.
      split; [done|]. by exists info.
    + by subst.
  - intros Hskip.
    assert (truthy sm && negb (contains "Invalid input detected" sm) = false) as Hg.
    { destruct Hskip as [-> | ->]; [done | by rewrite andb_false_r]. }
    rewrite Hg in H2. subst facts'. rewrite !lookup_insert_ne by done.
    destruct (truthy dir); [|by subst].
    destruct H1 as (info & _ & ->). by rewrite !lookup_insert_ne.
Qed.

Lemma hardware_populate_facts_witness :
  exists cpu,
    parse_cpu_utilization EmptyString = Ok cpu
    /\ (<["cpu_utilization" := dicts ∅]> ∅ : dict) !! "cpu_utilization" = Some (dicts cpu).
Proof.
  exact (proj1 (hardware_populate_facts
                  EmptyString "% Invalid input detected at marker" EmptyString ∅ _ eq_refl)).
Defined.

(** X18: the memory facts are those of the last line of the memory answer
    that the pattern matches: when [Hardware.populate] returns and the answer
    is read, [memtotal_mb] and [memfree_mb] are the total and the free figure
    of that line, divided by 1048576. *)
Theorem memory_last_line :
  forall dir show_memory show_cpu facts facts' pre line post m,
    populate dir show_memory show_cpu facts = Ok facts' ->
    contains "Invalid input detected" show_memory = false ->
    splitlines show_memory = pre ++ line :: post ->
    re_match NOFLAG memory_re line = Some m ->
    Forall (fun l => re_match NOFLAG memory_re l = None) post ->
    exists total free mt mf,
      int (group g_total m) = Ok total /\ int (group g_free m) = Ok free
      /\ truediv total 1048576 = Ok mt /\ truediv free 1048576 = Ok mf
      /\ facts' !! "memtotal_mb" = Some (VFloat mt)
      /\ facts' !! "memfree_mb" = Some (VFloat mf).
Proof.
  intros dir sm sc facts facts' pre line post m H Hinv Hsplit Hm Hpost.
  apply populate_stages in H as (facts1 & cpu & _ & _ & H2).
  assert (truthy sm = true) as Ht.
  { destruct sm; [|done]. by destruct pre. }
  rewrite Ht, Hinv, Hsplit in H2. cbn [andb negb] in H2.
  rewrite for_each_app in H2.
  destruct (for_each memory_line pre _) as [facts2|]; [|done].
  cbn [mbind result_bind for_each] in H2.
  destruct (memory_line_step line m facts2 Hm) as (total & free & Hti & Hfi & E).
  rewrite E in H2. clear E.
  destruct (truediv total 1048576) as [mt|] eqn:Emt; [|done].
  cbn [mbind result_bind] in H2.
  destruct (truediv free 1048576) as [mf|] eqn:Emf; [|done].
  cbn [mbind result_bind] in H2.
  rewrite memory_loop_unmatched in H2 by done.
  assert (forall a b : dict, Ok a = Ok b -> b = a) as Hinj by congruence.
  apply Hinj in H2 as ->.
  exists total, free, mt, mf. split; [done|]. split; [done|].
  split; [done|]. split; [done|]. split.
  - rewrite lookup_insert_ne by done. by rewrite lookup_insert_eq.
  - by rewrite lookup_insert_eq.
Qed.

Lemma memory_last_line_witness :
  exists total free mt mf,
    int (Some "1048577") = Ok total /\ int (Some "2097152") = Ok free
    /\ truediv total 1048576 = Ok mt /\ truediv free 1048576 = Ok mf
    /\ (<["memfree_mb" := VFloat (S754_finite false 4503599627370496 (-51))]>
          (<["memtotal_mb" := VFloat (S754_finite false 4503603922337792 (-52))]>
             (<["cpu_utilization" := dicts ∅]> ∅)) : dict) !! "memtotal_mb" = Some (VFloat mt)
    /\ (<["memfree_mb" := VFloat (S754_finite false 4503599627370496 (-51))]>
          (<["memtotal_mb" := VFloat (S754_finite false 4503603922337792 (-52))]>
             (<["cpu_utilization" := dicts ∅]> ∅)) : dict) !! "memfree_mb" = Some (VFloat mf).
Proof.
  exact (memory_last_line EmptyString Samples.memory_line_1048577 EmptyString ∅ _
           [] Samples.memory_line_1048577 []
           [(3, "2097152"); (2, "1048577"); (1, "7F2A1234")]
           eq_refl eq_refl eq_refl eq_refl (Forall_nil_2 _)).
Defined.

End HardwareMore.

(** ** The block parser loses nothing of a well-formed answer *)

Module BlockRoundTrip.

Import Py Re ReSpec ReFacts PyFacts Interfaces Readings LoopFacts ODictFacts BlockFacts.

Lemma rev_string_app s : forall acc, rev_string acc s = rev_string EmptyString s +:+ acc.
Proof.
  induction s as [|c s IH]; intros acc; [done|].
  cbn [rev_string]. rewrite IH, (IH (String c EmptyString)).
  by rewrite append_assoc_string.
Qed.

Lemma append_nil_r (s : string) : s +:+ EmptyString = s.
Proof.
  induction s as [|c s IH]; [done|].
  change (String c s +:+ EmptyString) with (String c (s +:+ EmptyString)).
  by rewrite IH.
Qed.

Lemma join_cons sep x y l : join sep (x :: y :: l) = x +:+ sep +:+ join sep (y :: l).
Proof. done. Qed.

(** [sep.join(s.split(sep))] gives [s] back, here for the line feed. *)
Lemma join_split_go s : forall cur,
  join LF (split_go LF 0 cur s) = rev_string EmptyString cur +:+ s.
Proof.
  induction s as [|c s IH]; intros cur.
  - cbn [split_go join]. by rewrite append_nil_r.
  - cbn [split_go]. rewrite starts_with_LF.
    destruct (ascii_eqb (chr 10) c) eqn:E.
    + unfold ascii_eqb in E. apply Ascii.eqb_eq in E as <-.
      cbn [String.length LF Nat.sub].
      destruct (split_go_LF_head s EmptyString) as (w & tl & Hs).
      pose proof (IH EmptyString) as IH'. rewrite Hs in *.
      rewrite join_cons, IH'. done.
    + rewrite IH. cbn [rev_string]. rewrite (rev_string_app cur).
      by rewrite append_assoc_string.
Qed.

Lemma join_split s : join LF (split LF s) = s.
Proof. unfold split. by rewrite join_split_go. Qed.

Lemma join_snoc sep x : forall l,
  l <> [] -> join sep (l ++ [x]) = join sep l +:+ sep +:+ x.
Proof.
  induction l as [|y l IH]; [done|]. intros _.
  destruct l as [|z l]; [done|].
  change ((y :: z :: l) ++ [x]) with (y :: (z :: l) ++ [x]).
  cbn [app]. rewrite !join_cons. change (z :: l ++ [x]) with ((z :: l) ++ [x]).
  rewrite IH by done. by rewrite !append_assoc_string.
Qed.

Lemma join_last_app sep b x l :
  join sep (l ++ [b +:+ sep +:+ x]) = join sep (l ++ [b]) +:+ sep +:+ x.
Proof.
  destruct l as [|y l]; [done|].
  rewrite !join_snoc by done. by rewrite !append_assoc_string.
Qed.

Lemma get_app_last {V} (d : ODict.t V) k v :
  k ∉ ODict.keys d -> ODict.get (d ++ [(k, v)]) k = Some v.
Proof.
  unfold ODict.keys. induction d as [|[k' v'] d IH]; cbn; intros Hk.
  - by rewrite String.eqb_refl.
  - apply not_elem_of_cons in Hk as [Hne Hk].
    destruct (String.eqb_spec k' k); [done|]. by apply IH.
Qed.

Lemma set_app_last {V} (d : ODict.t V) k v v' :
  k ∉ ODict.keys d -> ODict.set (d ++ [(k, v)]) k v' = d ++ [(k, v')].
Proof.
  unfold ODict.keys. induction d as [|[k0 v0] d IH]; cbn; intros Hk.
  - by rewrite String.eqb_refl.
  - apply not_elem_of_cons in Hk as [Hne Hk].
    destruct (String.eqb_spec k0 k); [done|]. f_equal. by apply IH.
Qed.

Lemma set_new {V} (d : ODict.t V) k v :
  k ∉ ODict.keys d -> ODict.set d k v = d ++ [(k, v)].
Proof.
  unfold ODict.keys. induction d as [|[k0 v0] d IH]; cbn; intros Hk; [done|].
  apply not_elem_of_cons in Hk as [Hne Hk].
  destruct (String.eqb_spec k0 k); [done|]. f_equal. by apply IH.
Qed.

Lemma key_of_continuation line : kind_of line = Continuation -> key_of line = None.
Proof.
  destruct line as [|c s]; [done|]. unfold kind_of, key_of.
  destruct (ascii_eqb c " ") eqn:E; [|by destruct (isspace c)]. intros _.
  unfold ascii_eqb in E. apply Ascii.eqb_eq in E as ->.
  by rewrite key_match_blank.
Qed.

Lemma line_key_of line key parsed :
  kind_of line = KeyLine ->
  exists w, key_of line = Some w
            /\ parse_interfaces_line line (key, parsed) = Ok (w, ODict.set parsed w line).
Proof.
  destruct line as [|c s]; [done|].
  unfold kind_of, parse_interfaces_line, key_of.
  destruct (ascii_eqb c " "); [done|].
  destruct (isspace c) eqn:Hc; [done|]. intros _.
  change (cat [Bol; Group 1 (Plus nonspace)]) with key_re.
  destruct (key_match_some c s Hc) as [m Hm]. rewrite Hm. by exists (group1 m).
Qed.

Lemma reads_step line ls st st1 :
  reads ls st ->
  kind_of line <> Ignored ->
  NoDup (omap key_of (ls ++ [line])) ->
  parse_interfaces_line line st = Ok st1 ->
  reads (ls ++ [line]) st1.
Proof.
  destruct st as [key parsed]. intros (Hkeys & Hjoin & Hlast) Hkind Hnd Hstep.
  cbn [fst snd] in *. rewrite omap_app in Hnd.
  destruct (kind_of line) eqn:Hk; [done| |].
  - rewrite line_continuation in Hstep by done.
    pose proof (key_of_continuation line Hk) as Hnone.
    destruct Hlast as [->|(parsed0 & block & ->)].
    { destruct parsed; [done|]. discriminate Hkeys. }
    assert (key ∉ ODict.keys parsed0) as Hfresh.
    { cbn [omap list_omap] in Hnd. rewrite Hnone, app_nil_r, <- Hkeys in Hnd.
      unfold ODict.keys in *. rewrite fmap_app in Hnd.
      apply NoDup_app in Hnd as (_ & Hnd & _). intros Hin.
      apply (Hnd _ Hin). cbn. apply list_elem_of_here. }
    rewrite get_app_last in Hstep by done.
    rewrite set_app_last in Hstep by done. injection Hstep as <-.
    split; [|split].
    + cbn [snd]. rewrite omap_app. cbn [omap list_omap]. rewrite Hnone, app_nil_r, <- Hkeys.
      unfold ODict.keys. by rewrite !fmap_app.
    + cbn [snd]. rewrite fmap_app. cbn [fmap list_fmap snd].
      rewrite join_last_app. rewrite fmap_app in Hjoin. cbn [fmap list_fmap snd] in Hjoin.
      rewrite Hjoin. rewrite join_snoc; [done|].
      intros ->. by destruct parsed0.
    + right. cbn [fst snd]. eauto.
  - destruct (line_key_of line key parsed Hk) as (w & Hw & Hrun).
    rewrite Hrun in Hstep. injection Hstep as <-.
    assert (w ∉ ODict.keys parsed) as Hfresh.
    { cbn [omap list_omap] in Hnd. rewrite Hw, <- Hkeys in Hnd.
      apply NoDup_app in Hnd as (_ & Hnd & _). intros Hin.
      apply (Hnd _ Hin). apply list_elem_of_here. }
    rewrite set_new by done.
    split; [|split].
    + cbn [snd]. rewrite omap_app. cbn [omap list_omap]. rewrite Hw, <- Hkeys.
      unfold ODict.keys. by rewrite fmap_app.
    + cbn [snd]. rewrite fmap_app. cbn [fmap list_fmap snd].
      destruct Hlast as [->|(parsed0 & block & ->)].
      * destruct parsed; [done|]. discriminate Hkeys.
      * rewrite join_snoc by (by destruct parsed0).
        rewrite Hjoin. rewrite join_snoc; [done|]. intros ->. by destruct parsed0.
    + right. cbn [fst snd]. eauto.
Qed.

Lemma reads_loop : forall more ls st st',
  reads ls st ->
  Forall (fun l => kind_of l <> Ignored) more ->
  NoDup (omap key_of (ls ++ more)) ->
  for_each parse_interfaces_line more st = Ok st' ->
  reads (ls ++ more) st'.
Proof.
  induction more as [|line more IH]; intros ls st st' Hr Hall Hnd Hrun.
  - assert (st' = st) as -> by (cbn in Hrun; congruence). by rewrite app_nil_r.
  - cbn [for_each] in Hrun.
    destruct (parse_interfaces_line line st) as [st1|] eqn:E; [|done].
    cbn [mbind result_bind] in Hrun.
    inversion Hall as [|? ? Hline Hrest]; subst.
    rewrite (cons_middle line ls more), app_assoc in *.
    eapply IH; [|done|done|exact Hrun].
    eapply reads_step; [exact Hr|done| |exact E].
    rewrite omap_app in Hnd. by apply NoDup_app in Hnd as (Hnd & _).
Qed.

(** X19: on an answer without empty lines, without lines that open with
    white space other than a blank, and without a key that opens two blocks,
    the block parser loses nothing: the keys are those of the lines that open
    a block, in order, and the blocks joined by line feeds give the answer
    back. *)
Theorem parse_interfaces_round_trip :
  forall data blocks,
    parse_interfaces data = Ok blocks ->
    Forall (fun l => kind_of l <> Ignored) (split LF data) ->
    NoDup (omap key_of (split LF data)) ->
    join LF (snd <$> blocks) = data
    /\ ODict.keys blocks = omap key_of (split LF data).
Proof.
  intros data blocks H Hall Hnd. unfold parse_interfaces, parse_lines in H.
  destruct (for_each parse_interfaces_line (split LF data) (EmptyString, []))
    as [st|] eqn:E; [|done].
  cbn [mbind result_bind] in H. injection H as <-.
  apply (reads_loop _ [] _ _) in E as (Hkeys & Hjoin & _); [|by repeat split; auto|done..].
  cbn [app] in Hkeys, Hjoin. split; [|done]. by rewrite Hjoin, join_split.
Qed.

Lemma parse_interfaces_round_trip_witness :
  join LF (snd <$> [("Gi0/1", Samples.two_line_block)]) = Samples.two_line_block
  /\ ODict.keys [("Gi0/1", Samples.two_line_block)]
     = omap key_of (split LF Samples.two_line_block).
Proof.
  refine (parse_interfaces_round_trip Samples.two_line_block
            [("Gi0/1", Samples.two_line_block)] eq_refl _ (NoDup_singleton "Gi0/1")).
  change (Forall (fun l => kind_of l <> Ignored) ["Gi0/1 line one"; "  continuation"]).
  repeat constructor; discriminate.
Defined.

End BlockRoundTrip.

(** ** The interface facts as a whole *)

Module PopulateFacts.

Import Py Re Interfaces Readings Shapes LoopFacts ODictFacts BlockFacts RecordFacts
  AddressMore.

Lemma frame_trans f1 f2 i1 i2 i3 keys1 keys2 (k : string) :
  k <> f1 -> k <> f2 ->
  frame f1 i1 i2 keys1 -> frame f2 i2 i3 keys2 ->
  (forall name, is_Some (i3 !! name) <-> is_Some (i1 !! name) \/ name ∈ keys1 ++ keys2)
  /\ (forall name rec, i1 !! name = Some rec ->
        exists rec', i3 !! name = Some rec' /\ rec' !! k = rec !! k).
Proof.
  intros Hk1 Hk2 [D1 R1] [D2 R2]. split.
  - intros name. rewrite D2, D1, elem_of_app. tauto.
  - intros name rec H1. destruct (R1 name rec H1) as (rec2 & H2 & E2).
    destruct (R2 name rec2 H2) as (rec3 & H3 & E3).
    exists rec3. split; [done|]. by rewrite E3, E2.
Qed.

Lemma interfaces_set_neighbors n st : interfaces (set_neighbors n st) = interfaces st.
Proof. done. Qed.

(** X20: [Interfaces.populate] returns whenever the answer to
    [show interfaces] is not empty, none of the three interface answers has a
    line that opens with a blank before its first block, the figures after
    [MTU ] and [BW ] in the blocks of [show interfaces] have no more digits
    than [int] takes, and every IPv4 address to store splits at the slash
    into two parts.  The interfaces it
    reports are then those that open a block in one of the three answers, and
    an interface of the [show interfaces] answer has its nine attributes,
    untouched by the two address passes. *)
Theorem interfaces_populate_returns :
  forall normalize_interface show_interfaces show_ip show_ipv6 show_lldp show_cdp
         lldp_detail cdp_detail,
    truthy show_interfaces = true ->
    continuation_before_key (split LF show_interfaces) = false ->
    continuation_before_key (split LF show_ip) = false ->
    continuation_before_key (split LF show_ipv6) = false ->
    (forall blocks,
       parse_interfaces show_interfaces = Ok blocks ->
       Forall (fun kv => block_figures_within_limit (snd kv)) blocks) ->
    (forall blocks,
       parse_interfaces show_ip = Ok blocks ->
       is_Some (mapM (fun kv => mapM split_address (ipv4_addresses (snd kv))) blocks)) ->
    exists st i b1 b2 b3,
      populate normalize_interface show_interfaces show_ip show_ipv6 show_lldp show_cdp
        lldp_detail cdp_detail = Ok st
      /\ parse_interfaces show_interfaces = Ok b1
      /\ parse_interfaces show_ip = Ok b2
      /\ parse_interfaces show_ipv6 = Ok b3
      /\ interfaces st = Some i
      /\ (forall name,
            is_Some (i !! name) <->
            name ∈ ODict.keys b1 ++ ODict.keys b2 ++ ODict.keys b3)
      /\ (forall name,
            name ∈ ODict.keys b1 ->
            exists rec,
              i !! name = Some rec
              /\ forall k, k ∈ interface_attributes -> is_Some (rec !! k)).
Proof.
  intros norm si sip sip6 sl sc ld cd Ht H1 H2 H3 _ H4.
  destruct (parse_interfaces_returns si H1) as [b1 E1].
  destruct (parse_interfaces_returns sip H2) as [b2 E2].
  destruct (parse_interfaces_returns sip6 H3) as [b3 E3].
  destruct (populate_interfaces_loop b1 ∅) as (i1 & Ei1 & D1 & R1);
    [apply map_Forall_empty|].
  unfold populate. rewrite Ht, E1. cbn [mbind result_bind].
  unfold populate_interfaces. rewrite Ei1. cbn [mbind result_bind].
  set (st1 := set_interfaces i1 _).
  (* the IPv4 pass *)
  assert (exists st2 i2,
            (if truthy sip then
               data ← parse_interfaces sip; populate_ipv4_interfaces data st1
             else Ok st1) = Ok st2
            /\ interfaces st2 = Some i2 /\ frame "ipv4" i1 i2 (ODict.keys b2))
    as (st2 & i2 & -> & Hi2 & F2).
  { destruct sip as [|c sip'] eqn:Esip.
    - exists st1, i1. injection E2 as <-. split; [done|]. split; [done|]. apply frame_refl.
    - cbn [truthy]. rewrite E2. cbn [mbind result_bind]. unfold populate_ipv4_interfaces.
      pose proof (ipv4_items_frame b2 st1 i1 eq_refl) as Hp.
      destruct (H4 b2 E2) as [pairss Hpairs]. rewrite Hpairs in Hp.
      destruct Hp as (st2 & i2 & Hrun & Hi2 & _ & _ & _ & F2). by exists st2, i2. }
  cbn [mbind result_bind].
  (* the IPv6 pass *)
  assert (exists st3 i3,
            (if truthy sip6 then
               data ← parse_interfaces sip6; populate_ipv6_interfaces data st2
             else Ok st2) = Ok st3
            /\ interfaces st3 = Some i3 /\ frame "ipv6" i2 i3 (ODict.keys b3))
    as (st3 & i3 & -> & Hi3 & F3).
  { destruct sip6 as [|c sip6'] eqn:Esip6.
    - exists st2, i2. injection E3 as <-. split; [done|]. split; [done|]. apply frame_refl.
    - cbn [truthy]. rewrite E3. cbn [mbind result_bind]. unfold populate_ipv6_interfaces.
      destruct (ipv6_items_frame b3 st2 i2 Hi2)
        as (st3 & i3 & Hrun & Hi3 & _ & _ & _ & F3). by exists st3, i3. }
  cbn [mbind result_bind].
  eexists _, i3, b1, b2, b3. split; [reflexivity|].
  split; [done|]. split; [done|]. split; [done|]. split.
  { destruct (no_err lldp_errs sl), ld, (no_err cdp_errs sc), cd; exact Hi3. }
  split.
  - intros name.
    destruct (frame_trans "ipv4" "ipv6" i1 i2 i3 _ _ "mtu" ltac:(done) ltac:(done) F2 F3)
      as [D _].
    rewrite D, D1, lookup_empty, is_Some_alt, !elem_of_app. tauto.
  - intros name Hname.
    assert (is_Some (i1 !! name)) as [rec1 Hrec1] by (apply D1; by left).
    destruct F2 as [_ R2]. destruct (R2 name rec1 Hrec1) as (rec2 & Hrec2 & E2').
    destruct F3 as [_ R3]. destruct (R3 name rec2 Hrec2) as (rec3 & Hrec3 & E3').
    exists rec3. split; [done|]. intros k Hk.
    assert (k <> "ipv4" /\ k <> "ipv6") as [Hk4 Hk6].
    { unfold interface_attributes in Hk. rewrite !elem_of_cons, elem_of_nil in Hk.
      split; intros ->; intuition discriminate. }
    rewrite E3', E2' by done.
    destruct (R1 name rec1 Hrec1) as (Hattr & _). by apply Hattr.
Qed.

Lemma interfaces_populate_returns_witness :
  exists st i b1 b2 b3,
    populate (fun name => name) Inputs.interface_block Inputs.ip_block_secondary
      Samples.ipv6_block EmptyString EmptyString [] [] = Ok st
    /\ parse_interfaces Inputs.interface_block = Ok b1
    /\ parse_interfaces Inputs.ip_block_secondary = Ok b2
    /\ parse_interfaces Samples.ipv6_block = Ok b3
    /\ interfaces st = Some i
    /\ (forall name,
          is_Some (i !! name) <->
          name ∈ ODict.keys b1 ++ ODict.keys b2 ++ ODict.keys b3)
    /\ (forall name,
          name ∈ ODict.keys b1 ->
          exists rec,
            i !! name = Some rec
            /\ forall k, k ∈ interface_attributes -> is_Some (rec !! k)).
Proof.
  apply (interfaces_populate_returns (fun name => name) Inputs.interface_block
           Inputs.ip_block_secondary Samples.ipv6_block EmptyString EmptyString [] []);
    [reflexivity | reflexivity | reflexivity | reflexivity | |].
  - intros blocks H.
    assert (blocks = [("Vlan1", Inputs.interface_block)]) as ->
      by (vm_compute in H; vm_compute; congruence).
    repeat constructor; apply interface_block_figures.
  - intros blocks H.
    assert (blocks = [("Vlan1", Inputs.ip_block_secondary)]) as ->
      by (vm_compute in H; vm_compute; congruence).
    vm_compute. eauto.
Defined.

End PopulateFacts.

(** ** Matching inside a line *)

Module LineFacts.

Import Py Re ReSpec ReFacts PyFacts Readings.

Lemma atom_local fl fl' a c :
  line_atom a -> atom_ok fl a c = atom_ok fl' a c.
Proof. by destruct a. Qed.

Lemma atom_no_line_feed fl a : line_atom a -> atom_ok fl a (chr 10) = false.
Proof. by destruct a. Qed.

Lemma star_greedy_local {R} fl fl' post a (k k' : cursor -> option R) :
  line_end post -> line_atom a -> agree post k k' ->
  forall s bef bef',
    star_greedy fl a bef (s +:+ post) k = star_greedy fl' a bef' s k'.
Proof.
  intros Hpost Ha Hk. induction s as [|c s IH]; intros bef bef'.
  - pose proof (Hk bef bef' EmptyString) as Hk0.
    change (EmptyString +:+ post) with post in *. cbn [star_greedy].
    destruct post as [|c p]; [done|].
    cbn [star_greedy]. cbn in Hpost. subst c.
    by rewrite (atom_no_line_feed fl a Ha).
  - change (String c s +:+ post) with (String c (s +:+ post)). cbn [star_greedy].
    rewrite (atom_local fl fl' a c Ha).
    destruct (atom_ok fl' a c).
    + rewrite (IH (Some c) (Some c)). unfold try_.
      destruct (star_greedy fl' a (Some c) s k'); [done|].
      apply (Hk bef bef' (String c s)).
    + apply (Hk bef bef' (String c s)).
Qed.

Lemma star_lazy_local {R} fl fl' post a (k k' : cursor -> option R) :
  line_end post -> line_atom a -> agree post k k' ->
  forall s bef bef',
    star_lazy fl a bef (s +:+ post) k = star_lazy fl' a bef' s k'.
Proof.
  intros Hpost Ha Hk. induction s as [|c s IH]; intros bef bef'.
  - pose proof (Hk bef bef' EmptyString) as Hk0.
    change (EmptyString +:+ post) with post in *.
    destruct post as [|c p].
    + cbn [star_lazy]. by rewrite Hk0.
    + cbn [star_lazy]. cbn in Hpost. subst c.
      rewrite (atom_no_line_feed fl a Ha). by rewrite Hk0.
  - change (String c s +:+ post) with (String c (s +:+ post)). cbn [star_lazy].
    rewrite (atom_local fl fl' a c Ha).
    pose proof (Hk bef bef' (String c s)) as Hk1.
    change (String c s +:+ post) with (String c (s +:+ post)) in Hk1. rewrite Hk1.
    destruct (atom_ok fl' a c); [|done]. by rewrite (IH (Some c) (Some c)).
Qed.

Lemma take_app_le (post : string) : forall s n,
  n <= String.length s -> take n (s +:+ post) = take n s.
Proof.
  induction s as [|c s IH]; intros n Hn.
  - destruct n; [by destruct post | cbn in Hn; lia].
  - destruct n; [done|]. change (String c s +:+ post) with (String c (s +:+ post)).
    cbn [take]. rewrite IH; [done|]. cbn in Hn. lia.
Qed.

Lemma take_line (s s2 post : string) :
  take (String.length (s +:+ post) - String.length (s2 +:+ post)) (s +:+ post) =
  take (String.length s - String.length s2) s.
Proof.
  rewrite !length_app_string.
  replace (String.length s + String.length post - (String.length s2 + String.length post))
    with (String.length s - String.length s2) by lia.
  apply take_app_le. lia.
Qed.

(** A pattern that is local to a line matches at the start of a line of a
    text as it matches the line alone. *)
Lemma rmatch_local {R} fl fl' post (Hpost : line_end post) r :
  line_local r ->
  forall s bef bef' cs (k k' : cursor -> caps -> option R),
    (forall cs2, agree post (fun cur => k cur cs2) (fun cur => k' cur cs2)) ->
    rmatch fl r {| before := bef; rest := s +:+ post |} cs k =
    rmatch fl' r {| before := bef'; rest := s |} cs k'.
Proof.
  induction r as [|a|a|a|a|r1 IH1|r1 IH1 r2 IH2|r1 IH1 r2 IH2|n r1 IH1| |];
    intros Hr s bef bef' cs k k' Hk; cbn [rmatch rest before]; cbn [line_local] in Hr.
  - apply (Hk cs bef bef' s).
  - destruct s as [|c s].
    + change (EmptyString +:+ post) with post. destruct post as [|c p]; [done|].
      cbn in Hpost. subst c. cbv iota. by rewrite (atom_no_line_feed fl a Hr).
    + change (String c s +:+ post) with (String c (s +:+ post)). cbv iota.
      rewrite (atom_local fl fl' a c Hr). destruct (atom_ok fl' a c); [|done].
      apply (Hk cs (Some c) (Some c) s).
  - apply star_greedy_local; [done..|]. apply Hk.
  - destruct s as [|c s].
    + change (EmptyString +:+ post) with post. destruct post as [|c p]; [done|].
      cbn in Hpost. subst c. cbv iota. by rewrite (atom_no_line_feed fl a Hr).
    + change (String c s +:+ post) with (String c (s +:+ post)). cbv iota.
      rewrite (atom_local fl fl' a c Hr). destruct (atom_ok fl' a c); [|done].
      apply star_greedy_local; [done..|]. apply Hk.
  - apply star_lazy_local; [done..|]. apply Hk.
  - rewrite (IH1 Hr s bef bef' cs k k' Hk). unfold try_.
    destruct (rmatch fl' r1 _ cs k'); [done|]. apply (Hk cs bef bef' s).
  - destruct Hr as [Hr1 Hr2]. apply IH1; [done|].
    intros cs2 b b' s2. by apply IH2.
  - destruct Hr as [Hr1 Hr2].
    rewrite (IH1 Hr1 s bef bef' cs k k' Hk), (IH2 Hr2 s bef bef' cs k k' Hk). done.
  - apply IH1; [done|]. intros cs2 b b' s2. cbn [rest].
    rewrite take_line. apply (Hk _ b b' s2).
  - done.
  - done.
Qed.

(** Mapping the result of the matcher is mapping the result of its
    continuation. *)
Lemma star_greedy_map {R R'} (f : R -> R') fl a (k : cursor -> option R)
    (k' : cursor -> option R') :
  (forall cur, f <$> k cur = k' cur) ->
  forall s bef, f <$> star_greedy fl a bef s k = star_greedy fl a bef s k'.
Proof.
  intros Hk. induction s as [|c s IH]; intros bef; cbn [star_greedy]; [apply Hk|].
  destruct (atom_ok fl a c); [|apply Hk].
  rewrite <- (IH (Some c)), <- Hk. unfold try_.
  by destruct (star_greedy fl a (Some c) s k).
Qed.

Lemma star_lazy_map {R R'} (f : R -> R') fl a (k : cursor -> option R)
    (k' : cursor -> option R') :
  (forall cur, f <$> k cur = k' cur) ->
  forall s bef, f <$> star_lazy fl a bef s k = star_lazy fl a bef s k'.
Proof.
  intros Hk. induction s as [|c s IH]; intros bef; cbn [star_lazy]; rewrite <- Hk.
  - unfold try_. by destruct (k _).
  - unfold try_. destruct (k _); [done|].
    destruct (atom_ok fl a c); [apply IH | done].
Qed.

Lemma rmatch_map {R R'} (f : R -> R') fl r :
  forall cur cs (k : cursor -> caps -> option R) (k' : cursor -> caps -> option R'),
    (forall cur' cs', f <$> k cur' cs' = k' cur' cs') ->
    f <$> rmatch fl r cur cs k = rmatch fl r cur cs k'.
Proof.
  induction r as [|a|a|a|a|r1 IH1|r1 IH1 r2 IH2|r1 IH1 r2 IH2|n r1 IH1| |];
    intros cur cs k k' Hk; cbn [rmatch].
  - apply Hk.
  - destruct (rest cur) as [|c s]; [done|]. destruct (atom_ok fl a c); [apply Hk | done].
  - apply star_greedy_map. intros; apply Hk.
  - destruct (rest cur) as [|c s]; [done|]. destruct (atom_ok fl a c); [|done].
    apply star_greedy_map. intros; apply Hk.
  - apply star_lazy_map. intros; apply Hk.
  - rewrite <- (IH1 cur cs k k' Hk), <- Hk. unfold try_.
    by destruct (rmatch fl r1 cur cs k).
  - apply IH1. intros cur' cs'. by apply IH2.
  - rewrite <- (IH1 cur cs k k' Hk), <- (IH2 cur cs k k' Hk). unfold try_.
    by destruct (rmatch fl r1 cur cs k).
  - apply IH1. intros cur' cs'. apply Hk.
  - destruct (bol_ok fl cur); [apply Hk | done].
  - destruct (eol_ok fl cur); [apply Hk | done].
Qed.

(** The match of a local pattern at the start of a line of a text is its
    match on the line alone: the same groups, and the same text left over,
    followed by the rest of the text. *)
Lemma match_at_line fl fl' post body s bef bef' :
  line_end post -> line_local body ->
  (fun m => (fst m, rest (snd m))) <$>
    match_at fl body {| before := bef; rest := s +:+ post |} =
  (fun m => (fst m, rest (snd m) +:+ post)) <$>
    match_at fl' body {| before := bef'; rest := s |}.
Proof.
  intros Hpost Hbody. unfold match_at.
  rewrite (rmatch_map _ fl body _ _ _ (fun cur' cs' => Some (cs', rest cur'))) by done.
  rewrite (rmatch_map _ fl' body _ _ _ (fun cur' cs' => Some (cs', rest cur' +:+ post)))
    by done.
  apply rmatch_local; [done..|]. by intros cs2 b b' s2.
Qed.

Lemma match_at_anchored fl body cur :
  match_at fl (Seq Bol body) cur = if bol_ok fl cur then match_at fl body cur else None.
Proof. unfold match_at. by rewrite rmatch_seq, rmatch_bol. Qed.

Lemma is_newline_eqb c : is_newline c = ascii_eqb (chr 10) c.
Proof. by destruct c as [[] [] [] [] [] [] [] []]. Qed.

(** After the start of a line [findall] finds nothing more in it. *)
Lemma findall_rest_of_line body post : forall line bef skip,
  no_line_feed line ->
  skip <= String.length line ->
  (skip = 0 -> exists c, bef = Some c /\ is_newline c = false) ->
  findall_from M (Seq Bol body) bef (line +:+ post) skip = next_lines (Seq Bol body) post.
Proof.
  induction line as [|c line IH]; intros bef skip Hline Hskip Hbef.
  - assert (skip = 0) as -> by (cbn in Hskip; lia).
    destruct (Hbef eq_refl) as (c & -> & Hc).
    change (EmptyString +:+ post) with post.
    destruct post as [|d more]; cbn [findall_from next_lines];
      rewrite match_at_anchored; unfold bol_ok; cbn [before]; by rewrite Hc, andb_false_r.
  - change (String c line +:+ post) with (String c (line +:+ post)).
    unfold no_line_feed in Hline. cbn [all_chars] in Hline.
    apply andb_prop in Hline as [Hc Hline]. apply negb_true_iff in Hc.
    destruct skip as [|n].
    + destruct (Hbef eq_refl) as (c0 & -> & Hc0).
      cbn [findall_from]. rewrite match_at_anchored. unfold bol_ok. cbn [before].
      rewrite Hc0, andb_false_r. apply IH; [done | lia | eauto].
    + cbn [findall_from]. apply IH; [done | cbn in Hskip; lia | eauto].
Qed.

(** From the start of a line on, [findall] finds the match of the line, if
    it has one, and then what the next lines hold. *)
Lemma findall_line body post line bef :
  line_end post -> line_local body -> no_line_feed line ->
  bol_ok M {| before := bef; rest := EmptyString |} = true ->
  findall_from M (Seq Bol body) bef (line +:+ post) 0 =
    option_list (line_group body line) ++ next_lines (Seq Bol body) post.
Proof.
  intros Hpost Hbody Hline Hbol.
  pose proof (match_at_line M NOFLAG post body line bef None Hpost Hbody) as Hm.
  unfold line_group, at_start.
  assert (match_at M (Seq Bol body) {| before := bef; rest := line +:+ post |} =
          match_at M body {| before := bef; rest := line +:+ post |}) as Ha.
  { rewrite match_at_anchored. unfold bol_ok in *. cbn [before] in *. by rewrite Hbol. }
  destruct (match_at NOFLAG body {| before := None; rest := line |}) as [[cs curL]|].
  - destruct (match_at M body {| before := bef; rest := line +:+ post |})
      as [[cs' curT]|] eqn:ET; [|done].
    cbn in Hm. injection Hm as -> Hrest.
    cbn [fmap option_fmap option_map option_list fst app].
    destruct line as [|c line].
    + change (EmptyString +:+ post) with post in *.
      destruct post as [|d more]; cbn [findall_from next_lines]; rewrite Ha; [done|].
      f_equal. unfold match_len. cbn [rest]. rewrite Hrest, length_app_string.
      cbn [String.length]. by replace (_ - _ - 1) with 0 by lia.
    + change (String c line +:+ post) with (String c (line +:+ post)) in *.
      cbn [findall_from]. rewrite Ha. f_equal.
      unfold no_line_feed in Hline. cbn [all_chars] in Hline.
      apply andb_prop in Hline as [Hc Hline]. apply negb_true_iff in Hc.
      apply findall_rest_of_line; [done| |eauto].
      unfold match_len. cbn [rest]. rewrite Hrest.
      change (String c (line +:+ post)) with (String c line +:+ post).
      rewrite !length_app_string.
      cbn [String.length]. lia.
  - destruct (match_at M body {| before := bef; rest := line +:+ post |})
      as [[cs' curT]|] eqn:ET; [done|].
    cbn [fmap option_fmap option_map option_list app].
    destruct line as [|c line].
    + change (EmptyString +:+ post) with post in *.
      destruct post as [|d more]; cbn [findall_from next_lines]; by rewrite Ha.
    + change (String c line +:+ post) with (String c (line +:+ post)) in *.
      cbn [findall_from]. rewrite Ha.
      unfold no_line_feed in Hline. cbn [all_chars] in Hline.
      apply andb_prop in Hline as [Hc Hline]. apply negb_true_iff in Hc.
      apply findall_rest_of_line; [done | lia | eauto].
Qed.

(** Over a text, [findall] with an anchored pattern that is local to a line
    finds the matches of the lines, in order. *)
Lemma findall_lines body : line_local body ->
  forall lines bef,
    lines <> [] -> Forall no_line_feed lines ->
    bol_ok M {| before := bef; rest := EmptyString |} = true ->
    findall_from M (Seq Bol body) bef (join LF lines) 0 = omap (line_group body) lines.
Proof.
  intros Hbody. induction lines as [|line lines IH]; [done|].
  intros bef _ Hall Hbol. inversion Hall as [|? ? Hline Hrest]; subst.
  destruct lines as [|l2 ls].
  - cbn [join omap list_omap]. rewrite <- (BlockRoundTrip.append_nil_r line) at 1.
    rewrite (findall_line body EmptyString) by done. cbn [next_lines].
    rewrite app_nil_r. by destruct (line_group body line).
  - rewrite BlockRoundTrip.join_cons.
    change (LF +:+ join LF (l2 :: ls)) with (String (chr 10) (join LF (l2 :: ls))).
    rewrite (findall_line body (String (chr 10) (join LF (l2 :: ls)))) by done.
    cbn [next_lines]. rewrite IH by done.
    cbn [omap list_omap]. by destruct (line_group body line).
Qed.

Lemma all_chars_rev p : forall cur acc,
  all_chars p (rev_string acc cur) = all_chars p cur && all_chars p acc.
Proof.
  induction cur as [|c cur IH]; intros acc; [done|].
  cbn [rev_string all_chars]. rewrite IH. cbn [all_chars].
  by destruct (p c), (all_chars p cur), (all_chars p acc).
Qed.

(** The pieces of a split at the line feed hold no line feed. *)
Lemma split_go_no_line_feed : forall s cur,
  no_line_feed cur -> Forall no_line_feed (split_go LF 0 cur s).
Proof.
  unfold no_line_feed.
  induction s as [|c s IH]; intros cur Hcur; cbn [split_go].
  - constructor; [|constructor]. by rewrite all_chars_rev, Hcur.
  - rewrite starts_with_LF. destruct (ascii_eqb (chr 10) c) eqn:E.
    + constructor; [by rewrite all_chars_rev, Hcur|].
      cbn [String.length LF Nat.sub]. by apply IH.
    + apply IH. cbn [all_chars]. by rewrite is_newline_eqb, E, Hcur.
Qed.

Lemma split_no_line_feed s : Forall no_line_feed (split LF s).
Proof. by apply split_go_no_line_feed. Qed.

Lemma split_nonempty s : split LF s <> [].
Proof. destruct (split_go_LF_head s EmptyString) as (w & tl & H). unfold split. by rewrite H. Qed.

(** [re.findall] with [re.M] over a text, for an anchored pattern that is
    local to a line: the matches of the lines of the text, in order. *)
Lemma re_findall_lines body data :
  line_local body ->
  re_findall M (Seq Bol body) data = omap (line_group body) (split LF data).
Proof.
  intros Hbody. unfold re_findall.
  rewrite <- (BlockRoundTrip.join_split data) at 1.
  apply findall_lines; [done | apply split_nonempty | apply split_no_line_feed | done].
Qed.

End LineFacts.

(** ** The two readings of the [dir] answer *)

Module FilesystemFacts.

Import Py Re ReSpec ReFacts PyFacts LoopFacts Hardware HardwareFacts HardwareMore Readings
  LineFacts.

Lemma directory_body_local : line_local directory_body.
Proof. cbn. repeat split; reflexivity. Qed.

Lemma directory_name_line line : directory_name line = line_group directory_body line.
Proof.
  unfold directory_name, line_group, re_match.
  change directory_re with (Seq Bol directory_body).
  rewrite match_at_anchored. cbn [bol_ok at_start before].
  by destruct (match_at NOFLAG directory_body _) as [[cs cur']|].
Qed.

Lemma parse_filesystems_lines data :
  parse_filesystems data = omap directory_name (split LF data).
Proof.
  unfold parse_filesystems. change directory_re with (Seq Bol directory_body).
  rewrite (re_findall_lines _ _ directory_body_local).
  induction (split LF data) as [|line lines IH]; [done|].
  cbn [omap list_omap]. by rewrite directory_name_line, IH.
Qed.

(** The keys after the loop of [parse_filesystems_info] are the keys before
    it and the names of the [Directory of] lines. *)
Lemma filesystems_loop_keys : forall lines st st',
  for_each filesystems_info_line lines st = Ok st' ->
  forall fs,
    is_Some (snd st' !! fs) <->
    is_Some (snd st !! fs) \/ fs ∈ omap directory_name lines.
Proof.
  induction lines as [|line lines IH]; intros [fs0 facts] st' Hrun fs.
  - assert (st' = (fs0, facts)) as -> by (cbn in Hrun; congruence).
    cbn. rewrite elem_of_nil. tauto.
  - cbn [for_each] in Hrun.
    destruct (filesystems_info_line line (fs0, facts)) as [st1|] eqn:E; [|done].
    cbn [mbind result_bind] in Hrun. rewrite (IH _ _ Hrun fs). clear IH Hrun.
    cbn [omap list_omap snd]. unfold directory_name at 2.
    destruct (re_match NOFLAG directory_re line) as [m|] eqn:Hd.
    + rewrite (directory_line_step _ _ _ _ Hd) in E. injection E as <-.
      cbn [fmap option_fmap option_map snd]. rewrite lookup_insert_is_Some, elem_of_cons.
      destruct (decide (group1 m = fs)); intuition congruence.
    + cbn [fmap option_fmap option_map].
      destruct (re_match NOFLAG space_re line) as [m|] eqn:Hs.
      * destruct (space_line_step line m fs0 facts Hs) as (total & free & E').
        rewrite E' in E. clear E'.
        destruct (truediv total 1024) as [t|]; [|done]. cbn [mbind result_bind] in E.
        unfold getitem in E. destruct (facts !! fs0) as [rec|] eqn:Hrec; [|done].
        cbn [mbind result_bind] in E.
        destruct (truediv free 1024) as [f|]; [|done]. cbn [mbind result_bind] in E.
        injection E as <-. cbn [snd]. rewrite lookup_insert_is_Some.
        destruct (decide (fs0 = fs)) as [->|]; [|intuition congruence].
        rewrite Hrec. intuition eauto.
      * rewrite other_line_step in E by done. by injection E as <-.
Qed.

(** X21: the two readings of the [dir] answer agree.  [parse_filesystems],
    which searches the whole answer, lists the names of the lines that
    [parse_filesystems_info] reads as [Directory of] lines, in order; so
    the names under [filesystems] are exactly the keys of
    [filesystems_info]. *)
Theorem filesystems_are_directory_lines :
  (forall data, parse_filesystems data = omap directory_name (split LF data))
  /\ (forall data info,
        parse_filesystems_info data = Ok info ->
        forall fs, fs ∈ parse_filesystems data <-> is_Some (info !! fs)).
Proof.
  split; [apply parse_filesystems_lines|].
  intros data info H fs. rewrite parse_filesystems_lines.
  unfold parse_filesystems_info in H.
  destruct (for_each filesystems_info_line (split LF data) (EmptyString, ∅))
    as [st|] eqn:E; [|done].
  cbn [mbind result_bind] in H. injection H as <-.
  rewrite (filesystems_loop_keys _ _ _ E fs). cbn [snd].
  rewrite lookup_empty, is_Some_alt. tauto.
Qed.

Lemma filesystems_are_directory_lines_witness :
  "flash:" ∈ parse_filesystems Samples.dir_flash <->
  is_Some ((<["flash:" :=
              <["spacefree_kb" := VFloat (S754_finite false 4507997673881600 (-52))]>
                (<["spacetotal_kb" := VFloat (S754_finite false 8281439976030208 (-30))]> ∅)]>
            ∅ : gmap string dict) !! "flash:").
Proof.
  exact (proj2 filesystems_are_directory_lines Samples.dir_flash _ eq_refl "flash:").
Defined.

End FilesystemFacts.

(** ** The values of the interface attributes *)

Module ValueFacts.

Import Py Re ReSpec ReFacts Interfaces Readings RecordFacts DefaultMore.

Lemma matches_shaped fl P g r cur cs cur' cs' :
  matches fl r cur cs cur' cs' ->
  shaped fl P g r -> group_holds P g cs -> group_holds P g cs'.
Proof.
  induction 1; simpl; intros Hg Hcs; try done.
  - by apply IHmatches.
  - destruct Hg. by apply IHmatches2, IHmatches1.
  - destruct Hg. by apply IHmatches.
  - destruct Hg. by apply IHmatches.
  - destruct Hg as [Hn Hg]. intros s. simpl.
    destruct (Nat.eqb_spec n g) as [->|Hne].
    + intros [= <-]. by eapply (Hn eq_refl).
    + by apply IHmatches.
Qed.

(** What [re.search] reports for group 1 when every match sets it. *)
Lemma search1_shaped fl P r data s :
  search1 fl r data = Some s -> shaped fl P 1 r -> mandatory 1 r -> P s.
Proof.
  unfold search1, re_search. intros H Hs Hm.
  destruct (search_from fl r None data) as [cs|] eqn:E; [|done].
  injection H as <-.
  apply search_from_sound in E as (cur & cur' & E).
  destruct (matches_sets_group _ 1 _ _ _ _ _ E Hm) as [w Hw].
  unfold group1. rewrite Hw. cbn.
  eapply (matches_shaped fl P 1) in E; [by apply E | done | by intros ?].
Qed.

Lemma plus_capture fl a cur cs cur' cs' :
  matches fl (Plus a) cur cs cur' cs' ->
  take (match_len cur cur') (rest cur) <> EmptyString
  /\ all_chars (atom_ok fl a) (take (match_len cur cur') (rest cur)) = true.
Proof.
  inversion 1 as [| | |? bef c s ? ? Hc Hr| | | | | | | | |]; subst.
  apply run_word in Hr as (w & Hw & Ha). cbn [rest advance] in Hw.
  unfold match_len. cbn [rest]. rewrite Hw.
  change (String c (w +:+ rest cur')) with (String c w +:+ rest cur').
  rewrite take_app_string. cbn [all_chars]. by rewrite Hc, Ha.
Qed.

Lemma lit_capture fl w cur cs cur' cs' :
  matches fl (lit w) cur cs cur' cs' -> take (match_len cur cur') (rest cur) = w.
Proof.
  intros H. apply matches_lit in H. apply starts_with_Some in H.
  unfold match_len. rewrite H. apply take_app_string.
Qed.

Lemma shaped_lit fl P g s : shaped fl P g (lit s).
Proof. induction s; cbn; auto. Qed.

Lemma lstrip_all_chars p : forall s, all_chars p s = true -> all_chars p (lstrip s) = true.
Proof.
  induction s as [|c s IH]; [done|]. cbn [lstrip all_chars]. intros H.
  apply andb_prop in H as [Hc Hs]. destruct (isspace c); [by apply IH|].
  cbn [all_chars]. by rewrite Hc, Hs.
Qed.

Lemma lstrip_opens s : opens_with_space (lstrip s) = false.
Proof.
  induction s as [|c s IH]; [done|]. cbn [lstrip].
  by destruct (isspace c) eqn:E; [|cbn; rewrite E].
Qed.

(** A pattern of the form of a text, a group of one repeated atom, and a
    tail: the group is not empty and holds what the atom takes. *)
Ltac solve_shape :=
  cbn [cat foldr shaped mandatory]; repeat split; auto using shaped_lit;
  try (intros ?; discriminate); try discriminate;
  try match goal with
      | H : matches _ (Plus _) _ _ _ _ |- _ =>
          apply plus_capture in H as [? ?]; assumption
      end.

(** X22: the values that the attribute parsers report for a block.
    [lineprotocol] is [up] or [down]; [duplex] is a word; [macaddress] has
    no white space; [description], [mediatype] and [type] are not empty and
    hold no line feed; [operstatus] holds no line feed and does not open with
    white space. *)
Theorem interface_attribute_values :
  forall data,
    (forall s, parse_lineprotocol data = Some s -> s = "up" \/ s = "down")
    /\ (forall s, parse_duplex data = Some s ->
          s <> EmptyString /\ all_chars isword s = true)
    /\ (forall s, parse_macaddress data = Some s ->
          s <> EmptyString /\ all_chars (fun c => negb (isspace c)) s = true)
    /\ (forall s,
          parse_description data = Some s \/ parse_mediatype data = Some s
          \/ parse_type data = Some s ->
          s <> EmptyString /\ no_line_feed s)
    /\ (forall s, parse_operstatus data = Some s ->
          no_line_feed s /\ opens_with_space s = false).
Proof.
  intros data. split; [|split; [|split; [|split]]].
  - intros s H. unfold parse_lineprotocol in H.
    eapply (search1_shaped M (fun s => s = "up" \/ s = "down")) in H; [done| |].
    + cbn [cat foldr shaped]. repeat split; auto using shaped_lit;
        try (intros ?; discriminate).
      intros _ cur cs cur' cs' Hm.
      inversion Hm as [| | | | | | | |? ? ? ? ? ? Hl|? ? ? ? ? ? Hr| | |]; subst.
      * left. by apply (lit_capture M "up") in Hl.
      * right. by apply (lit_capture M "down") in Hr.
    + cbn. tauto.
  - intros s H. unfold parse_duplex in H.
    eapply (search1_shaped M (fun s => s <> EmptyString /\ all_chars isword s = true)) in H;
      [done| |cbn; tauto].
    solve_shape.
  - intros s H. unfold parse_macaddress in H.
    eapply (search1_shaped NOFLAG
              (fun s => s <> EmptyString
                        /\ all_chars (fun c => negb (isspace c)) s = true)) in H;
      [done| |cbn; tauto].
    solve_shape.
  - intros s [H|[H|H]].
    + unfold parse_description in H.
      eapply (search1_shaped M (fun s => s <> EmptyString /\ no_line_feed s)) in H;
        [done| |cbn; tauto].
      solve_shape.
    + unfold parse_mediatype in H.
      eapply (search1_shaped M (fun s => s <> EmptyString /\ no_line_feed s)) in H;
        [done| |cbn; tauto].
      solve_shape.
    + unfold parse_type in H.
      eapply (search1_shaped M (fun s => s <> EmptyString /\ no_line_feed s)) in H;
        [done| |cbn; tauto].
      solve_shape.
  - intros s H. unfold parse_operstatus in H.
    destruct (search1 M operstatus_re data) as [w|] eqn:E; [|done].
    injection H as <-.
    eapply (search1_shaped M (fun s => s <> EmptyString /\ no_line_feed s)) in E;
      [| |cbn; tauto].
    + destruct E as [_ E]. split; [by apply lstrip_all_chars | apply lstrip_opens].
    + unfold operstatus_re. solve_shape.
Qed.

Lemma interface_attribute_values_witness :
  "up" = "up" \/ "up" = "down".
Proof.
  exact (proj1 (interface_attribute_values Inputs.interface_block) "up" eq_refl).
Defined.

End ValueFacts.

(** ** The status line of a block *)

Module StatusFacts.

Import Py Re ReSpec ReFacts PyFacts Interfaces Readings LineFacts.

Lemma star_greedy_within {R} fl post a (k k' : cursor -> option R) :
  line_end post -> atom_ok fl a (chr 10) = false -> agree post k k' ->
  forall s bef bef',
    star_greedy fl a bef (s +:+ post) k = star_greedy fl a bef' s k'.
Proof.
  intros Hpost Ha Hk. induction s as [|c s IH]; intros bef bef'.
  - pose proof (Hk bef bef' EmptyString) as Hk0.
    change (EmptyString +:+ post) with post in *. cbn [star_greedy].
    destruct post as [|c p]; [done|].
    cbn [star_greedy]. cbn in Hpost. subst c. by rewrite Ha.
  - change (String c s +:+ post) with (String c (s +:+ post)). cbn [star_greedy].
    destruct (atom_ok fl a c).
    + rewrite (IH (Some c) (Some c)). unfold try_.
      destruct (star_greedy fl a (Some c) s k'); [done|].
      apply (Hk bef bef' (String c s)).
    + apply (Hk bef bef' (String c s)).
Qed.

Lemma star_lazy_within {R} fl post a (k k' : cursor -> option R) :
  line_end post -> atom_ok fl a (chr 10) = false -> agree post k k' ->
  forall s bef bef',
    star_lazy fl a bef (s +:+ post) k = star_lazy fl a bef' s k'.
Proof.
  intros Hpost Ha Hk. induction s as [|c s IH]; intros bef bef'.
  - pose proof (Hk bef bef' EmptyString) as Hk0.
    change (EmptyString +:+ post) with post in *.
    destruct post as [|c p].
    + cbn [star_lazy]. by rewrite Hk0.
    + cbn [star_lazy]. cbn in Hpost. subst c. rewrite Ha. by rewrite Hk0.
  - change (String c s +:+ post) with (String c (s +:+ post)). cbn [star_lazy].
    pose proof (Hk bef bef' (String c s)) as Hk1.
    change (String c s +:+ post) with (String c (s +:+ post)) in Hk1. rewrite Hk1.
    destruct (atom_ok fl a c); [|done]. by rewrite (IH (Some c) (Some c)).
Qed.

(** A pattern that stays within a line matches at a place of a line of a
    text as it does at that place of the line alone. *)
Lemma rmatch_within {R} fl post (Hpost : line_end post) r :
  within_line fl r ->
  forall s bef bef' cs (k k' : cursor -> caps -> option R),
    (forall cs2, agree post (fun cur => k cur cs2) (fun cur => k' cur cs2)) ->
    rmatch fl r {| before := bef; rest := s +:+ post |} cs k =
    rmatch fl r {| before := bef'; rest := s |} cs k'.
Proof.
  induction r as [|a|a|a|a|r1 IH1|r1 IH1 r2 IH2|r1 IH1 r2 IH2|n r1 IH1| |];
    intros Hr s bef bef' cs k k' Hk; cbn [rmatch rest before]; cbn [within_line] in Hr.
  - apply (Hk cs bef bef' s).
  - destruct s as [|c s].
    + change (EmptyString +:+ post) with post. destruct post as [|c p]; [done|].
      cbn in Hpost. subst c. cbv iota. by rewrite Hr.
    + change (String c s +:+ post) with (String c (s +:+ post)). cbv iota.
      destruct (atom_ok fl a c); [|done].
      apply (Hk cs (Some c) (Some c) s).
  - apply star_greedy_within; [done..|]. apply Hk.
  - destruct s as [|c s].
    + change (EmptyString +:+ post) with post. destruct post as [|c p]; [done|].
      cbn in Hpost. subst c. cbv iota. by rewrite Hr.
    + change (String c s +:+ post) with (String c (s +:+ post)). cbv iota.
      destruct (atom_ok fl a c); [|done].
      apply star_greedy_within; [done..|]. apply Hk.
  - apply star_lazy_within; [done..|]. apply Hk.
  - rewrite (IH1 Hr s bef bef' cs k k' Hk). unfold try_.
    destruct (rmatch fl r1 _ cs k'); [done|]. apply (Hk cs bef bef' s).
  - destruct Hr as [Hr1 Hr2]. apply IH1; [done|].
    intros cs2 b b' s2. by apply IH2.
  - destruct Hr as [Hr1 Hr2].
    rewrite (IH1 Hr1 s bef bef' cs k k' Hk), (IH2 Hr2 s bef bef' cs k k' Hk). done.
  - apply IH1; [done|]. intros cs2 b b' s2. cbn [rest].
    rewrite take_line. apply (Hk _ b b' s2).
  - done.
  - done.
Qed.

(** A greedy run that, started at [said], leaves a match, leaves the same
    match when it starts earlier in the line: it tries the longer runs
    first. *)
Lemma star_greedy_skip {R} fl a (k : cursor -> option R) out said :
  (forall bef, star_greedy fl a bef said k = Some out) ->
  forall name bef,
    all_chars (atom_ok fl a) name = true ->
    star_greedy fl a bef (name +:+ said) k = Some out.
Proof.
  intros Hsaid. induction name as [|c name IH]; intros bef Hname; [apply Hsaid|].
  change (String c name +:+ said) with (String c (name +:+ said)).
  cbn [all_chars] in Hname. apply andb_prop in Hname as [Hc Hname].
  cbn [star_greedy]. rewrite Hc, (IH (Some c) Hname). done.
Qed.

Lemma operstatus_tail_within : within_line M operstatus_tail.
Proof. cbn. tauto. Qed.

(** The status pattern at the start of a block whose first line is a name
    and [said]: what it finds in [said] alone, after any character. *)
Lemma operstatus_on_line said status :
  (forall bef,
     star_greedy M ADot bef said
       (fun cur => rmatch M operstatus_tail cur [] (fun _ cs => Some cs))
     = Some [(1, status)]) ->
  forall name tail,
    name <> EmptyString -> no_line_feed name -> line_end tail ->
    parse_operstatus (name +:+ said +:+ tail) = Some (lstrip status).
Proof.
  intros Hsaid name tail Hne Hname Htail.
  assert (fst <$> match_at M operstatus_re (at_start (name +:+ said +:+ tail))
          = Some [(1, status)]) as Hm.
  { unfold match_at.
    rewrite (rmatch_map fst M operstatus_re _ _ _ (fun _ cs => Some cs)) by done.
    change operstatus_re with (Seq Bol (Seq (Plus ADot) operstatus_tail)).
    rewrite rmatch_seq, rmatch_bol. cbn [bol_ok at_start before]. rewrite rmatch_seq.
    destruct name as [|c name]; [done|].
    change (String c name +:+ said +:+ tail) with (String c (name +:+ said +:+ tail)).
    cbn [all_chars] in Hname. unfold no_line_feed in Hname. cbn [all_chars] in Hname.
    apply andb_prop in Hname as [Hc Hname].
    unfold at_start. rewrite rmatch_plus.
    assert (forall c0, atom_ok M ADot c0 = negb (is_newline c0)) as Hdot by done.
    rewrite Hdot, Hc.
    apply star_greedy_skip.
    - intros bef. etrans; [|exact (Hsaid bef)].
      apply star_greedy_within; [done | done |].
      intros b b' s2.
      apply (rmatch_within M tail Htail operstatus_tail operstatus_tail_within).
      by intros cs2 b2 b2' s3.
    - clear -Hname. induction name as [|c0 name IH]; [done|].
      cbn [all_chars] in *. apply andb_prop in Hname as [Hc0 Hname].
      apply andb_true_intro. split; [exact Hc0 | by apply IH]. }
  unfold parse_operstatus, search1, re_search.
  destruct (match_at M operstatus_re (at_start (name +:+ said +:+ tail)))
    as [[cs cur']|] eqn:E; [|done].
  injection Hm as ->.
  by rewrite (DefaultMore.search_from_here _ _ _ _ _ _ E).
Qed.

(** The status of a block whose first line says [deleted]. *)
Lemma operstatus_deleted name tail :
  name <> EmptyString -> no_line_feed name -> line_end tail ->
  parse_operstatus (name +:+ says_deleted +:+ tail) = Some "deleted".
Proof. apply (operstatus_on_line says_deleted "deleted"). intros bef. reflexivity. Qed.

(** The status of a block whose first line says [up]. *)
Lemma operstatus_up name tail :
  name <> EmptyString -> no_line_feed name -> line_end tail ->
  parse_operstatus (name +:+ says_up +:+ tail) = Some "up".
Proof. apply (operstatus_on_line says_up "up"). intros bef. reflexivity. Qed.

End StatusFacts.

(** ** Records that the address passes create *)

Module LazyRecordFacts.

Import Py Re Interfaces Samples Shapes Readings LoopFacts AddressFacts PassFacts
  AddressMore StatusFacts.

(** Both passes create the record of a name that has none. *)
Lemma passes_create data st i key value :
  interfaces st = Some i ->
  i !! key = None ->
  ODict.get data key = Some value ->
  (forall st',
     populate_ipv4_interfaces data st = Ok st' ->
     exists i' rec,
       interfaces st' = Some i' /\ i' !! key = Some rec
       /\ lazily_created "ipv4" value rec)
  /\ (exists st' i' rec,
       populate_ipv6_interfaces data st = Ok st'
       /\ interfaces st' = Some i' /\ i' !! key = Some rec
       /\ lazily_created "ipv6" value rec).
Proof.
  intros Hi Hk Hget. split.
  - intros st' Hrun.
    eapply (pass_creates "ipv4" populate_ipv4_item);
      [done | exact populate_ipv4_item_spec | exact Hrun | exact Hi | exact Hk | exact Hget].
  - destruct (populate_ipv6_total data st i Hi) as (st' & Hrun).
    exists st'.
    destruct (pass_creates "ipv6" populate_ipv6_item ltac:(done)
                populate_ipv6_item_shape key value data st st' i Hrun Hi Hk Hget)
      as (i' & rec & ? & ? & ?).
    eauto 10.
Qed.

(** The status of a created record, from the status of its block. *)
Lemma created_status family value rec status :
  lazily_created family value rec ->
  parse_operstatus value = Some status ->
  rec !! "operstatus" =
    if bool_decide (status = "deleted") then Some (VStr "deleted") else None.
Proof.
  intros (Ho & _) Hs. rewrite Ho, Hs.
  repeat case_bool_decide; congruence.
Qed.

(** Both passes, at a name that has no record and whose block reports
    [status]. *)
Lemma passes_create_status data st i key value status :
  interfaces st = Some i ->
  i !! key = None ->
  ODict.get data key = Some value ->
  parse_operstatus value = Some status ->
  (forall st',
     populate_ipv4_interfaces data st = Ok st' ->
     status_after st' key
       (if bool_decide (status = "deleted") then Some (VStr "deleted") else None))
  /\ (exists st',
       populate_ipv6_interfaces data st = Ok st'
       /\ status_after st' key
            (if bool_decide (status = "deleted") then Some (VStr "deleted") else None)).
Proof.
  intros Hi Hk Hget Hs.
  destruct (passes_create data st i key value Hi Hk Hget) as [H4 (st6 & i6 & rec6 & R6 & I6 & K6 & L6)].
  split.
  - intros st' Hrun. destruct (H4 st' Hrun) as (i' & rec & I4 & K4 & L4).
    exists i', rec. eauto using created_status.
  - exists st6. split; [done|]. exists i6, rec6. eauto using created_status.
Qed.

(** Neither pass touches the status of a record that is there. *)
Lemma passes_keep_status data st i key rec :
  interfaces st = Some i ->
  i !! key = Some rec ->
  (forall st',
     populate_ipv4_interfaces data st = Ok st' ->
     status_after st' key (rec !! "operstatus"))
  /\ (exists st',
       populate_ipv6_interfaces data st = Ok st'
       /\ status_after st' key (rec !! "operstatus")).
Proof.
  intros Hi Hk. split.
  - intros st' Hrun. unfold populate_ipv4_interfaces in Hrun.
    pose proof (ipv4_items_frame data st i Hi) as Hf.
    destruct (mapM _ data) as [pairss|]; [|congruence].
    destruct Hf as (st2 & i2 & Hrun2 & Hi2 & _ & _ & _ & _ & Hkeep).
    assert (st2 = st') as -> by congruence.
    destruct (Hkeep key rec Hk) as (rec' & Hk' & Heq).
    exists i2, rec'. by rewrite Heq.
  - destruct (ipv6_items_frame data st i Hi)
      as (st' & i' & Hrun & Hi' & _ & _ & _ & _ & Hkeep).
    exists st'. split; [done|].
    destruct (Hkeep key rec Hk) as (rec' & Hk' & Heq).
    exists i', rec'. by rewrite Heq.
Qed.

(** C7: an address pass creates the record of a name that has no record when
    its block is processed, and only of such a name.  The record it creates
    and fills has [operstatus] exactly when the status that
    [parse_operstatus] reads from the block is [deleted] (and then it is
    [deleted]), its address list, and nothing else.  A block whose first line
    is the name and [ is deleted, line protocol is down] has that status, so
    its record gets [operstatus = deleted]; one whose first line says [up]
    gets none.  A record that is there when the block is processed, the one
    of the primary parse or one that the IPv4 pass has created, keeps the
    status it has (or keeps having none), whatever the block says.  The IPv6
    pass always completes; the IPv4 pass is described when it returns. *)
Theorem C7_lazy_record_and_deleted_status :
  (forall data st i key value,
     interfaces st = Some i ->
     i !! key = None ->
     ODict.get data key = Some value ->
     (forall st',
        populate_ipv4_interfaces data st = Ok st' ->
        exists i' rec,
          interfaces st' = Some i' /\ i' !! key = Some rec
          /\ lazily_created "ipv4" value rec)
     /\ (exists st' i' rec,
          populate_ipv6_interfaces data st = Ok st'
          /\ interfaces st' = Some i' /\ i' !! key = Some rec
          /\ lazily_created "ipv6" value rec))
  /\ (forall name tail,
        name <> EmptyString -> no_line_feed name -> line_end tail ->
        parse_operstatus (name +:+ says_deleted +:+ tail) = Some "deleted"
        /\ parse_operstatus (name +:+ says_up +:+ tail) = Some "up")
  /\ (forall data st i key tail,
        interfaces st = Some i ->
        i !! key = None ->
        key <> EmptyString -> no_line_feed key -> line_end tail ->
        (ODict.get data key = Some (key +:+ says_deleted +:+ tail) ->
           (forall st',
              populate_ipv4_interfaces data st = Ok st' ->
              status_after st' key (Some (VStr "deleted")))
           /\ (exists st',
                populate_ipv6_interfaces data st = Ok st'
                /\ status_after st' key (Some (VStr "deleted"))))
        /\ (ODict.get data key = Some (key +:+ says_up +:+ tail) ->
              (forall st',
                 populate_ipv4_interfaces data st = Ok st' ->
                 status_after st' key None)
              /\ (exists st',
                   populate_ipv6_interfaces data st = Ok st'
                   /\ status_after st' key None)))
  /\ (forall data st i key rec,
        interfaces st = Some i ->
        i !! key = Some rec ->
        (forall st',
           populate_ipv4_interfaces data st = Ok st' ->
           status_after st' key (rec !! "operstatus"))
        /\ (exists st',
             populate_ipv6_interfaces data st = Ok st'
             /\ status_after st' key (rec !! "operstatus"))).
Proof.
  split; [exact passes_create|].
  split; [intros name tail Hne Hname Htail;
          split; [by apply operstatus_deleted | by apply operstatus_up]|].
  split; [|exact passes_keep_status].
  intros data st i key tail Hi Hk Hne Hkey Htail. split; intros Hget.
  - exact (passes_create_status data st i key _ "deleted" Hi Hk Hget
             (operstatus_deleted key tail Hne Hkey Htail)).
  - exact (passes_create_status data st i key _ "up" Hi Hk Hget
             (operstatus_up key tail Hne Hkey Htail)).
Qed.

(** The theorem at the IPv6 block of [Vlan5], which the sample facts do not
    hold and whose status line says [deleted]: the record that the pass
    creates has [operstatus = deleted]. *)
Lemma C7_lazy_record_witness :
  exists st',
    populate_ipv6_interfaces [("Vlan5", ipv6_block_deleted)] facts_with_vlan1 = Ok st'
    /\ status_after st' "Vlan5" (Some (VStr "deleted")).
Proof.
  exact (proj2
           (proj1
              (proj1 (proj2 (proj2 C7_lazy_record_and_deleted_status))
                 [("Vlan5", ipv6_block_deleted)] facts_with_vlan1
                 (<["Vlan1" := (∅ : dict)]> ∅) "Vlan5"
                 (LF +:+ "  2001:DB8:5::1, subnet is 2001:DB8:5::/64")
                 eq_refl eq_refl ltac:(discriminate) eq_refl eq_refl)
              eq_refl)).
Defined.

(** A name that both address answers hold and [show interfaces] does not: the
    IPv4 pass creates its record from a block that says [up], and the IPv6
    pass, whose block says [deleted], finds the record and leaves it without
    [operstatus]. *)
Lemma C7_existing_record_counterexample :
  parse_interfaces interfaces_vlan1 = Ok [("Vlan1", interfaces_vlan1)]
  /\ parse_interfaces ip_block_up = Ok [("Vlan5", ip_block_up)]
  /\ parse_interfaces ipv6_block_deleted = Ok [("Vlan5", ipv6_block_deleted)]
  /\ parse_operstatus ipv6_block_deleted = Some "deleted"
  /\ spec_operstatus [[("Vlan5", ip_block_up)]; [("Vlan5", ipv6_block_deleted)]] "Vlan5"
     = Some (VStr "deleted")
  /\ (st ← populate (fun name => name) interfaces_vlan1 ip_block_up ipv6_block_deleted
             EmptyString EmptyString [] [];
      i ← get_interfaces st;
      rec ← getitem i "Vlan5";
      Ok (rec !! "operstatus", rec !! "ipv4", rec !! "ipv6"))
     = Ok (None,
           Some (VList [VDict (ip_entry "10.0.5.1" "24")]),
           Some (VList [VDict (ip_entry "2001:DB8:5::1" "2001:DB8:5::/64")])).
Proof. repeat split; vm_compute; reflexivity. Qed.

End LazyRecordFacts.
